(** * eosjs [Api]: a shallow embedding of [src/eosjs-api.ts]

    The class [Api] turns a structured transaction into a signed binary
    payload: it caches ABIs, resolves the TAPOS reference block, serializes
    actions and the envelope, asks a signature provider to sign and hands the
    result to the node.

    Layout of this development:
    - JavaScript values, errors and the [result] type for code that throws;
    - the byte buffer of the serializer (its module is not part of the
      sources at hand, so that part is modelled from the specification);
    - the state of an [Api] object, the log of remote calls, and the monad
      [M] in which the asynchronous methods are written;
    - the methods of [Api], in the order of the source file;
    - the theorems, one block per property. *)

From Equations Require Import Equations.
From stdpp Require Import gmap strings list.
From Stdlib Require Import ZArith Lia.

Local Open Scope Z_scope.

(** ** JavaScript values

    Transactions are typed [any] in the source, so the fields that the code
    inspects with [typeof] and truthiness are kept as tagged values. *)

(** A [number]: integral, or [NaN].  Fractions and infinities behave like
    non-zero integers for everything done here ([typeof], truthiness). *)
Inductive JsNumber :=
| NumInt (z : Z)
| NumNaN.

Inductive JsVal :=
| VUndefined
| VNull
| VBool (b : bool)
| VNum (n : JsNumber)
| VStr (s : string)
| VObject.

Inductive JsType := TyUndefined | TyObject | TyBoolean | TyNumber | TyString.

Definition typeof (v : JsVal) : JsType :=
  match v with
  | VUndefined => TyUndefined
  | VNull => TyObject
  | VBool _ => TyBoolean
  | VNum _ => TyNumber
  | VStr _ => TyString
  | VObject => TyObject
  end.

Definition is_number (v : JsVal) : bool :=
  match typeof v with TyNumber => true | _ => false end.

Definition string_truthy (s : string) : bool :=
  match s with EmptyString => false | _ => true end.

(** [ToBoolean]. *)
Definition truthy (v : JsVal) : bool :=
  match v with
  | VUndefined | VNull => false
  | VBool b => b
  | VNum (NumInt z) => negb (z =? 0)
  | VNum NumNaN => false
  | VStr s => string_truthy s
  | VObject => true
  end.

(** [a - b] and [a <= b] on numbers; a comparison with [NaN] is false. *)
Definition num_sub (a b : JsNumber) : JsNumber :=
  match a, b with
  | NumInt x, NumInt y => NumInt (x - y)
  | _, _ => NumNaN
  end.

Definition num_le (a b : JsNumber) : bool :=
  match a, b with
  | NumInt x, NumInt y => x <=? y
  | _, _ => false
  end.

(** An optional boolean option of a config object, read for its truthiness. *)
Definition flag (o : option bool) : bool := default false o.

(** ** Errors *)

Record JsError := Error { message : string }.

Inductive result (A : Type) :=
| Ok (a : A)
| Throw (e : JsError).
Arguments Ok {A} a.
Arguments Throw {A} e.

#[global] Instance result_ret : MRet result := λ A a, Ok a.
#[global] Instance result_bind : MBind result := λ A B f r,
  match r with
  | Ok a => f a
  | Throw e => Throw e
  end.

(** ** The serializer's byte buffer

    [eosjs-serialize] is imported by the source but is not among the files
    at hand.  What the methods of [Api] need from its [SerialBuffer] is
    modelled here; a byte is a [Z] in [0, 256). *)

(** [v >>> 0]: the 32-bit unsigned value of a number. *)
Definition uint32 (v : Z) : Z := v mod 2 ^ 32.

(** Modelled from the spec: the "varint push" primitive of [SerialBuffer]
    (the file defining it is missing).  Little-endian base 128, the high bit
    of a byte saying that another byte follows. *)
Equations? leb128 (v : Z) : list Z by wf (Z.to_nat v) lt :=
  leb128 v with Z_lt_dec v 128 => {
    | left _ := [v mod 256]
    | right _ := (128 + v mod 128) :: leb128 (v / 128) }.
Proof.
  assert (0 <= v / 128 < v) by (split; [apply Z.div_pos; lia | apply Z.div_lt; lia]).
  lia.
Qed.

(** Modelled from the spec: the bytes that [SerialBuffer.pushVaruint32]
    writes (missing file): the varint of the 32-bit unsigned value of its
    argument. *)
Definition varuint32 (v : Z) : list Z := leb128 (uint32 v).

(** Modelled from the spec: the "varint pop" primitive (missing file).  Reads
    one varint from the front of [bs]; gives its value and how many bytes it
    took, or [None] when the bytes end first. *)
Fixpoint readVarint (bs : list Z) : option (Z * nat) :=
  match bs with
  | [] => None
  | b :: rest =>
      if Z.land b 128 =? 0 then Some (Z.land b 127, 1%nat)
      else match readVarint rest with
           | Some (v, n) => Some (Z.land b 127 + 128 * v, S n)
           | None => None
           end
  end.

(** Modelled from the spec: the class [SerialBuffer] (missing file), as far
    as [Api] uses it: the bytes written so far and the position of the next
    read. *)
Record SerialBuffer := mkBuffer { array : list Z; readPos : nat }.

(** Modelled from the spec: [new SerialBuffer({ array })] (missing file); a
    buffer over the given bytes, read from the start. *)
Definition newBuffer (arr : list Z) : SerialBuffer := mkBuffer arr 0.

(** Modelled from the spec: [SerialBuffer.restartRead] (missing file). *)
Definition restartRead (b : SerialBuffer) : SerialBuffer := mkBuffer (array b) 0.

(** Modelled from the spec: [SerialBuffer.asUint8Array] (missing file); all
    the bytes written, wherever the read position is. *)
Definition asUint8Array (b : SerialBuffer) : list Z := array b.

(** Modelled from the spec: [SerialBuffer.pushArray] (missing file); the
    bytes are appended. *)
Definition pushArray (v : list Z) (b : SerialBuffer) : SerialBuffer :=
  mkBuffer (array b ++ v) (readPos b).

(** Modelled from the spec: [SerialBuffer.pushVaruint32] (missing file). *)
Definition pushVaruint32 (v : Z) (b : SerialBuffer) : SerialBuffer :=
  pushArray (varuint32 v) b.

(** Modelled from the spec: [SerialBuffer.pushBytes] (missing file), the
    "byte-array push": a length prefix, then the bytes. *)
Definition pushBytes (v : list Z) (b : SerialBuffer) : SerialBuffer :=
  pushArray v (pushVaruint32 (Z.of_nat (length v)) b).

Definition readPastEnd : JsError := Error "Read past end of buffer".

(** Modelled from the spec: [SerialBuffer.getVaruint32] (missing file); the
    varint at the read position, as a 32-bit unsigned value. *)
Definition getVaruint32 (b : SerialBuffer) : result (Z * SerialBuffer) :=
  match readVarint (drop (readPos b) (array b)) with
  | Some (v, n) => Ok (uint32 v, mkBuffer (array b) (readPos b + n))
  | None => Throw readPastEnd
  end.

(** Modelled from the spec: [SerialBuffer.getUint8Array] (missing file);
    the next [len] bytes, or an error when fewer are left. *)
Definition getUint8Array (len : nat) (b : SerialBuffer) : result (list Z * SerialBuffer) :=
  if decide (readPos b + len ≤ length (array b))%nat
  then Ok (take len (drop (readPos b) (array b)), mkBuffer (array b) (readPos b + len))
  else Throw readPastEnd.

(** Modelled from the spec: [SerialBuffer.getBytes] (missing file), the
    inverse of [pushBytes]. *)
Definition getBytes (b : SerialBuffer) : result (list Z * SerialBuffer) :=
  '(len, b1) ← getVaruint32 b;
  getUint8Array (Z.to_nat len) b1.

Section Api.

(** ** Data of the pipeline

    The payload types of the serializer and of the RPC client are left
    open: the methods of [Api] only pass them around. *)
Context {AbiBody Types SerType Json GetBlockResult GetBlockHeaderStateResult : Type}.

(** Modelled from the spec: the type [abi_def] of [abi.abi.json] (missing
    file); "length-prefixed version string header followed by
    schema-defined struct encoding".  The header is explicit, what follows
    it is a [body]. *)
Record Abi := mkAbi { version : string; body : AbiBody }.

Record CachedAbi := mkCachedAbi { rawAbi : list Z; abi : Abi }.

Record Contract := mkContract { types : Types; actions : gmap string SerType }.

(** [data] of an action or of a trace: a hex string, or structured. *)
Inductive Payload :=
| Hex (s : string)
| Structured (j : Json).

Record Authorization := mkAuthorization { actor : string; permission : string }.

Record Action := mkAction {
  account : string;
  name : string;
  authorization : list Authorization;
  data : Payload }.

(** A transaction object.  [props] holds its own scalar properties
    ([expiration], [ref_block_num], [ref_block_prefix], usage limits);
    a key that is absent reads as [undefined]. *)
Record Transaction := mkTransaction {
  props : gmap string JsVal;
  context_free_actions : option (list Action);
  tx_actions : list Action;
  context_free_data : option (list (list Z)) }.

Record GetInfoResult := mkInfo {
  chain_id : string;
  head_block_num : Z;
  last_irreversible_block_num : Z }.

Inductive RefBlock :=
| FullBlock (b : GetBlockResult)
| HeaderState (h : GetBlockHeaderStateResult).

Record GetRawAbiResult := mkRawAbiResult { account_name : string; gra_abi : list Z }.

Record BinaryAbi := mkBinaryAbi { accountName : string; ba_abi : list Z }.

Record PushTransactionArgs := mkPushArgs {
  signatures : list string;
  compression : option Z;
  serializedTransaction : list Z;
  serializedContextFreeData : option (list Z) }.

Record SignatureProviderArgs := mkSignArgs {
  spa_chainId : option string;
  spa_requiredKeys : list string;
  spa_serializedTransaction : list Z;
  spa_serializedContextFreeData : option (list Z);
  spa_abis : list BinaryAbi }.

Record TransactConfig := mkConfig {
  broadcast : option bool;
  sign : option bool;
  requiredKeys : option (list string);
  cfg_compression : option bool;
  blocksBehind : option Z;
  useLastIrreversible : option bool;
  expireSeconds : option Z }.

(** The node's answer to [send_transaction]. *)
Record TraceAct := mkTraceAct {
  ta_account : string;
  ta_name : string;
  ta_data : option Payload }.

Record ActionTrace := mkTrace {
  act : option TraceAct;
  return_value : option Payload;
  receiver : string }.

Record Processed := mkProcessed {
  action_traces : option (list ActionTrace);
  block_num : Z }.

Record TransactResult := mkResult {
  transaction_id : string;
  processed : option Processed }.

(** What [transact] resolves to: the node's response if [broadcast],
    the push arguments if not. *)
Inductive TransactOutcome :=
| Response (r : TransactResult)
| Unsent (a : PushTransactionArgs).

(** Decode hooks of a WASM ABI. *)
Record ArgsJson := mkArgsJson { args_long_name : string; args : Json }.
Record RetJson := mkRetJson { ret_long_name : string; ret_return_value : Json }.

Record WasmAbi := mkWasmAbi {
  action_args_bin_to_json : string → list Z → result ArgsJson;
  action_ret_bin_to_json : string → list Z → result RetJson }.

(** ** Remote calls

    Every remote call is logged.  What a collaborator answers may depend on
    everything that was asked before, so each one is a function of the log
    so far; it answers with a value or throws. *)
Inductive Call :=
| Call_get_info
| Call_get_block (n : JsNumber)
| Call_get_block_header_state (n : JsNumber)
| Call_getRawAbi (accountName : string)
| Call_getAvailableKeys
| Call_getRequiredKeys (transaction : Transaction) (availableKeys : list string)
| Call_sign (a : SignatureProviderArgs)
| Call_send_transaction (a : PushTransactionArgs).

(** ** Collaborators

    The serializer module is imported and the providers are handed to the
    constructor of [Api].  None of them is among the sources at hand: they
    are the two interfaces below. *)

(** [eosjs-serialize], and the text codec that every [SerialBuffer] is built
    with. *)
Class Serializer := {
  (** [this.textEncoder.encode] and [this.textDecoder.decode] *)
  textEncode : string → list Z;
  textDecode : list Z → string;
  (** Modelled from the spec: what [ser.supportedAbiVersion] accepts
      (missing file); "the version string must match one of a small set of
      supported prefixes" *)
  supportedPrefixes : list string;
  (** Modelled from the spec: the "schema-defined struct encoding" that
      follows the version string of an [abi_def] (missing file); the decoder
      works on the unread bytes *)
  abi_body_deserialize : list Z → result AbiBody;
  abi_body_serialize : AbiBody → result (list Z);
  (** [abi.actions], as pairs of [name] and [type] *)
  abi_actions : AbiBody → list (string * string);
  (** [ser.getTypesFromAbi(ser.createInitialTypes(), abi)] *)
  getTypesFromAbi : Abi → result Types;
  getType : Types → string → result SerType;
  serializeAction :
    Contract → string → string → list Authorization → Payload → result Action;
  (** [this.transactionTypes.get('transaction').serialize] *)
  transaction_serialize : Transaction → result (list Z);
  hexToUint8Array : Payload → result (list Z);
  transactionHeader : RefBlock → Z → gmap string JsVal }.

(** [rpc], [abiProvider], [authorityProvider], [signatureProvider] and
    [wasmAbiProvider]. *)
Class Providers := {
  get_info : list Call → result GetInfoResult;
  get_block : list Call → JsNumber → result GetBlockResult;
  get_block_header_state : list Call → JsNumber → result GetBlockHeaderStateResult;
  getRawAbi : list Call → string → result GetRawAbiResult;
  getAvailableKeys : list Call → result (list string);
  getRequiredKeys : list Call → Transaction → list string → result (list string);
  signatureProvider_sign : list Call → SignatureProviderArgs → result PushTransactionArgs;
  send_transaction : list Call → PushTransactionArgs → result TransactResult;
  wasmAbiProvider : option (gmap string WasmAbi) }.

Context {ser : Serializer} {providers : Providers}.

(** Modelled from the spec: [ser.supportedAbiVersion] (missing file); the
    version starts with one of the supported prefixes. *)
Definition supportedAbiVersion (version : string) : bool :=
  existsb (λ p, String.prefix p version) supportedPrefixes.

(** Modelled from the spec: [SerialBuffer.pushString] (missing file): the
    encoded text as a length-prefixed byte array. *)
Definition pushString (s : string) (b : SerialBuffer) : SerialBuffer :=
  pushBytes (textEncode s) b.

(** Modelled from the spec: [SerialBuffer.getString] (missing file), the
    inverse of [pushString]. *)
Definition getString (b : SerialBuffer) : result (string * SerialBuffer) :=
  '(bs, b1) ← getBytes b;
  mret (textDecode bs, b1).

(** Modelled from the spec: [abiTypes.get('abi_def').deserialize] (missing
    file): the version string, then the body from the unread bytes. *)
Definition abi_def_deserialize (buffer : SerialBuffer) : result Abi :=
  '(v, b1) ← getString buffer;
  rest ← abi_body_deserialize (drop (readPos b1) (array b1));
  mret (mkAbi v rest).

(** Modelled from the spec: [abiTypes.get('abi_def').serialize] (missing
    file): the version string, then the body. *)
Definition abi_def_serialize (buffer : SerialBuffer) (jsonAbi : Abi) : result SerialBuffer :=
  let b1 := pushString (version jsonAbi) buffer in
  bytes ← abi_body_serialize (body jsonAbi);
  mret (pushArray bytes b1).

(** ** State of an [Api] object, and the monad of its methods *)
Record World := mkWorld {
  chainId : option string;
  cachedAbis : gmap string CachedAbi;
  contracts : gmap string Contract;
  calls : list Call }.

Definition M (A : Type) : Type := World → result A * World.

#[local] Instance M_ret : MRet M := λ A a w, (Ok a, w).
#[local] Instance M_bind : MBind M := λ A B f m w,
  match m w with
  | (Ok a, w1) => f a w1
  | (Throw e, w1) => (Throw e, w1)
  end.

Definition throw {A} (e : JsError) : M A := λ w, (Throw e, w).

Definition lift {A} (r : result A) : M A := λ w, (r, w).

Definition gets {A} (f : World → A) : M A := λ w, (Ok (f w), w).

Definition modify (f : World → World) : M unit := λ w, (Ok tt, f w).

(** [try { body } catch (e) { handler }]. *)
Definition try_catch {A} (body : M A) (handler : JsError → M A) : M A := λ w,
  match body w with
  | (Ok a, w1) => (Ok a, w1)
  | (Throw e, w1) => handler e w1
  end.

Definition logCall (c : Call) (w : World) : World :=
  mkWorld (chainId w) (cachedAbis w) (contracts w) (calls w ++ [c]).

(** [await] of a remote call: the collaborator answers from the log before
    the call, and the call is logged. *)
Definition call {A} (c : Call) (answer : list Call → result A) : M A := λ w,
  (answer (calls w), logCall c w).

Definition set_chainId (c : string) (w : World) : World :=
  mkWorld (Some c) (cachedAbis w) (contracts w) (calls w).

Definition set_cachedAbi (k : string) (v : CachedAbi) (w : World) : World :=
  mkWorld (chainId w) (<[k := v]> (cachedAbis w)) (contracts w) (calls w).

Definition set_contract (k : string) (v : Contract) (w : World) : World :=
  mkWorld (chainId w) (cachedAbis w) (<[k := v]> (contracts w)) (calls w).

(** ** [Promise.all]

    [Promise.all(xs.map(async x => ...))] calls the function on every
    element of the array before any of the calls resumes: each call runs up
    to the first answer that it has to wait for, and what it has read and
    asked by then is its pending state.  So an [async] function that is
    used in this way is written in two parts, [start] and [resume].

    The calls resume as their answers arrive, each of them, also after
    another one has thrown.  The model takes the answers to arrive in the
    order of the requests.  [Promise.all] is fulfilled with the values in
    the order of the array, or rejected with the error of the first call to
    throw; the state that the model returns is the one in which every call
    has settled. *)
Section PromiseAll.

Context {X P A : Type}.
Context (start : X → World → P * World) (resume : X → P → M A).

(** Every call runs up to its [await], in the order of the array. *)
Fixpoint startAll (xs : list X) (w : World) : list P * World :=
  match xs with
  | [] => ([], w)
  | x :: xs' =>
      let '(p, w1) := start x w in
      let '(ps, w2) := startAll xs' w1 in
      (p :: ps, w2)
  end.

(** Every call resumes and settles, fulfilled or rejected. *)
Fixpoint settleAll (xs : list X) (ps : list P) (w : World) : list (result A) * World :=
  match xs, ps with
  | x :: xs', p :: ps' =>
      let '(r, w1) := resume x p w in
      let '(rs, w2) := settleAll xs' ps' w1 in
      (r :: rs, w2)
  | _, _ => ([], w)
  end.

(** All the values, or the first error. *)
Fixpoint fulfilled (rs : list (result A)) : result (list A) :=
  match rs with
  | [] => Ok []
  | Ok a :: rs' =>
      match fulfilled rs' with
      | Ok l => Ok (a :: l)
      | Throw e => Throw e
      end
  | Throw e :: _ => Throw e
  end.

Definition Promise_all (xs : list X) : M (list A) := λ w,
  let '(ps, w1) := startAll xs w in
  let '(rs, w2) := settleAll xs ps w1 in
  (fulfilled rs, w2).

End PromiseAll.

(** ** Methods of [Api] *)

Definition unsupportedAbiVersion : JsError := Error "Unsupported abi version".

(** Decodes an abi as Uint8Array into json. *)
Definition rawAbiToJson (rawAbi : list Z) : result Abi :=
  let buffer := newBuffer rawAbi in
  '(v, buffer) ← getString buffer;
  if negb (supportedAbiVersion v) then Throw unsupportedAbiVersion
  else abi_def_deserialize (restartRead buffer).

(** Encodes a json abi as Uint8Array. *)
Definition jsonToRawAbi (jsonAbi : Abi) : result (list Z) :=
  buffer ← abi_def_serialize (newBuffer []) jsonAbi;
  '(v, buffer) ← getString buffer;
  if negb (supportedAbiVersion v) then Throw unsupportedAbiVersion
  else mret (asUint8Array buffer).

(** The error rethrown by the [catch] block of [getCachedAbi]. *)
Definition fetchingAbiFor (accountName : string) (e : JsError) : JsError :=
  Error ("fetching abi for " +:+ accountName +:+ ": " +:+ message e).

(** Get abi in both binary and structured forms. Fetch when needed.  The
    object built in the [try] block is never falsy, so the
    [Missing abi for] test after it cannot fire. *)
Definition getCachedAbi (accountName : string) (reload : bool) : M CachedAbi :=
  cached ← gets (λ w, cachedAbis w !! accountName);
  match (if reload then None else cached) with
  | Some c => mret c
  | None =>
      cachedAbi ← try_catch
        (r ← call (Call_getRawAbi accountName) (λ l, getRawAbi l accountName);
         let rawAbi := gra_abi r in
         abi ← lift (rawAbiToJson rawAbi);
         mret (mkCachedAbi rawAbi abi))
        (λ e, throw (fetchingAbiFor accountName e));
      modify (set_cachedAbi accountName cachedAbi);;
      mret cachedAbi
  end.

(** Get abi in structured form. Fetch when needed. *)
Definition getAbi (accountName : string) (reload : bool) : M Abi :=
  c ← getCachedAbi accountName reload;
  mret (abi c).

(** [getCachedAbi] as a task of [Promise.all]: up to its [await], it has
    read the cache and, on a miss, asked the provider. *)
Inductive AbiPending :=
| CachedEntry (c : CachedAbi)
| RawAbiAnswer (answer : result GetRawAbiResult).

Definition getCachedAbi_start (accountName : string) (reload : bool) (w : World)
    : AbiPending * World :=
  match (if reload then None else cachedAbis w !! accountName) with
  | Some c => (CachedEntry c, w)
  | None =>
      (RawAbiAnswer (getRawAbi (calls w) accountName),
       logCall (Call_getRawAbi accountName) w)
  end.

(** [getCachedAbi] from its [await] on: the cached entry is returned; the
    answer of the provider is decoded and stored, or rethrown. *)
Definition getCachedAbi_resume (accountName : string) (p : AbiPending) : M CachedAbi :=
  match p with
  | CachedEntry c => mret c
  | RawAbiAnswer answer =>
      cachedAbi ← try_catch
        (r ← lift answer;
         let rawAbi := gra_abi r in
         abi ← lift (rawAbiToJson rawAbi);
         mret (mkCachedAbi rawAbi abi))
        (λ e, throw (fetchingAbiFor accountName e));
      modify (set_cachedAbi accountName cachedAbi);;
      mret cachedAbi
  end.

(** [getAbi] waits for [getCachedAbi] and for nothing else. *)
Definition getAbi_resume (accountName : string) (p : AbiPending) : M Abi :=
  c ← getCachedAbi_resume accountName p;
  mret (abi c).

(** [this.wasmAbiProvider && this.wasmAbiProvider.wasmAbis.get(account)]. *)
Definition wasmAbiOf (account : string) : option WasmAbi :=
  match wasmAbiProvider with
  | Some wasmAbis => wasmAbis !! account
  | None => None
  end.

(** [[...new Set(accounts)]]: first occurrences, in order. *)
Fixpoint uniqueFrom (seen l : list string) : list string :=
  match l with
  | [] => []
  | x :: l' =>
      if bool_decide (x ∈ seen) then uniqueFrom seen l'
      else x :: uniqueFrom (x :: seen) l'
  end.

Definition is_None' {A} (o : option A) : bool :=
  match o with
  | None => true
  | Some _ => false
  end.

(** Get abis needed by a transaction. *)
Definition getTransactionAbis (transaction : Transaction) (reload : bool) : M (list BinaryAbi) :=
  let actions := default [] (context_free_actions transaction) ++ tx_actions transaction in
  let accounts := map account actions in
  let uniqueAccounts := uniqueFrom [] accounts in
  Promise_all
    (λ account, getCachedAbi_start account reload)
    (λ account p,
       c ← getCachedAbi_resume account p;
       mret (mkBinaryAbi account (rawAbi c)))
    (List.filter (λ account, is_None' (wasmAbiOf account)) uniqueAccounts).

(** The loop over [abi.actions] in [getContract]. *)
Fixpoint actionTypes (types : Types) (l : list (string * string))
    (acc : gmap string SerType) : result (gmap string SerType) :=
  match l with
  | [] => Ok acc
  | (name, type) :: l' =>
      t ← getType types type;
      actionTypes types l' (<[name := t]> acc)
  end.

(** Get data needed to serialize actions in a contract. *)
Definition getContract (accountName : string) (reload : bool) : M Contract :=
  cached ← gets (λ w, contracts w !! accountName);
  match (if reload then None else cached) with
  | Some c => mret c
  | None =>
      abi ← getAbi accountName reload;
      types ← lift (getTypesFromAbi abi);
      actions ← lift (actionTypes types (abi_actions (body abi)) ∅);
      let result := mkContract types actions in
      modify (set_contract accountName result);;
      mret result
  end.

(** [getContract] as a task of [Promise.all]: up to its [await], it has
    read the contract cache and, on a miss, started [getAbi]. *)
Inductive ContractPending :=
| CachedContract (c : Contract)
| AwaitsAbi (p : AbiPending).

Definition getContract_start (accountName : string) (reload : bool) (w : World)
    : ContractPending * World :=
  match (if reload then None else contracts w !! accountName) with
  | Some c => (CachedContract c, w)
  | None =>
      let '(p, w1) := getCachedAbi_start accountName reload w in
      (AwaitsAbi p, w1)
  end.

(** [getContract] from its [await] on: the cached contract is returned;
    else the contract is built from the ABI and stored. *)
Definition getContract_resume (accountName : string) (p : ContractPending) : M Contract :=
  match p with
  | CachedContract c => mret c
  | AwaitsAbi p =>
      abi ← getAbi_resume accountName p;
      types ← lift (getTypesFromAbi abi);
      actions ← lift (actionTypes types (abi_actions (body abi)) ∅);
      let result := mkContract types actions in
      modify (set_contract accountName result);;
      mret result
  end.

(** The task that [serializeActions] and [deserializeActions] run for one
    action, [convert] being [ser.serializeAction] or
    [ser.deserializeAction].  The action of a WASM account is returned at
    once ([None]: nothing is pending). *)
Definition convert_start (action : Action) (w : World) : option ContractPending * World :=
  match wasmAbiOf (account action) with
  | Some _ => (None, w)
  | None =>
      let '(p, w1) := getContract_start (account action) false w in
      (Some p, w1)
  end.

Definition convert_resume
    (convert : Contract → string → string → list Authorization → Payload → result Action)
    (action : Action) (p : option ContractPending) : M Action :=
  match p with
  | None => mret action
  | Some p =>
      contract ← getContract_resume (account action) p;
      lift (convert contract (account action) (name action) (authorization action)
              (data action))
  end.

Definition zero : JsVal := VNum (NumInt 0).

(** The defaults that [serializeTransaction] spreads the transaction over. *)
Definition defaultProps : gmap string JsVal :=
  <["max_net_usage_words" := zero]>
    (<["max_cpu_usage_ms" := zero]>
       (<["delay_sec" := zero]> (<["transaction_extensions" := VObject]> ∅))).

(** Convert a transaction to binary. *)
Definition serializeTransaction (transaction : Transaction) : result (list Z) :=
  transaction_serialize
    (mkTransaction
       (props transaction ∪ defaultProps)
       (Some (default [] (context_free_actions transaction)))
       (tx_actions transaction)
       (context_free_data transaction)).

(** The [for] loop of [serializeContextFreeData]. *)
Fixpoint pushAll (contextFreeData : list (list Z)) (buffer : SerialBuffer) : SerialBuffer :=
  match contextFreeData with
  | [] => buffer
  | data :: rest => pushAll rest (pushBytes data buffer)
  end.

(** Serialize context-free data.  [None] is JavaScript's [null] on the way
    out, and a missing argument on the way in. *)
Definition serializeContextFreeData (contextFreeData : option (list (list Z)))
    : option (list Z) :=
  match contextFreeData with
  | None => None
  | Some [] => None
  | Some l =>
      let buffer := newBuffer [] in
      let buffer := pushVaruint32 (Z.of_nat (length l)) buffer in
      let buffer := pushAll l buffer in
      Some (asUint8Array buffer)
  end.

(** Convert actions to hex. *)
Definition serializeActions (actions : list Action) : M (list Action) :=
  Promise_all convert_start (convert_resume serializeAction) actions.

Definition tryGetBlockHeaderState (taposBlockNumber : JsNumber) : M RefBlock :=
  try_catch
    (h ← call (Call_get_block_header_state taposBlockNumber)
              (λ l, get_block_header_state l taposBlockNumber);
     mret (HeaderState h))
    (λ error,
       b ← call (Call_get_block taposBlockNumber) (λ l, get_block l taposBlockNumber);
       mret (FullBlock b)).

(** A [number | undefined] read as a number: [undefined] in arithmetic is
    [NaN]. *)
Definition optNumber (o : option Z) : JsNumber :=
  match o with
  | Some z => NumInt z
  | None => NumNaN
  end.

Definition taposBlockNumber (info : GetInfoResult) (blocksBehind : option Z)
    (useLastIrreversible : option bool) : JsNumber :=
  if flag useLastIrreversible then NumInt (last_irreversible_block_num info)
  else num_sub (NumInt (head_block_num info)) (optNumber blocksBehind).

(** [{ ...header, ...transaction }]: the transaction's own properties win. *)
Definition spreadOver (header : gmap string JsVal) (transaction : Transaction) : Transaction :=
  mkTransaction (props transaction ∪ header) (context_free_actions transaction)
    (tx_actions transaction) (context_free_data transaction).

Definition generateTapos (info : option GetInfoResult) (transaction : Transaction)
    (blocksBehind : option Z) (useLastIrreversible : option bool) (expireSeconds : Z)
    : M Transaction :=
  info ← match info with
         | Some i => mret i
         | None => call Call_get_info get_info
         end;
  let taposBlockNumber := taposBlockNumber info blocksBehind useLastIrreversible in
  refBlock ←
    (if num_le taposBlockNumber (NumInt (last_irreversible_block_num info))
     then b ← call (Call_get_block taposBlockNumber) (λ l, get_block l taposBlockNumber);
          mret (FullBlock b)
     else tryGetBlockHeaderState taposBlockNumber);
  mret (spreadOver (transactionHeader refBlock expireSeconds) transaction).

(** A property of the transaction object; [undefined] when absent. *)
Definition prop (transaction : Transaction) (k : string) : JsVal :=
  default VUndefined (props transaction !! k).

Definition hasRequiredTaposFields (transaction : Transaction) : bool :=
  let expiration := prop transaction "expiration" in
  let ref_block_num := prop transaction "ref_block_num" in
  let ref_block_prefix := prop transaction "ref_block_prefix" in
  truthy expiration && is_number ref_block_num && is_number ref_block_prefix.

(** The bodies of the two [try] blocks of the post-broadcast decoding: the
    hex field is turned into bytes and handed to the hook of the WASM ABI.
    Either step may throw. *)
Definition argsFromHex (abi : WasmAbi) (name : string) (d : Payload) : result ArgsJson :=
  bytes ← hexToUint8Array d;
  action_args_bin_to_json abi name bytes.

Definition returnFromHex (abi : WasmAbi) (name : string) (rv : Payload) : result RetJson :=
  bytes ← hexToUint8Array rv;
  action_ret_bin_to_json abi name bytes.

(** Post-broadcast decoding of one trace of a WASM account.  [name] is read
    once, before either hook runs; a [try] block that throws leaves the
    trace as it was when the block was entered. *)
Definition decodeData (abi : WasmAbi) (name : string) (a : TraceAct) : TraceAct :=
  match ta_data a with
  | Some d =>
      match argsFromHex abi name d with
      | Ok j => mkTraceAct (ta_account a) (args_long_name j) (Some (Structured (args j)))
      | Throw _ => a
      end
  | None => a
  end.

Definition decodeReturnValue (abi : WasmAbi) (name : string) (a : TraceAct)
    (trace : ActionTrace) : ActionTrace :=
  match return_value trace with
  | Some rv =>
      match returnFromHex abi name rv with
      | Ok j =>
          mkTrace (Some (mkTraceAct (ta_account a) (ret_long_name j) (ta_data a)))
            (Some (Structured (ret_return_value j))) (receiver trace)
      | Throw _ => mkTrace (Some a) (return_value trace) (receiver trace)
      end
  | None => mkTrace (Some a) (return_value trace) (receiver trace)
  end.

(** The body of the loop over [result.processed.action_traces]. *)
Definition decodeTrace (trace : ActionTrace) : ActionTrace :=
  match act trace with
  | Some a =>
      match wasmAbiOf (ta_account a) with
      | Some abi =>
          let name := ta_name a in
          decodeReturnValue abi name (decodeData abi name a) trace
      | None => trace
      end
  | None => trace
  end.

Definition decodeTraces (result : TransactResult) : TransactResult :=
  match wasmAbiProvider, processed result with
  | Some _, Some p =>
      match action_traces p with
      | Some traces =>
          mkResult (transaction_id result)
            (Some (mkProcessed (Some (map decodeTrace traces)) (block_num p)))
      | None => result
      end
  | _, _ => result
  end.

Definition useEither : JsError :=
  Error "Use either blocksBehind or useLastIrreversible".

Definition taposMissing : JsError :=
  Error "Required configuration or TAPOS fields are not present".

(** Truthiness of a [number | undefined] and of a [string | undefined]. *)
Definition number_truthy (o : option Z) : bool :=
  match o with
  | Some z => negb (z =? 0)
  | None => false
  end.

Definition chainId_truthy (o : option string) : bool :=
  match o with
  | Some s => string_truthy s
  | None => false
  end.

Definition is_Some' {A} (o : option A) : bool := negb (is_None' o).

(** *** [transact]

    [transact] is one body in the source.  It is written here as its three
    consecutive parts, so that the theorems can speak about where it stands
    when it throws or returns. *)

(** Everything before the test of [hasRequiredTaposFields]: the guard on the
    two knobs, the chain id, the optional [generateTapos]. *)
Definition resolveTapos (transaction : Transaction) (config : TransactConfig) : M Transaction :=
  let blocksBehind := blocksBehind config in
  let useLastIrreversible := useLastIrreversible config in
  let expireSeconds := expireSeconds config in
  if is_Some' blocksBehind && flag useLastIrreversible then throw useEither
  else
    cached ← gets chainId;
    info ← (if negb (chainId_truthy cached)
            then info ← call Call_get_info get_info;
                 modify (set_chainId (chain_id info));;
                 mret (Some info)
            else mret None);
    if (is_Some' blocksBehind || flag useLastIrreversible) && number_truthy expireSeconds
    then generateTapos info transaction blocksBehind useLastIrreversible
           (default 0 expireSeconds)
    else mret transaction.

(** From the test of [hasRequiredTaposFields] to the push arguments that
    [transact] holds when it reaches [if (broadcast)]. *)
Definition assemble (transaction : Transaction) (config : TransactConfig)
    : M PushTransactionArgs :=
  let sign := default true (sign config) in
  let compression := cfg_compression config in
  if negb (hasRequiredTaposFields transaction) then throw taposMissing
  else
    abis ← getTransactionAbis transaction false;
    cfa ← serializeActions (default [] (context_free_actions transaction));
    acts ← serializeActions (tx_actions transaction);
    let transaction :=
      mkTransaction (props transaction) (Some cfa) acts (context_free_data transaction) in
    serializedTransaction ← lift (serializeTransaction transaction);
    let serializedContextFreeData :=
      serializeContextFreeData (context_free_data transaction) in
    let pushTransactionArgs :=
      mkPushArgs [] (if flag compression then Some 1 else None)
        serializedTransaction serializedContextFreeData in
    if sign
    then
      requiredKeys ←
        match requiredKeys config with
        | Some keys => mret keys
        | None =>
            availableKeys ← call Call_getAvailableKeys getAvailableKeys;
            call (Call_getRequiredKeys transaction availableKeys)
                 (λ l, getRequiredKeys l transaction availableKeys)
        end;
      chainId ← gets chainId;
      let a := mkSignArgs chainId requiredKeys serializedTransaction
                 serializedContextFreeData abis in
      call (Call_sign a) (λ l, signatureProvider_sign l a)
    else mret pushTransactionArgs.

(** Create and optionally broadcast a transaction. *)
Definition transact (transaction : Transaction) (config : TransactConfig) : M TransactOutcome :=
  let broadcast := default true (broadcast config) in
  transaction ← resolveTapos transaction config;
  pushTransactionArgs ← assemble transaction config;
  if broadcast
  then
    result ← call (Call_send_transaction pushTransactionArgs)
                  (λ l, send_transaction l pushTransactionArgs);
    mret (Response (decodeTraces result))
  else mret (Unsent pushTransactionArgs).

(** ** Vocabulary of the properties *)

(** The two errors that [transact] raises about its configuration. *)
Definition isConfigurationError (e : JsError) : Prop :=
  e = useEither ∨ e = taposMissing.

Definition isFetchOf (accountName : string) (c : Call) : bool :=
  match c with
  | Call_getRawAbi a => bool_decide (a = accountName)
  | _ => false
  end.

(** How many times the ABI provider was asked for [accountName]. *)
Definition fetches (accountName : string) (l : list Call) : nat :=
  length (List.filter (isFetchOf accountName) l).

End Api.

(** A byte array behind its length, as the specification words it
    ("length-prefixed"). *)
Definition lengthPrefixed (blob : list Z) : list Z :=
  varuint32 (Z.of_nat (length blob)) ++ blob.

(** The format that the specification gives for context-free data: the
    number of blobs, then each blob behind its length. *)
Definition contextFreeDataFormat (blobs : list (list Z)) : list Z :=
  varuint32 (Z.of_nat (length blobs)) ++ concat (map lengthPrefixed blobs).

(** ** A concrete node and serializer

    Small collaborators on which the methods run to a value.  They are used
    to evaluate the theorems at concrete inputs. *)
Module Demo.

(** Text as the codes of its characters. *)
Definition encode (s : string) : list Z :=
  map (λ a, Z.of_N (Ascii.N_of_ascii a)) (String.list_ascii_of_string s).

Definition decode (bs : list Z) : string :=
  String.string_of_list_ascii (map (λ b, Ascii.ascii_of_N (Z.to_N b)) bs).

(** An ABI body is kept as its bytes; every contract has one action. *)
#[export] Instance serializer : @Serializer (list Z) unit string string Z Z := {|
  textEncode := encode;
  textDecode := decode;
  supportedPrefixes := ["eosio::abi/1."];
  abi_body_deserialize := λ bs, Ok bs;
  abi_body_serialize := λ b, Ok b;
  abi_actions := λ _, [("transfer", "transfer")];
  getTypesFromAbi := λ _, Ok tt;
  getType := λ _ t, Ok t;
  serializeAction := λ _ account name authorization _,
    Ok (mkAction account name authorization (Hex "00"));
  transaction_serialize := λ _, Ok [1; 2; 3];
  hexToUint8Array := λ p,
    match p with
    | Hex s => Ok (encode s)
    | Structured _ => Throw (Error "Expected string containing hex digits")
    end;
  transactionHeader := λ _ _,
    <["expiration" := VStr "2026-01-01T00:00:30.000"]>
      (<["ref_block_num" := VNum (NumInt 97)]>
         (<["ref_block_prefix" := VNum (NumInt 12345)]> ∅)) |}.

Definition tokenAbi : list Z :=
  asUint8Array (pushArray [0; 0] (pushString "eosio::abi/1.1" (newBuffer []))).

Definition oldAbi : list Z :=
  asUint8Array (pushArray [0] (pushString "eosio::abi/0.9" (newBuffer []))).

(** A WASM ABI whose decode hooks both throw. *)
Definition brokenWasmAbi : @WasmAbi string :=
  mkWasmAbi (λ _ _, Throw (Error "wasm trap")) (λ _ _, Throw (Error "wasm trap")).

Definition hexTrace : @ActionTrace string :=
  mkTrace (Some (mkTraceAct "wasmacct" "sum" (Some (Hex "0a0b")))) (Some (Hex "15")) "wasmacct".

Definition nodeResponse : @TransactResult string :=
  mkResult "f00d" (Some (mkProcessed (Some [hexTrace]) 101)).

(** A node at head block 100 with block 97 irreversible.  It has no header
    state to offer, knows every account but [nobody], and the signature
    provider answers with signatures and the two serialized parts. *)
#[export] Instance node : @Providers string Z Z := {|
  get_info := λ _, Ok (mkInfo "cf057bbf" 100 97);
  get_block := λ _ n,
    match n with
    | NumInt z => Ok z
    | NumNaN => Throw (Error "Invalid block number")
    end;
  get_block_header_state := λ _ _, Throw (Error "Could not find block");
  getRawAbi := λ _ accountName,
    if String.eqb accountName "nobody" then Throw (Error "unknown key")
    else if String.eqb accountName "legacy" then Ok (mkRawAbiResult accountName oldAbi)
    else Ok (mkRawAbiResult accountName tokenAbi);
  getAvailableKeys := λ _, Ok ["PUB_K1_demo"];
  getRequiredKeys := λ _ _ availableKeys, Ok availableKeys;
  signatureProvider_sign := λ _ a,
    Ok (mkPushArgs ["SIG_K1_demo"] None (spa_serializedTransaction a)
          (spa_serializedContextFreeData a));
  send_transaction := λ _ _, Ok nodeResponse;
  wasmAbiProvider := Some {["wasmacct" := brokenWasmAbi]} |}.


Definition fresh : @World (list Z) unit string string :=
  mkWorld None ∅ ∅ [].

Definition known : @World (list Z) unit string string :=
  mkWorld (Some "cf057bbf") ∅ ∅ [].

Definition transfer : @Action string :=
  mkAction "eosio.token" "transfer" [mkAuthorization "bob" "active"]
    (Structured "bob to alice").

(** A transaction without TAPOS fields, and one that carries them. *)
Definition bare : @Transaction string := mkTransaction ∅ None [transfer] None.

Definition complete : @Transaction string :=
  mkTransaction
    (<["expiration" := VStr "2026-01-01T00:00:10.000"]>
       (<["ref_block_num" := VNum (NumInt 0)]>
          (<["ref_block_prefix" := VNum (NumInt 0)]> ∅)))
    None [transfer] None.

(** A transaction whose [expiration] is present and empty. *)
Definition unexpiring : @Transaction string :=
  mkTransaction
    (<["expiration" := VStr ""]>
       (<["ref_block_num" := VNum (NumInt 0)]>
          (<["ref_block_prefix" := VNum (NumInt 0)]> ∅)))
    None [transfer] None.

(** A transaction whose reference block number is a numeric string. *)
Definition stringly : @Transaction string :=
  mkTransaction
    (<["expiration" := VStr "2026-01-01T00:00:10.000"]>
       (<["ref_block_num" := VStr "7"]>
          (<["ref_block_prefix" := VNum (NumInt 0)]> ∅)))
    None [transfer] None.

(** The default config, and variations of it. *)
Definition config0 : TransactConfig :=
  mkConfig None None None None None None None.

Definition bothKnobs : TransactConfig :=
  mkConfig None None None None (Some 3) (Some true) (Some 30).

Definition signedCompressed : TransactConfig :=
  mkConfig (Some false) (Some true) None (Some true) None None None.

Definition unsignedCompressed : TransactConfig :=
  mkConfig (Some false) (Some false) None (Some true) None None None.

Definition broadcastCompressed : TransactConfig :=
  mkConfig (Some true) (Some true) None (Some true) None None None.

Definition info0 : GetInfoResult := mkInfo "cf057bbf" 100 97.

End Demo.

(** * More of [Api]

    The methods that the properties above did not need, and the vocabulary
    for what a method does to the state. *)

Section ApiMore.

Context {AbiBody Types SerType Json GetBlockResult GetBlockHeaderStateResult : Type}.
Context {ser : @Serializer AbiBody Types SerType Json GetBlockResult GetBlockHeaderStateResult}.
Context {providers : @Providers Json GetBlockResult GetBlockHeaderStateResult}.

#[local] Existing Instances M_ret M_bind.

(** Further collaborators, none of them among the sources at hand:
    [ser.deserializeAction], [ser.serializeQuery] and [ser.arrayToHex] of
    the serializer, [deflate] of pako, and [rpc.push_transaction]. *)
Context {Query PushResult : Type}.
Context (deserializeAction :
           @Contract Types SerType → string → string → list Authorization →
           @Payload Json → result (@Action Json)).
Context (serializeQuery : Query → result (list Z)).
Context (arrayToHex : list Z → string).
Context (deflate : list Z → list Z).
Context (push_transaction : PushTransactionArgs → result PushResult).

#[local] Abbreviation Transaction := (@Transaction Json).
#[local] Abbreviation World := (@World AbiBody Types SerType Json).
#[local] Abbreviation Call := (@Call Json).
#[local] Abbreviation Action := (@Action Json).
#[local] Abbreviation AbiPending := (@AbiPending AbiBody).

(** Convert actions from hex. *)
Definition deserializeActions (actions : list Action) : M (list Action) :=
  Promise_all convert_start (convert_resume deserializeAction) actions.

(** Deflate a serialized object. *)
Definition deflateSerializedArray (serializedArray : list Z) : list Z :=
  deflate serializedArray.

(** Broadcast a signed transaction.  The argument is destructured: only the
    three fields named are passed on. *)
Definition pushSignedTransaction (a : PushTransactionArgs) : result PushResult :=
  push_transaction
    (mkPushArgs (signatures a) None (serializedTransaction a) (serializedContextFreeData a)).

Definition pushCompressedSignedTransaction (a : PushTransactionArgs) : result PushResult :=
  let compressedSerializedTransaction := deflateSerializedArray (serializedTransaction a) in
  let compressedSerializedContextFreeData :=
    deflateSerializedArray (default [] (serializedContextFreeData a)) in
  push_transaction
    (mkPushArgs (signatures a) (Some 1) compressedSerializedTransaction
       (Some compressedSerializedContextFreeData)).

(** *** [query]

    [query] builds and signs a transaction with one action, posts it with
    [rpc.fetchBuiltin] and decodes the answer.  The part before the post is
    modelled: it ends with the body that is posted. *)
Record QueryConfig := mkQueryConfig {
  q_sign : option bool;
  q_requiredKeys : option (list string);
  q_authorization : option (list Authorization) }.

Record QueryBody := mkQueryBody {
  qb_signatures : list string;
  qb_compression : Z;
  packed_context_free_data : string;
  packed_trx : string }.

Definition queryTransaction (refBlock : GetBlockResult) (account : string)
    (authorization : list Authorization) (queryBytes : list Z) : Transaction :=
  mkTransaction (transactionHeader (FullBlock refBlock) (60 * 30)) (Some [])
    [mkAction account "queryit" authorization (Hex (arrayToHex queryBytes))] None.

Definition queryRequest (account : string) (query : Query) (config : QueryConfig)
    : M QueryBody :=
  let authorization := default [] (q_authorization config) in
  info ← call Call_get_info get_info;
  let n := NumInt (last_irreversible_block_num info) in
  refBlock ← call (Call_get_block n) (λ l, get_block l n);
  queryBytes ← lift (serializeQuery query);
  let transaction := queryTransaction refBlock account authorization queryBytes in
  abis ← getTransactionAbis transaction false;
  serializedTransaction ← lift (serializeTransaction transaction);
  signatures ←
    (if flag (q_sign config)
     then
       requiredKeys ←
         match q_requiredKeys config with
         | Some keys => mret keys
         | None =>
             availableKeys ← call Call_getAvailableKeys getAvailableKeys;
             call (Call_getRequiredKeys transaction availableKeys)
                  (λ l, getRequiredKeys l transaction availableKeys)
         end;
       chainId ← gets chainId;
       let a := mkSignArgs chainId requiredKeys serializedTransaction None abis in
       signResponse ← call (Call_sign a) (λ l, signatureProvider_sign l a);
       mret (signatures signResponse)
     else mret []);
  mret (mkQueryBody signatures 0 "" (arrayToHex serializedTransaction)).

(** ** Vocabulary: what a method does to the state *)

(** The type that the last entry of [abi.actions] with the given name
    declares for it. *)
Fixpoint lastType (name : string) (l : list (string * string)) : option string :=
  match l with
  | [] => None
  | (n, type) :: l' =>
      match lastType name l' with
      | Some type' => Some type'
      | None => if String.eqb n name then Some type else None
      end
  end.

(** The accounts of the actions of a transaction, context-free ones first. *)
Definition txAccounts (transaction : Transaction) : list string :=
  map account (default [] (context_free_actions transaction) ++ tx_actions transaction).

(** The remote calls by the stage of [transact] that makes them. *)
Definition isTaposCall (c : Call) : bool :=
  match c with
  | Call_get_info | Call_get_block _ | Call_get_block_header_state _ => true
  | _ => false
  end.

Definition isKeyCall (c : Call) : bool :=
  match c with
  | Call_getAvailableKeys | Call_getRequiredKeys _ _ => true
  | _ => false
  end.

Definition isSignCall (c : Call) : bool :=
  match c with
  | Call_sign _ => true
  | _ => false
  end.

Definition isSendCall (c : Call) : bool :=
  match c with
  | Call_send_transaction _ => true
  | _ => false
  end.

Definition isInfoCall (c : Call) : bool :=
  match c with
  | Call_get_info => true
  | _ => false
  end.

(** Every stored ABI is the decoding of the bytes stored with it. *)
Definition coherent (w : World) : Prop :=
  ∀ a c, cachedAbis w !! a = Some c → rawAbiToJson (rawAbi c) = Ok (abi c).

(** From [w] to [w']: calls in [P] were logged, entries were added to the
    two caches and none was changed, the chain id is the same, and a
    coherent ABI cache stayed coherent. *)
Definition moves (P : Call → Prop) (w w' : World) : Prop :=
  (∃ l, calls w' = calls w ++ l ∧ Forall P l)
  ∧ cachedAbis w ⊆ cachedAbis w'
  ∧ contracts w ⊆ contracts w'
  ∧ chainId w' = chainId w
  ∧ (coherent w → coherent w').

(** A fetch of the ABI of one of the accounts [l], none of them WASM. *)
Definition fetchesAmong (l : list string) (c : Call) : Prop :=
  ∃ a, c = Call_getRawAbi a ∧ a ∈ l ∧ wasmAbiOf a = None.

(** The calls that [query] may make after it has fetched its reference
    block: the ABI of the queried account, the key lookups, and a [sign]
    whose request carries the chain id [chain] and no context-free data. *)
Definition queryCall (account : string) (chain : option string) (c : Call) : Prop :=
  match c with
  | Call_getRawAbi a => a = account
  | Call_getAvailableKeys | Call_getRequiredKeys _ _ => True
  | Call_sign a => spa_chainId a = chain ∧ spa_serializedContextFreeData a = None
  | Call_get_info | Call_get_block _ | Call_get_block_header_state _
  | Call_send_transaction _ => False
  end.

(** The accounts for which [getTransactionAbis] runs a task: the accounts
    of the transaction without the WASM ones, each once, in the order of
    their first appearance. *)
Definition abiAccounts (transaction : Transaction) : list string :=
  List.filter (λ a, is_None' (wasmAbiOf a)) (uniqueFrom [] (txAccounts transaction)).

(** Those of the accounts [xs] that have no entry in the ABI cache. *)
Definition uncached (w : World) (xs : list string) : list string :=
  List.filter (λ a, is_None' (cachedAbis w !! a)) xs.

(** What the answer to a fetch makes of the cache entry: the bytes of the
    answer with their decoding. *)
Definition fetchedAbi (answer : result GetRawAbiResult) : result CachedAbi :=
  match answer with
  | Ok r =>
      match rawAbiToJson (gra_abi r) with
      | Ok abi => Ok (mkCachedAbi (gra_abi r) abi)
      | Throw e => Throw e
      end
  | Throw e => Throw e
  end.

(** A task of [getCachedAbi] that waits for a fetch was started, in state
    [w], with nothing cached for its account. *)
Definition abiMiss (w : World) (a : string) (p : AbiPending) : Prop :=
  ∀ answer, p = RawAbiAnswer answer → cachedAbis w !! a = None.

(** The task of an action that waits for an ABI was started, in state
    [w], with no contract cached for the account. *)
Definition convertMiss (w : World) (action : Action)
    (p : option (@ContractPending AbiBody Types SerType)) : Prop :=
  ∀ q, p = Some (AwaitsAbi q) →
       contracts w !! account action = None ∧ abiMiss w (account action) q.

(** The contract that [getContract] builds from an ABI. *)
Definition contractOf (abi : Abi) : result (@Contract Types SerType) :=
  match getTypesFromAbi abi with
  | Ok types =>
      match actionTypes types (abi_actions (body abi)) ∅ with
      | Ok actions => Ok (mkContract types actions)
      | Throw e => Throw e
      end
  | Throw e => Throw e
  end.

(** The task of an action asks the ABI provider when the account is no WASM
    account and neither of the two caches has an entry for it. *)
Definition asksAbi (w : World) (action : Action) : bool :=
  is_None' (wasmAbiOf (account action))
  && is_None' (contracts w !! account action)
  && is_None' (cachedAbis w !! account action).

(** The fetches that the tasks of [actions] start when [serializeActions]
    or [deserializeActions] is called in state [w]. *)
Definition asked (w : World) (actions : list Action) : list Call :=
  map (λ action, Call_getRawAbi (account action)) (List.filter (asksAbi w) actions).

(** The state [w] with the calls [l] logged after those it has. *)
Definition logged (l : list Call) (w : World) : World :=
  mkWorld (chainId w) (cachedAbis w) (contracts w) (calls w ++ l).

(** One action against its converted form, the tasks of the actions
    [before] it having been started in state [w]: the same action for a
    WASM account; else what the codec [f] makes of it with the contract
    that [getContract] resolves to in that state, which is the state [w]
    with the fetches of the earlier tasks logged. *)
Definition convertedAt
    (f : @Contract Types SerType → string → string → list Authorization →
         @Payload Json → result Action)
    (w : World) (before : list Action) (action action' : Action) : Prop :=
  match wasmAbiOf (account action) with
  | Some _ => action' = action
  | None =>
      ∃ contract,
        (getContract (account action) false (logged (asked w before) w)).1 = Ok contract
        ∧ f contract (account action) (name action) (authorization action)
            (data action) = Ok action'
  end.

End ApiMore.

(** ** More concrete collaborators *)
Module Demo2.

Import Demo.

(** A transaction with a WASM account among its actions, and an account
    that appears twice. *)
Definition wasmAction : @Action string :=
  mkAction "wasmacct" "sum" [mkAuthorization "bob" "active"] (Structured "1 + 2").

Definition transferBack : @Action string :=
  mkAction "eosio.token" "transfer" [mkAuthorization "alice" "active"]
    (Structured "alice to bob").

Definition mixed : @Transaction string :=
  mkTransaction
    (<["expiration" := VStr "2026-01-01T00:00:10.000"]>
       (<["ref_block_num" := VNum (NumInt 0)]>
          (<["ref_block_prefix" := VNum (NumInt 0)]> ∅)))
    (Some [transfer]) [wasmAction; transferBack] None.

(** A transaction with an account that the ABI provider does not know
    before one that it knows. *)
Definition unknownAction : @Action string :=
  mkAction "nobody" "transfer" [mkAuthorization "bob" "active"] (Structured "bob to bob").

Definition partlyUnknown : @Transaction string :=
  mkTransaction
    (<["expiration" := VStr "2026-01-01T00:00:10.000"]>
       (<["ref_block_num" := VNum (NumInt 0)]>
          (<["ref_block_prefix" := VNum (NumInt 0)]> ∅)))
    None [unknownAction; transfer] None.

Definition unsignedUnsent : TransactConfig :=
  mkConfig (Some false) (Some false) None (Some true) None None None.

Definition queryConfigSigned : QueryConfig := mkQueryConfig (Some true) None None.

(** Hex as the text of the codes, for the examples only. *)
Definition toHex (bs : list Z) : string := decode bs.

(** A query is its text. *)
Definition queryBytes (q : string) : result (list Z) := Ok (encode q).

(** The serializer of [Demo], except that it knows no type by name. *)
Definition picky : @Serializer (list Z) unit string string Z Z := {|
  textEncode := textEncode;
  textDecode := textDecode;
  supportedPrefixes := supportedPrefixes;
  abi_body_deserialize := abi_body_deserialize;
  abi_body_serialize := abi_body_serialize;
  abi_actions := abi_actions;
  getTypesFromAbi := getTypesFromAbi;
  getType := λ _ type, Throw (Error ("Unknown type: " +:+ type));
  serializeAction := serializeAction;
  transaction_serialize := transaction_serialize;
  hexToUint8Array := hexToUint8Array;
  transactionHeader := transactionHeader |}.

(** A response whose only trace belongs to an account without WASM ABI. *)
Definition plainTrace : @ActionTrace string :=
  mkTrace (Some (mkTraceAct "eosio.token" "transfer" (Some (Hex "0a0b")))) None
    "eosio.token".

Definition plainResponse : @TransactResult string :=
  mkResult "beef" (Some (mkProcessed (Some [plainTrace]) 102)).

Definition signedArgs : PushTransactionArgs :=
  mkPushArgs ["SIG_K1_demo"] (Some 1) [1; 2; 3] None.

End Demo2.

(** * Properties *)

(** ** Varints and length-prefixed bytes *)

Lemma leb128_step (v : Z) :
  leb128 v = if Z_lt_dec v 128 then [v mod 256] else (128 + v mod 128) :: leb128 (v / 128).
Proof. rewrite leb128_equation_1. destruct (Z_lt_dec v 128); reflexivity. Qed.

Lemma leb128_nonempty (v : Z) : leb128 v ≠ [].
Proof. rewrite leb128_step. destruct (Z_lt_dec v 128); discriminate. Qed.

(** The low seven bits and the continuation bit of a byte. *)
Lemma land_127 (r : Z) : Z.land r 127 = r mod 128.
Proof. change 127 with (Z.ones 7). rewrite Z.land_ones by lia. reflexivity. Qed.

Lemma low_byte_stops (r : Z) : 0 <= r < 128 → Z.land r 128 = 0.
Proof.
  intros H. rewrite <- (Z.mod_small r 128) by lia. rewrite <- land_127.
  rewrite <- Z.land_assoc. apply Z.land_0_r.
Qed.

Lemma high_byte_continues (r : Z) : 0 <= r < 128 → Z.land (128 + r) 128 = 128.
Proof.
  intros H. rewrite Z.add_nocarry_lor
    by (rewrite Z.land_comm; apply low_byte_stops; exact H).
  rewrite Z.land_lor_distr_l, (low_byte_stops r H). reflexivity.
Qed.

(** Reading back a varint that was just written, whatever follows it. *)
Lemma readVarint_leb128 (v : Z) (rest : list Z) :
  0 <= v → readVarint (leb128 v ++ rest) = Some (v, length (leb128 v)).
Proof.
  intros Hv. revert rest. generalize Hv. pattern v.
  apply Z_lt_induction; [|exact Hv].
  clear v Hv. intros v IH Hv rest.
  rewrite leb128_step. destruct (Z_lt_dec v 128) as [Hsmall|Hbig]; simpl.
  - rewrite (Z.mod_small v 256) by lia.
    rewrite (low_byte_stops v) by lia. simpl.
    rewrite land_127, Z.mod_small by lia. reflexivity.
  - assert (Hr : 0 <= v mod 128 < 128) by (apply Z.mod_pos_bound; lia).
    rewrite (high_byte_continues _ Hr). simpl.
    assert (Hq : 0 <= v / 128 < v)
      by (split; [apply Z.div_pos; lia | apply Z.div_lt; lia]).
    rewrite (IH _ Hq) by lia.
    rewrite land_127.
    replace ((128 + v mod 128) mod 128) with (v mod 128)
      by (apply (Z.mod_unique _ _ 1); lia).
    f_equal. f_equal. pose proof (Z.div_mod v 128). lia.
Qed.

Lemma getBytes_lengthPrefixed (bs rest : list Z) :
  Z.of_nat (length bs) < 2 ^ 32 →
  getBytes (newBuffer (lengthPrefixed bs ++ rest)) =
    Ok (bs, mkBuffer (lengthPrefixed bs ++ rest) (length (lengthPrefixed bs))).
Proof.
  intros Hlen. unfold getBytes, getVaruint32, newBuffer, lengthPrefixed, varuint32, uint32.
  simpl. rewrite (Z.mod_small (Z.of_nat (length bs))) by lia.
  rewrite drop_0, <- app_assoc, readVarint_leb128 by lia. simpl.
  rewrite (Z.mod_small (Z.of_nat (length bs))) by lia.
  unfold getUint8Array. simpl. rewrite Nat2Z.id.
  rewrite decide_True by (rewrite !length_app; lia).
  rewrite drop_app_length, take_app_length, length_app. reflexivity.
Qed.

Lemma pushAll_array (l : list (list Z)) (b : SerialBuffer) :
  array (pushAll l b) = array b ++ concat (map lengthPrefixed l).
Proof.
  revert b. induction l as [|data l IH]; intros b; simpl.
  - rewrite app_nil_r. reflexivity.
  - rewrite IH. unfold pushBytes, pushVaruint32, pushArray, lengthPrefixed. simpl.
    rewrite <- !app_assoc. reflexivity.
Qed.

(** C8. [serializeContextFreeData] answers [null] when its argument is
    missing or is the empty list, and only then.  For a list with at least
    one blob it answers a buffer: the number of blobs as a varuint32, then
    each blob behind its own varuint32 length.  That buffer is never empty,
    also when every blob is: "no data" and "a block of zero length" differ. *)
Theorem serializeContextFreeData_format :
  serializeContextFreeData None = None
  ∧ serializeContextFreeData (Some []) = None
  ∧ (∀ blob blobs,
       serializeContextFreeData (Some (blob :: blobs))
         = Some (contextFreeDataFormat (blob :: blobs))
       ∧ contextFreeDataFormat (blob :: blobs) ≠ [])
  ∧ (∀ contextFreeData,
       serializeContextFreeData contextFreeData = None ↔
       contextFreeData = None ∨ contextFreeData = Some [])
  ∧ serializeContextFreeData (Some [[]]) = Some [1; 0].
Proof.
  assert (Hcons : ∀ blob blobs,
            serializeContextFreeData (Some (blob :: blobs))
              = Some (contextFreeDataFormat (blob :: blobs))).
  { intros blob blobs. unfold serializeContextFreeData, asUint8Array, contextFreeDataFormat.
    rewrite pushAll_array. reflexivity. }
  split; [reflexivity|]. split; [reflexivity|]. split; [|split].
  - intros blob blobs. split; [apply Hcons|].
    unfold contextFreeDataFormat, varuint32. intros H.
    apply app_eq_nil in H as [H _]. exact (leb128_nonempty _ H).
  - intros [[|blob blobs]|]; split; intros H; auto.
    + rewrite Hcons in H. discriminate.
    + destruct H as [H|H]; discriminate.
  - reflexivity.
Qed.

Section Properties.

Context {AbiBody Types SerType Json GetBlockResult GetBlockHeaderStateResult : Type}.
Context {ser : @Serializer AbiBody Types SerType Json GetBlockResult GetBlockHeaderStateResult}.
Context {providers : @Providers Json GetBlockResult GetBlockHeaderStateResult}.

#[local] Abbreviation World := (@World AbiBody Types SerType Json).
#[local] Abbreviation Transaction := (@Transaction Json).
#[local] Existing Instances M_ret M_bind.

(** Unfolds the operations of the monad. *)
Ltac run := unfold mbind, M_bind, mret, M_ret, gets, modify, throw, lift, call, try_catch; simpl.

(** ** [transact] before the TAPOS check *)


(** What [resolveTapos] hands on is the caller's transaction, possibly
    spread over a header: the caller's own properties are all still there. *)
Lemma resolveTapos_props (transaction tx' : Transaction) (config : TransactConfig)
    (w w1 : World) :
  resolveTapos transaction config w = (Ok tx', w1) →
  ∃ header, props tx' = props transaction ∪ header.
Proof.
  unfold resolveTapos.
  destruct (is_Some' (blocksBehind config) && flag (useLastIrreversible config));
    [discriminate|].
  run. intros H.
  assert (Hgen : ∀ info w0, generateTapos info transaction (blocksBehind config)
            (useLastIrreversible config) (default 0 (expireSeconds config)) w0 = (Ok tx', w1) →
          ∃ header, props tx' = props transaction ∪ header).
  { clear H. intros info w0. unfold generateTapos, tryGetBlockHeaderState. run.
    intros H.
    repeat match type of H with
           | context [match ?x with _ => _ end] => destruct x; simpl in H
           | context [if ?c then _ else _] => destruct c; simpl in H
           end;
      try discriminate; injection H as <- _; eexists; reflexivity. }
  destruct ((is_Some' (blocksBehind config) || flag (useLastIrreversible config))
            && number_truthy (expireSeconds config)).
  - destruct (negb (chainId_truthy (chainId w))); simpl in H.
    + destruct (get_info (calls w)); simpl in H; [|discriminate]. eauto.
    + eauto.
  - exists ∅. rewrite (right_id_L ∅ (∪)).
    destruct (negb (chainId_truthy (chainId w))); simpl in H.
    + destruct (get_info (calls w)); simpl in H; [|discriminate]. congruence.
    + congruence.
Qed.

Lemma transact_resolveTapos_throws (transaction : Transaction) (config : TransactConfig)
    (w w1 : World) (e : JsError) :
  resolveTapos transaction config w = (Throw e, w1) →
  transact transaction config w = (Throw e, w1).
Proof. intros H. unfold transact. run. rewrite H. reflexivity. Qed.

Lemma transact_incomplete (transaction tx' : Transaction) (config : TransactConfig)
    (w w1 : World) :
  resolveTapos transaction config w = (Ok tx', w1) →
  hasRequiredTaposFields tx' = false →
  transact transaction config w = (Throw taposMissing, w1).
Proof.
  intros H Hf. unfold transact. run. rewrite H. unfold assemble. rewrite Hf. reflexivity.
Qed.

(** C2. A config that gives a numeric [blocksBehind] together with
    [useLastIrreversible = true] makes [transact] throw the configuration
    error [Use either blocksBehind or useLastIrreversible]; the state after
    the call is the state before it, so the log of remote calls has not
    grown: no node info, no block or header state, no ABI was asked for. *)
Theorem transact_rejects_both_knobs (transaction : Transaction) (config : TransactConfig)
    (w : World) (n : Z) :
  blocksBehind config = Some n →
  useLastIrreversible config = Some true →
  transact transaction config w = (Throw useEither, w)
  ∧ isConfigurationError useEither.
Proof.
  intros Hb Hu. split; [|left; reflexivity].
  apply transact_resolveTapos_throws. unfold resolveTapos. rewrite Hb, Hu. reflexivity.
Qed.


(** C10. The completeness check accepts a transaction exactly when its
    [expiration] is truthy and its [ref_block_num] and [ref_block_prefix]
    have type [number].  So the number 0 passes for both, a string (a
    numeric one too) does not, and an [expiration] that is present but is
    the empty string fails the check: [transact] then throws, and it throws
    [Required configuration or TAPOS fields are not present] whenever it
    gets as far as the check. *)
Theorem tapos_completeness_check (transaction : Transaction) (config : TransactConfig)
    (w : World) :
  (hasRequiredTaposFields transaction = true ↔
     truthy (prop transaction "expiration") = true
     ∧ typeof (prop transaction "ref_block_num") = TyNumber
     ∧ typeof (prop transaction "ref_block_prefix") = TyNumber)
  ∧ (∀ expiration,
       truthy expiration = true →
       props transaction !! "expiration" = Some expiration →
       props transaction !! "ref_block_num" = Some (VNum (NumInt 0)) →
       props transaction !! "ref_block_prefix" = Some (VNum (NumInt 0)) →
       hasRequiredTaposFields transaction = true)
  ∧ (∀ s,
       props transaction !! "ref_block_num" = Some (VStr s)
       ∨ props transaction !! "ref_block_prefix" = Some (VStr s) →
       hasRequiredTaposFields transaction = false)
  ∧ (props transaction !! "expiration" = Some (VStr "") →
     hasRequiredTaposFields transaction = false
     ∧ ∃ e w1,
         transact transaction config w = (Throw e, w1)
         ∧ ∀ tx' w', resolveTapos transaction config w = (Ok tx', w') →
                     e = taposMissing ∧ w1 = w').
Proof.
  assert (Hiff : ∀ tx : Transaction, hasRequiredTaposFields tx = true ↔
     truthy (prop tx "expiration") = true
     ∧ typeof (prop tx "ref_block_num") = TyNumber
     ∧ typeof (prop tx "ref_block_prefix") = TyNumber).
  { intros tx. unfold hasRequiredTaposFields, is_number.
    rewrite !andb_true_iff.
    destruct (typeof (prop tx "ref_block_num")), (typeof (prop tx "ref_block_prefix"));
      intuition congruence. }
  assert (Hempty : ∀ tx : Transaction, props tx !! "expiration" = Some (VStr "") →
                     hasRequiredTaposFields tx = false).
  { intros tx H. unfold hasRequiredTaposFields, prop. rewrite H. reflexivity. }
  split; [apply Hiff|]. split; [|split].
  - intros expiration Ht He Hn Hp. apply Hiff. unfold prop. rewrite He, Hn, Hp. auto.
  - intros s Hs. apply not_true_is_false. rewrite Hiff. unfold prop.
    destruct Hs as [-> | ->]; simpl; intros (_ & ? & ?); discriminate.
  - intros He. split; [auto|].
    destruct (resolveTapos transaction config w) as [[tx'|e] w1] eqn:Hr.
    + exists taposMissing, w1. split.
      * apply (transact_incomplete _ _ _ _ _ Hr).
        destruct (resolveTapos_props _ _ _ _ _ Hr) as [header Hh].
        apply Hempty. rewrite Hh. apply lookup_union_Some_l. exact He.
      * intros ? ? [= <- <-]. auto.
    + exists e, w1. split; [apply (transact_resolveTapos_throws _ _ _ _ _ Hr)|].
      intros ? ? [=].
Qed.

(** ** TAPOS resolution *)

(** C4. In [generateTapos], once the node info [i] is at hand (given by the
    caller, or just fetched), let [n] be the chosen block number: the last
    irreversible block number with [useLastIrreversible], else the head
    block number minus [blocksBehind].  If [n] is at or below the last
    irreversible block number, the only call made is [get_block n]: the
    header state is not asked for.  If [n] is not (it exceeds that number,
    or is no number at all), [get_block_header_state n] is called first; if
    it throws, whatever the error, [get_block n] is called next and its
    block fills the TAPOS fields. *)
Theorem generateTapos_fetches (info : option GetInfoResult) (transaction : Transaction)
    (blocksBehind : option Z) (useLastIrreversible : option bool) (expireSeconds : Z)
    (w w0 : World) (i : GetInfoResult) :
  (info = Some i ∧ w0 = w)
  ∨ (info = None ∧ get_info (calls w) = Ok i ∧ w0 = logCall Call_get_info w) →
  let n := taposBlockNumber i blocksBehind useLastIrreversible in
  let lib := last_irreversible_block_num i in
  let filled refBlock := spreadOver (transactionHeader refBlock expireSeconds) transaction in
  (flag useLastIrreversible = true → n = NumInt lib)
  ∧ (flag useLastIrreversible = false →
     ∀ behind, blocksBehind = Some behind → n = NumInt (head_block_num i - behind))
  ∧ (flag useLastIrreversible = false → blocksBehind = None → n = NumNaN)
  ∧ (∀ z, n = NumInt z → z <= lib →
       generateTapos info transaction blocksBehind useLastIrreversible expireSeconds w =
         match get_block (calls w0) n with
         | Ok b => (Ok (filled (FullBlock b)), logCall (Call_get_block n) w0)
         | Throw e => (Throw e, logCall (Call_get_block n) w0)
         end)
  ∧ ((∀ z, n = NumInt z → lib < z) →
     generateTapos info transaction blocksBehind useLastIrreversible expireSeconds w =
       let w1 := logCall (Call_get_block_header_state n) w0 in
       match get_block_header_state (calls w0) n with
       | Ok h => (Ok (filled (HeaderState h)), w1)
       | Throw _ =>
           match get_block (calls w1) n with
           | Ok b => (Ok (filled (FullBlock b)), logCall (Call_get_block n) w1)
           | Throw e => (Throw e, logCall (Call_get_block n) w1)
           end
       end).
Proof.
  intros Hinfo n lib filled.
  assert (Hstart : ∀ k : GetInfoResult → M Transaction,
            (match info with
             | Some i => mret i
             | None => call Call_get_info get_info
             end ≫= k) w = k i w0).
  { intros k. destruct Hinfo as [[-> ->] | (-> & Hi & ->)]; run; [|rewrite Hi]; reflexivity. }
  split; [|split; [|split; [|split]]].
  - intros Hf. unfold n, taposBlockNumber. rewrite Hf. reflexivity.
  - intros Hf behind ->. unfold n, taposBlockNumber. rewrite Hf. reflexivity.
  - intros Hf ->. unfold n, taposBlockNumber. rewrite Hf. reflexivity.
  - intros z Hn Hz.
    assert (Hle : num_le n (NumInt lib) = true)
      by (rewrite Hn; simpl; apply Z.leb_le; exact Hz).
    unfold generateTapos. rewrite Hstart. fold n lib. rewrite Hle. run.
    destruct (get_block (calls w0) n); reflexivity.
  - intros Hz.
    assert (Hle : num_le n (NumInt lib) = false).
    { destruct n as [z|] eqn:Hn; [|reflexivity]. simpl. apply Z.leb_gt.
      apply Hz. reflexivity. }
    unfold generateTapos. rewrite Hstart. fold n lib. rewrite Hle.
    unfold tryGetBlockHeaderState. run.
    destruct (get_block_header_state (calls w0) n); simpl; [reflexivity|].
    destruct (get_block (calls w0 ++ [Call_get_block_header_state n]) n); reflexivity.
Qed.

(** ** The ABI cache *)

Lemma getCachedAbi_hit (accountName : string) (w : World) (c : CachedAbi) :
  cachedAbis w !! accountName = Some c →
  getCachedAbi accountName false w = (Ok c, w).
Proof. intros H. unfold getCachedAbi. run. rewrite H. reflexivity. Qed.

(** What [getCachedAbi] does when it has to ask the provider. *)
Lemma getCachedAbi_fetch (accountName : string) (reload : bool) (w : World) :
  reload = true ∨ cachedAbis w !! accountName = None →
  getCachedAbi accountName reload w =
    let w1 := logCall (Call_getRawAbi accountName) w in
    match getRawAbi (calls w) accountName with
    | Ok r =>
        match rawAbiToJson (gra_abi r) with
        | Ok abi =>
            let c := mkCachedAbi (gra_abi r) abi in
            (Ok c, set_cachedAbi accountName c w1)
        | Throw e => (Throw (fetchingAbiFor accountName e), w1)
        end
    | Throw e => (Throw (fetchingAbiFor accountName e), w1)
    end.
Proof.
  intros H. unfold getCachedAbi. run.
  assert (Hm : (if reload then None else cachedAbis w !! accountName) = None)
    by (destruct H as [-> | ->]; [reflexivity | destruct reload; reflexivity]).
  rewrite Hm.
  destruct (getRawAbi (calls w) accountName) as [r|e]; simpl; [|reflexivity].
  destruct (rawAbiToJson (gra_abi r)); reflexivity.
Qed.

Lemma fetches_app (accountName : string) (l1 l2 : list (@Call Json)) :
  fetches accountName (l1 ++ l2) = (fetches accountName l1 + fetches accountName l2)%nat.
Proof. unfold fetches. rewrite List.filter_app, length_app. reflexivity. Qed.

Lemma fetches_one (accountName : string) :
  fetches accountName [@Call_getRawAbi Json accountName] = 1%nat.
Proof. unfold fetches. simpl. rewrite bool_decide_eq_true_2; reflexivity. Qed.

(** C5, amended.  For an account with no stored entry whose fetch and decode
    succeed, two successive calls without [reload] ask the provider exactly
    once: the first call logs one [getRawAbi] and stores the entry, the
    second returns that entry and leaves the state as it is.  A call with
    [reload] always asks the provider; when it succeeds the stored entry is
    the new one, made of the fresh answer alone, and the other accounts keep
    theirs.  No call ever removes a key of the cache. *)
Theorem getCachedAbi_cache (accountName : string) (w w1 : World) (c : CachedAbi) :
  cachedAbis w !! accountName = None →
  getCachedAbi accountName false w = (Ok c, w1) →
  (calls w1 = calls w ++ [Call_getRawAbi accountName]
   ∧ getCachedAbi accountName false w1 = (Ok c, w1)
   ∧ fetches accountName (calls w1) = S (fetches accountName (calls w)))
  ∧ (∀ w' : World,
       calls (getCachedAbi accountName true w').2
         = calls w' ++ [Call_getRawAbi accountName]
       ∧ ∀ c' w2, getCachedAbi accountName true w' = (Ok c', w2) →
           cachedAbis w2 = <[accountName := c']> (cachedAbis w')
           ∧ ∃ r, getRawAbi (calls w') accountName = Ok r
                  ∧ rawAbi c' = gra_abi r
                  ∧ rawAbiToJson (gra_abi r) = Ok (abi c'))
  ∧ (∀ (a : string) (reload : bool) (w' : World),
       dom (cachedAbis w') ⊆ dom (cachedAbis (getCachedAbi a reload w').2)).
Proof.
  intros Hnone Hfirst. split; [|split].
  - rewrite getCachedAbi_fetch in Hfirst by auto. simpl in Hfirst.
    destruct (getRawAbi (calls w) accountName) as [r|e]; [|discriminate].
    destruct (rawAbiToJson (gra_abi r)) as [j|e]; [|discriminate].
    injection Hfirst as <- <-. simpl. split; [reflexivity|]. split.
    + apply getCachedAbi_hit. simpl. apply lookup_insert_eq.
    + rewrite fetches_app, fetches_one. lia.
  - intros w'. rewrite getCachedAbi_fetch by auto. simpl.
    destruct (getRawAbi (calls w') accountName) as [r|e]; simpl.
    + destruct (rawAbiToJson (gra_abi r)) as [j|e] eqn:Hj; simpl.
      * split; [reflexivity|]. intros c' w2 [= <- <-]. simpl. eauto.
      * split; [reflexivity|]. discriminate.
    + split; [reflexivity|]. discriminate.
  - intros a reload w'.
    destruct (if reload then None else cachedAbis w' !! a) as [c0|] eqn:Hm.
    + destruct reload; [discriminate|]. rewrite (getCachedAbi_hit _ _ _ Hm). reflexivity.
    + rewrite getCachedAbi_fetch
        by (destruct reload; [left; reflexivity | right; exact Hm]).
      simpl. destruct (getRawAbi (calls w') a) as [r|e]; simpl; [|reflexivity].
      destruct (rawAbiToJson (gra_abi r)); simpl; [|reflexivity].
      rewrite dom_insert_L. set_solver.
Qed.

(** C6. When [getCachedAbi] asks the provider (no entry stored, or [reload])
    and the fetch throws, or the fetched bytes do not decode, the error
    thrown is the provider's or decoder's with [fetching abi for], the
    account name and a colon put before its message; the cache holds what it
    held before, an older entry of the account included. *)
Theorem getCachedAbi_failure (accountName : string) (reload : bool) (w : World)
    (e : JsError) :
  reload = true ∨ cachedAbis w !! accountName = None →
  getRawAbi (calls w) accountName = Throw e
  ∨ (∃ r, getRawAbi (calls w) accountName = Ok r ∧ rawAbiToJson (gra_abi r) = Throw e) →
  ∃ e' w1,
    getCachedAbi accountName reload w = (Throw e', w1)
    ∧ message e' = "fetching abi for " +:+ accountName +:+ ": " +:+ message e
    ∧ cachedAbis w1 = cachedAbis w
    ∧ calls w1 = calls w ++ [Call_getRawAbi accountName].
Proof.
  intros Hfetch Hfail. rewrite getCachedAbi_fetch by exact Hfetch. simpl.
  destruct Hfail as [-> | (r & -> & ->)];
    (eexists _, _; split; [reflexivity|]; simpl; auto).
Qed.

(** ** ABI codec *)

Lemma getBytes_array (b b1 : SerialBuffer) (bs : list Z) :
  getBytes b = Ok (bs, b1) → array b1 = array b.
Proof.
  unfold getBytes, getVaruint32, getUint8Array. intros H.
  destruct (readVarint (drop (readPos b) (array b))) as [[v n]|]; simpl in H; [|discriminate].
  destruct (decide _); [|discriminate]. injection H as _ <-. reflexivity.
Qed.

Lemma getString_inv (b b1 : SerialBuffer) (v : string) :
  getString b = Ok (v, b1) →
  ∃ bs, getBytes b = Ok (bs, b1) ∧ v = textDecode bs ∧ array b1 = array b.
Proof.
  unfold getString. intros H.
  destruct (getBytes b) as [[bs b2]|e] eqn:Hb; simpl in H; [|discriminate].
  injection H as <- <-. exists bs. eauto using getBytes_array.
Qed.

Lemma getString_lengthPrefixed (s : string) (rest : list Z) :
  Z.of_nat (length (textEncode s)) < 2 ^ 32 →
  getString (newBuffer (lengthPrefixed (textEncode s) ++ rest)) =
    Ok (textDecode (textEncode s),
        mkBuffer (lengthPrefixed (textEncode s) ++ rest)
          (length (lengthPrefixed (textEncode s)))).
Proof.
  intros H. unfold getString. rewrite getBytes_lengthPrefixed by exact H. reflexivity.
Qed.

Lemma rawAbiToJson_inv (raw : list Z) (jsonAbi : Abi) :
  rawAbiToJson raw = Ok jsonAbi →
  ∃ b, getString (newBuffer raw) = Ok (version jsonAbi, b)
       ∧ supportedAbiVersion (version jsonAbi) = true
       ∧ abi_body_deserialize (drop (readPos b) raw) = Ok (body jsonAbi).
Proof.
  unfold rawAbiToJson. intros H.
  destruct (getString (newBuffer raw)) as [[v b]|e] eqn:Hs; simpl in H; [|discriminate].
  destruct (supportedAbiVersion v) eqn:Hv; simpl in H; [|discriminate].
  destruct (getString_inv _ _ _ Hs) as (bs & _ & _ & Harr). simpl in Harr.
  unfold abi_def_deserialize, restartRead in H. rewrite Harr in H.
  change (mkBuffer raw 0) with (newBuffer raw) in H. rewrite Hs in H. simpl in H.
  rewrite Harr in H.
  destruct (abi_body_deserialize (drop (readPos b) raw)) as [rest|e] eqn:Hb;
    simpl in H; [|discriminate].
  injection H as <-. simpl. eauto.
Qed.

Lemma rawAbiToJson_lengthPrefixed (v : string) (bytes : list Z) (rest : AbiBody) :
  Z.of_nat (length (textEncode v)) < 2 ^ 32 →
  textDecode (textEncode v) = v →
  supportedAbiVersion v = true →
  abi_body_deserialize bytes = Ok rest →
  rawAbiToJson (lengthPrefixed (textEncode v) ++ bytes) = Ok (mkAbi v rest).
Proof.
  intros Hlen Htext Hv Hb. unfold rawAbiToJson.
  rewrite getString_lengthPrefixed by exact Hlen. simpl. rewrite Htext, Hv. simpl.
  unfold abi_def_deserialize, restartRead. simpl.
  change (mkBuffer ?a 0) with (newBuffer a).
  rewrite getString_lengthPrefixed by exact Hlen. simpl.
  rewrite drop_app_length, Hb, Htext. reflexivity.
Qed.

(** C7. Under the contract of the codecs the serializer is built from
    (decoding what was encoded from a decoded text gives that text; the bytes
    that a decoded ABI body is encoded to decode to that body), for an ABI
    whose version string encodes to fewer than 2^32 bytes: if [rawAbiToJson]
    decodes [rawAbi], then [jsonToRawAbi] encodes the result, and the new
    bytes carry the same, supported, version string and decode to the same
    structured ABI.  Bytes whose version string is not supported are
    rejected by [rawAbiToJson], and so is by [jsonToRawAbi] an ABI whose
    encoding starts with a version string that is not supported. *)
Theorem abi_round_trip (rawAbi : list Z) (jsonAbi : Abi) :
  (∀ bs, textDecode (textEncode (textDecode bs)) = textDecode bs) →
  (∀ bs rest, abi_body_deserialize bs = Ok rest →
     ∃ bs', abi_body_serialize rest = Ok bs' ∧ abi_body_deserialize bs' = Ok rest) →
  rawAbiToJson rawAbi = Ok jsonAbi →
  Z.of_nat (length (textEncode (version jsonAbi))) < 2 ^ 32 →
  (∃ rawAbi',
     jsonToRawAbi jsonAbi = Ok rawAbi'
     ∧ rawAbiToJson rawAbi' = Ok jsonAbi
     ∧ (∃ b b', getString (newBuffer rawAbi) = Ok (version jsonAbi, b)
                ∧ getString (newBuffer rawAbi') = Ok (version jsonAbi, b'))
     ∧ supportedAbiVersion (version jsonAbi) = true)
  ∧ (∀ raw v b,
       getString (newBuffer raw) = Ok (v, b) →
       supportedAbiVersion v = false →
       rawAbiToJson raw = Throw unsupportedAbiVersion)
  ∧ (∀ j buffer v b,
       abi_def_serialize (newBuffer []) j = Ok buffer →
       getString buffer = Ok (v, b) →
       supportedAbiVersion v = false →
       jsonToRawAbi j = Throw unsupportedAbiVersion).
Proof.
  intros Htext Hbody Hraw Hlen. split; [|split].
  - destruct (rawAbiToJson_inv _ _ Hraw) as (b & Hs & Hv & Hb).
    destruct (getString_inv _ _ _ Hs) as (bs & _ & Hdec & _).
    destruct (Hbody _ _ Hb) as (bs' & Hser & Hde).
    assert (Hid : textDecode (textEncode (version jsonAbi)) = version jsonAbi)
      by (rewrite Hdec; apply Htext).
    destruct jsonAbi as [v rest]. simpl in *.
    exists (lengthPrefixed (textEncode v) ++ bs').
    assert (Hnew : getString (newBuffer (lengthPrefixed (textEncode v) ++ bs'))
                   = Ok (v, mkBuffer (lengthPrefixed (textEncode v) ++ bs')
                              (length (lengthPrefixed (textEncode v)))))
      by (rewrite getString_lengthPrefixed by exact Hlen; rewrite Hid; reflexivity).
    split; [|split; [|split]].
    + unfold jsonToRawAbi, abi_def_serialize. simpl. rewrite Hser. simpl.
      change (pushArray bs' (pushString v (newBuffer [])))
        with (newBuffer (lengthPrefixed (textEncode v) ++ bs')).
      rewrite Hnew. simpl. rewrite Hv. reflexivity.
    + apply rawAbiToJson_lengthPrefixed; assumption.
    + eauto.
    + exact Hv.
  - intros raw v b Hs Hv. unfold rawAbiToJson. rewrite Hs. simpl. rewrite Hv. reflexivity.
  - intros j buffer v b Hser Hs Hv. unfold jsonToRawAbi. rewrite Hser. simpl.
    rewrite Hs. simpl. rewrite Hv. reflexivity.
Qed.

(** ** Signing *)

(** When signing is asked for, the push arguments that [transact] goes on
    with are the answer of the signature provider, as it is: the last call
    logged is [sign], and nothing of the arguments built before it is kept. *)
Lemma assemble_signed (transaction : Transaction) (config : TransactConfig)
    (w w1 : World) (a : PushTransactionArgs) :
  default true (sign config) = true →
  assemble transaction config w = (Ok a, w1) →
  ∃ l request, calls w1 = l ++ [Call_sign request]
               ∧ signatureProvider_sign l request = Ok a.
Proof.
  intros Hsign. unfold assemble. rewrite Hsign.
  destruct (negb (hasRequiredTaposFields transaction)); [discriminate|].
  run. intros H.
  destruct (getTransactionAbis transaction false w) as [[abis|?] wa];
    simpl in H; [|discriminate].
  destruct (serializeActions _ wa) as [[cfa|?] wb]; simpl in H; [|discriminate].
  destruct (serializeActions _ wb) as [[acts|?] wc]; simpl in H; [|discriminate].
  destruct (serializeTransaction _) as [st|?]; simpl in H; [|discriminate].
  destruct (requiredKeys config) as [keys|]; simpl in H.
  - destruct (signatureProvider_sign _ _) as [a'|?] eqn:Hs; [|discriminate].
    injection H as <- <-. simpl. eauto.
  - destruct (getAvailableKeys _) as [available|?]; simpl in H; [|discriminate].
    destruct (getRequiredKeys _ _ _) as [keys|?]; simpl in H; [|discriminate].
    destruct (signatureProvider_sign _ _) as [a'|?] eqn:Hs; [|discriminate].
    injection H as <- <-. simpl. eauto.
Qed.

(** ** After the broadcast *)

Lemma decodeTrace_unregistered (trace : ActionTrace) :
  (∀ a, act trace = Some a → wasmAbiOf (ta_account a) = None) →
  decodeTrace trace = trace.
Proof.
  intros H. unfold decodeTrace. destruct (act trace) as [a|]; [|reflexivity].
  rewrite (H a eq_refl). reflexivity.
Qed.

(** The response after decoding: the traces are decoded one by one, the
    rest is the node's. *)
Lemma decodeTraces_map (r : TransactResult) :
  decodeTraces r =
    mkResult (transaction_id r)
      ((λ p, mkProcessed (map decodeTrace <$> action_traces p) (block_num p))
         <$> processed r).
Proof.
  unfold decodeTraces. destruct r as [id [[[traces|] bn]|]]; simpl.
  - destruct wasmAbiProvider eqn:Hw; [reflexivity|].
    do 4 f_equal. symmetry. rewrite <- (map_id traces) at 2. apply map_ext.
    intros trace. apply decodeTrace_unregistered. intros a _. unfold wasmAbiOf.
    rewrite Hw. reflexivity.
  - destruct wasmAbiProvider; reflexivity.
  - destruct wasmAbiProvider; reflexivity.
Qed.

(** One trace of a registered account: what a throwing [try] block leaves. *)
Lemma decodeTrace_failures (trace : ActionTrace) (a : TraceAct) (abi : WasmAbi) :
  act trace = Some a →
  wasmAbiOf (ta_account a) = Some abi →
  let dataFails :=
    ∀ d, ta_data a = Some d → ∃ e, argsFromHex abi (ta_name a) d = Throw e in
  let returnFails :=
    ∀ rv, return_value trace = Some rv → ∃ e, returnFromHex abi (ta_name a) rv = Throw e in
  (dataFails → ta_data <$> act (decodeTrace trace) = Some (ta_data a))
  ∧ (returnFails → return_value (decodeTrace trace) = return_value trace)
  ∧ (dataFails → returnFails → decodeTrace trace = trace)
  ∧ receiver (decodeTrace trace) = receiver trace
  ∧ ta_account <$> act (decodeTrace trace) = Some (ta_account a).
Proof.
  intros Ha Hw dataFails returnFails. unfold decodeTrace. rewrite Ha, Hw.
  assert (Hd : dataFails → decodeData abi (ta_name a) a = a).
  { intros Hf. unfold decodeData. destruct (ta_data a) as [d|]; [|reflexivity].
    destruct (Hf d eq_refl) as [e ->]. reflexivity. }
  assert (Hr : returnFails → ∀ a', decodeReturnValue abi (ta_name a) a' trace
                                   = mkTrace (Some a') (return_value trace) (receiver trace)).
  { intros Hf a'. unfold decodeReturnValue. destruct (return_value trace) as [rv|];
      [|reflexivity].
    destruct (Hf rv eq_refl) as [e ->]. reflexivity. }
  split; [|split; [|split; [|split]]].
  - intros Hf. rewrite (Hd Hf). unfold decodeReturnValue.
    destruct (return_value trace) as [rv|]; [|reflexivity].
    destruct (returnFromHex abi (ta_name a) rv); reflexivity.
  - intros Hf. rewrite (Hr Hf). reflexivity.
  - intros Hf1 Hf2. rewrite (Hr Hf2), (Hd Hf1). destruct trace. simpl in *. congruence.
  - unfold decodeReturnValue. destruct (return_value trace) as [rv|]; [|reflexivity].
    destruct (returnFromHex abi (ta_name a) rv); reflexivity.
  - assert (Hacc : ta_account (decodeData abi (ta_name a) a) = ta_account a).
    { unfold decodeData. destruct (ta_data a) as [d|]; [|reflexivity].
      destruct (argsFromHex abi (ta_name a) d); reflexivity. }
    unfold decodeReturnValue. destruct (return_value trace) as [rv|]; simpl;
      [destruct (returnFromHex abi (ta_name a) rv); simpl|]; rewrite Hacc; reflexivity.
Qed.

(** C9. When [transact] broadcasts and the node answers with a response,
    [transact] returns that response, decoded trace by trace; no outcome of a
    decode hook makes it throw.  The transaction id, the block number, and
    the number and order of the traces are the node's; a response without
    [processed], or without [action_traces] in it, is returned as it is.  A
    trace that has no [act], or whose account is not registered with the
    WASM ABI provider, is the node's trace, all of it.  For a trace of a
    registered account, receiver and account are the node's; if decoding
    its [data] throws, [data] is the node's hex; if decoding its
    [return_value] throws, [return_value] is the node's hex; if both throw,
    the whole trace is the node's. *)
Theorem transact_swallows_decode_errors (transaction tx' : Transaction)
    (config : TransactConfig) (w w0 w1 : World) (a : PushTransactionArgs)
    (r : TransactResult) :
  default true (broadcast config) = true →
  resolveTapos transaction config w = (Ok tx', w0) →
  assemble tx' config w0 = (Ok a, w1) →
  send_transaction (calls w1) a = Ok r →
  transact transaction config w
    = (Ok (Response (decodeTraces r)), logCall (Call_send_transaction a) w1)
  ∧ transaction_id (decodeTraces r) = transaction_id r
  ∧ (processed r = None → decodeTraces r = r)
  ∧ (∀ p, processed r = Some p →
       ∃ p', processed (decodeTraces r) = Some p'
             ∧ block_num p' = block_num p
             ∧ (action_traces p = None → decodeTraces r = r)
             ∧ ∀ traces, action_traces p = Some traces →
                 ∃ traces', action_traces p' = Some traces'
                   ∧ length traces' = length traces
                   ∧ ∀ (i : nat) trace, traces !! i = Some trace →
                       ∃ trace', traces' !! i = Some trace'
                         ∧ receiver trace' = receiver trace
                         ∧ ((∀ act0, act trace = Some act0 →
                                     wasmAbiOf (ta_account act0) = None) →
                            trace' = trace)
                         ∧ ∀ act0 abi,
                             act trace = Some act0 →
                             wasmAbiOf (ta_account act0) = Some abi →
                             let dataFails :=
                               ∀ d, ta_data act0 = Some d →
                                    ∃ e, argsFromHex abi (ta_name act0) d = Throw e in
                             let returnFails :=
                               ∀ rv, return_value trace = Some rv →
                                     ∃ e, returnFromHex abi (ta_name act0) rv = Throw e in
                             ta_account <$> act trace' = Some (ta_account act0)
                             ∧ (dataFails → ta_data <$> act trace' = Some (ta_data act0))
                             ∧ (returnFails → return_value trace' = return_value trace)
                             ∧ (dataFails → returnFails → trace' = trace)).
Proof.
  intros Hb Hres Hasm Hsend. split; [|split; [|split]].
  - unfold transact. run. rewrite Hres, Hasm, Hb. simpl. rewrite Hsend. reflexivity.
  - rewrite decodeTraces_map. reflexivity.
  - intros Hp. unfold decodeTraces. rewrite Hp. destruct wasmAbiProvider; reflexivity.
  - intros p Hp. rewrite decodeTraces_map. simpl. rewrite Hp. simpl.
    eexists. split; [reflexivity|]. split; [reflexivity|]. split.
    { intros Ht. rewrite Ht. simpl. destruct r as [id pr]. simpl in *. subst pr.
      destruct p as [traces bn]. simpl in *. subst traces. reflexivity. }
    intros traces Ht. simpl. rewrite Ht. simpl.
    eexists. split; [reflexivity|]. split; [apply length_map|].
    intros i trace Hi. exists (decodeTrace trace).
    split; [rewrite list_lookup_fmap, Hi; reflexivity|].
    split; [|split].
    + unfold decodeTrace. destruct (act trace) as [a0|]; [|reflexivity].
      destruct (wasmAbiOf (ta_account a0)) as [abi|]; [|reflexivity].
      unfold decodeReturnValue. destruct (return_value trace) as [rv|]; [|reflexivity].
      destruct (returnFromHex abi (ta_name a0) rv); reflexivity.
    + apply decodeTrace_unregistered.
    + intros act0 abi Ha Hw.
      destruct (decodeTrace_failures trace act0 abi Ha Hw) as (H1 & H2 & H3 & _ & H5).
      auto.
Qed.

End Properties.

(** * Further properties *)

Section MoreProperties.

Context {AbiBody Types SerType Json GetBlockResult GetBlockHeaderStateResult : Type}.
Context {ser : @Serializer AbiBody Types SerType Json GetBlockResult GetBlockHeaderStateResult}.
Context {providers : @Providers Json GetBlockResult GetBlockHeaderStateResult}.

#[local] Abbreviation World := (@World AbiBody Types SerType Json).
#[local] Abbreviation Transaction := (@Transaction Json).
#[local] Abbreviation Call := (@Call Json).
#[local] Abbreviation Action := (@Action Json).
#[local] Abbreviation Contract := (@Contract Types SerType).
#[local] Abbreviation AbiPending := (@AbiPending AbiBody).
#[local] Abbreviation ContractPending := (@ContractPending AbiBody Types SerType).
#[local] Existing Instances M_ret M_bind.

Ltac run := unfold mbind, M_bind, mret, M_ret, gets, modify, throw, lift, call, try_catch; simpl.

(** ** Moving the state *)

Lemma moves_refl (P : Call → Prop) (w : World) : moves P w w.
Proof.
  unfold moves. split; [exists []; rewrite app_nil_r; auto|]. auto.
Qed.

Lemma moves_trans (P : Call → Prop) (w1 w2 w3 : World) :
  moves P w1 w2 → moves P w2 w3 → moves P w1 w3.
Proof.
  intros ((l1 & E1 & F1) & A1 & C1 & I1 & H1) ((l2 & E2 & F2) & A2 & C2 & I2 & H2).
  split; [|split; [|split; [|split]]].
  - exists (l1 ++ l2). rewrite E2, E1, app_assoc. split; [reflexivity|].
    apply Forall_app. auto.
  - etransitivity; eassumption.
  - etransitivity; eassumption.
  - congruence.
  - auto.
Qed.

Lemma moves_weaken (P Q : Call → Prop) (w w' : World) :
  (∀ c, P c → Q c) → moves P w w' → moves Q w w'.
Proof.
  intros HPQ ((l & E & F) & H). split; [|exact H].
  exists l. split; [exact E|]. eapply Forall_impl; eauto.
Qed.

Lemma moves_call (P : Call → Prop) (c : Call) (w : World) :
  P c → moves P w (logCall c w).
Proof.
  intros Hc. split; [exists [c]; simpl; auto|]. simpl. auto.
Qed.

(** ** [Promise.all] *)

Section PromiseAllFacts.

Context {X P A : Type} (start : X → World → P * World).
Context (resume : X → P → World → result A * World).

Lemma startAll_cons (x : X) (xs : list X) (w : World) :
  startAll start (x :: xs) w
  = ((start x w).1 :: (startAll start xs (start x w).2).1,
     (startAll start xs (start x w).2).2).
Proof.
  simpl. destruct (start x w) as [p w1]. simpl.
  destruct (startAll start xs w1) as [ps w2]. reflexivity.
Qed.

Lemma settleAll_cons (x : X) (xs : list X) (p : P) (ps : list P) (w : World) :
  settleAll resume (x :: xs) (p :: ps) w
  = ((resume x p w).1 :: (settleAll resume xs ps (resume x p w).2).1,
     (settleAll resume xs ps (resume x p w).2).2).
Proof.
  simpl. destruct (resume x p w) as [r w1]. simpl.
  destruct (settleAll resume xs ps w1) as [rs w2]. reflexivity.
Qed.

Lemma Promise_all_eq (xs : list X) (w : World) :
  Promise_all start resume xs w
  = (fulfilled (settleAll resume xs (startAll start xs w).1 (startAll start xs w).2).1,
     (settleAll resume xs (startAll start xs w).1 (startAll start xs w).2).2).
Proof.
  unfold Promise_all. destruct (startAll start xs w) as [ps w1]. simpl.
  destruct (settleAll resume xs ps w1) as [rs w2]. reflexivity.
Qed.

Lemma startAll_length (xs : list X) (w : World) :
  length (startAll start xs w).1 = length xs.
Proof.
  revert w. induction xs as [|x xs IH]; intros w; [reflexivity|].
  rewrite startAll_cons. simpl. rewrite IH. reflexivity.
Qed.

(** What holds of the state when the tasks start keeps holding while they
    start, and what holds of it then keeps holding while they settle. *)
Lemma startAll_inv (J : World → Prop) (Q : X → P → Prop) (xs : list X) :
  (∀ x w0, x ∈ xs → J w0 → J (start x w0).2 ∧ Q x (start x w0).1) →
  ∀ w, J w → J (startAll start xs w).2 ∧ Forall2 Q xs (startAll start xs w).1.
Proof.
  induction xs as [|x xs IH]; intros H w Hw.
  - split; [exact Hw | constructor].
  - rewrite startAll_cons. simpl.
    destruct (H x w (list_elem_of_here _ _) Hw) as [H1 H2].
    destruct (IH (λ y w0 Hy, H y w0 (list_elem_of_further _ _ _ Hy)) _ H1) as [H3 H4].
    split; [exact H3 | constructor; assumption].
Qed.

Lemma settleAll_inv (I : World → Prop) (Q : X → P → Prop) (xs : list X) (ps : list P) :
  (∀ x p w0, Q x p → I w0 → I (resume x p w0).2) →
  Forall2 Q xs ps → ∀ w0, I w0 → I (settleAll resume xs ps w0).2.
Proof.
  intros H F. induction F as [|x p xs ps Hq F IH]; intros w0 Hw; [exact Hw|].
  rewrite settleAll_cons. simpl. apply IH. apply H; assumption.
Qed.

Lemma Promise_all_inv (J I : World → Prop) (Q : X → P → Prop) (xs : list X) (w : World) :
  (∀ x w0, x ∈ xs → J w0 → J (start x w0).2 ∧ Q x (start x w0).1) →
  (∀ x p w0, Q x p → I w0 → I (resume x p w0).2) →
  (∀ w0, J w0 → I w0) →
  J w → I (Promise_all start resume xs w).2.
Proof.
  intros Hs Hr HJI Hw. rewrite Promise_all_eq. simpl.
  destruct (startAll_inv J Q xs Hs w Hw) as [H1 H2].
  apply (settleAll_inv I Q xs _ Hr H2). apply HJI. exact H1.
Qed.

(** The pending state of the task at [i] is the one that its [start] leaves
    in the state in which the tasks before it have started. *)
Lemma startAll_each (xs : list X) (w : World) (i : nat) (x : X) :
  xs !! i = Some x →
  (startAll start xs w).1 !! i = Some (start x (startAll start (take i xs) w).2).1.
Proof.
  revert w i. induction xs as [|y xs IH]; intros w i Hi; [discriminate|].
  rewrite startAll_cons. destruct i as [|i]; simpl in *.
  - injection Hi as ->. reflexivity.
  - rewrite (IH _ _ Hi). destruct (start y w) as [p w1]. simpl.
    destruct (startAll start (take i xs) w1) as [ps w2]. reflexivity.
Qed.

(** When the value of a task does not depend on the state in which it
    resumes, the value at [i] is that of its own [resume]. *)
Lemma settleAll_each (xs : list X) (ps : list P) (w w0 : World) (i : nat) (x : X) (p : P) :
  (∀ y q w1 w2, (resume y q w1).1 = (resume y q w2).1) →
  xs !! i = Some x → ps !! i = Some p →
  (settleAll resume xs ps w).1 !! i = Some (resume x p w0).1.
Proof.
  intros Hind. revert ps w i.
  induction xs as [|y xs IH]; intros [|q ps] w i Hx Hp; try discriminate.
  rewrite settleAll_cons. destruct i as [|i]; simpl in *.
  - injection Hx as ->. injection Hp as ->. f_equal. apply Hind.
  - apply IH; assumption.
Qed.

Lemma settleAll_length (xs : list X) (ps : list P) (w : World) :
  length ps = length xs → length (settleAll resume xs ps w).1 = length xs.
Proof.
  revert ps w. induction xs as [|x xs IH]; intros [|p ps] w Hl; try discriminate;
    [reflexivity|].
  rewrite settleAll_cons. simpl. rewrite IH; [reflexivity|]. simpl in Hl. lia.
Qed.

End PromiseAllFacts.

Lemma fulfilled_Ok {A} (rs : list (result A)) (l : list A) :
  fulfilled rs = Ok l ↔ rs = map Ok l.
Proof.
  revert l. induction rs as [|[a|e] rs IH]; intros l; simpl.
  - split; [intros [= <-]; reflexivity|]. destruct l; [reflexivity | discriminate].
  - destruct (fulfilled rs) as [l'|e] eqn:Hf.
    + split.
      * intros [= <-]. simpl. f_equal. apply IH. reflexivity.
      * destruct l as [|b l]; [discriminate|]. simpl. intros [= -> H].
        apply IH in H. injection H as ->. reflexivity.
    + split; [discriminate|]. destruct l as [|b l]; [discriminate|]. simpl.
      intros [= -> H]. apply IH in H. discriminate.
  - split; [discriminate|]. destruct l; discriminate.
Qed.

(** ** The caches, method by method *)

Lemma getCachedAbi_contracts (a : string) (reload : bool) (w : World) :
  contracts (getCachedAbi a reload w).2 = contracts w
  ∧ chainId (getCachedAbi a reload w).2 = chainId w.
Proof.
  destruct (if reload then None else cachedAbis w !! a) as [c|] eqn:Hm.
  - destruct reload; [discriminate|]. rewrite (getCachedAbi_hit _ _ _ Hm). auto.
  - rewrite getCachedAbi_fetch
      by (destruct reload; [left; reflexivity | right; exact Hm]).
    simpl. destruct (getRawAbi (calls w) a) as [r|e]; simpl; [|auto].
    destruct (rawAbiToJson (gra_abi r)); simpl; auto.
Qed.

Lemma coherent_insert (a : string) (c : CachedAbi) (w : World) :
  rawAbiToJson (rawAbi c) = Ok (abi c) →
  coherent w → coherent (set_cachedAbi a c (logCall (Call_getRawAbi a) w)).
Proof.
  intros Hc Hw b d. simpl. rewrite lookup_insert. case_decide.
  - intros [= <-]. exact Hc.
  - apply Hw.
Qed.

Lemma getCachedAbi_coherent (a : string) (reload : bool) (w : World) :
  coherent w → coherent (getCachedAbi a reload w).2.
Proof.
  intros Hw.
  destruct (if reload then None else cachedAbis w !! a) as [c|] eqn:Hm.
  - destruct reload; [discriminate|]. rewrite (getCachedAbi_hit _ _ _ Hm). exact Hw.
  - rewrite getCachedAbi_fetch
      by (destruct reload; [left; reflexivity | right; exact Hm]).
    simpl. destruct (getRawAbi (calls w) a) as [r|e]; simpl; [|exact Hw].
    destruct (rawAbiToJson (gra_abi r)) as [j|e] eqn:Hj; simpl; [|exact Hw].
    apply coherent_insert; [exact Hj | exact Hw].
Qed.

(** [getContract] when the contract is not stored (or [reload] is set). *)
Lemma getContract_build (a : string) (reload : bool) (w : World) :
  reload = true ∨ contracts w !! a = None →
  getContract a reload w =
    match getCachedAbi a reload w with
    | (Ok c, w1) =>
        match getTypesFromAbi (abi c) with
        | Ok types =>
            match actionTypes types (abi_actions (body (abi c))) ∅ with
            | Ok actions =>
                (Ok (mkContract types actions),
                 set_contract a (mkContract types actions) w1)
            | Throw e => (Throw e, w1)
            end
        | Throw e => (Throw e, w1)
        end
    | (Throw e, w1) => (Throw e, w1)
    end.
Proof.
  intros H. unfold getContract, getAbi. run.
  assert (Hm : (if reload then None else contracts w !! a) = None)
    by (destruct H as [-> | ->]; [reflexivity | destruct reload; reflexivity]).
  rewrite Hm. destruct (getCachedAbi a reload w) as [[c|e] w1]; simpl; [|reflexivity].
  destruct (getTypesFromAbi (abi c)) as [types|e]; simpl; [|reflexivity].
  destruct (actionTypes types (abi_actions (body (abi c))) ∅); reflexivity.
Qed.

Lemma getContract_hit (a : string) (w : World) (c : Contract) :
  contracts w !! a = Some c → getContract a false w = (Ok c, w).
Proof. intros H. unfold getContract. run. rewrite H. reflexivity. Qed.

(** ** Tasks cut at their [await]

    Called and awaited at once, the two parts of a task are the method
    itself. *)

Lemma getCachedAbi_cut (a : string) (reload : bool) (w : World) :
  getCachedAbi a reload w
  = getCachedAbi_resume a (getCachedAbi_start a reload w).1
      (getCachedAbi_start a reload w).2.
Proof.
  unfold getCachedAbi, getCachedAbi_start, getCachedAbi_resume. run.
  destruct (if reload then None else cachedAbis w !! a); simpl; [reflexivity|].
  destruct (getRawAbi (calls w) a) as [r|e]; simpl; [|reflexivity].
  destruct (rawAbiToJson (gra_abi r)); reflexivity.
Qed.

Lemma getContract_cut (a : string) (reload : bool) (w : World) :
  getContract a reload w
  = getContract_resume a (getContract_start a reload w).1
      (getContract_start a reload w).2.
Proof.
  unfold getContract, getContract_start, getContract_resume, getAbi, getAbi_resume.
  run. destruct (if reload then None else contracts w !! a); simpl; [reflexivity|].
  rewrite getCachedAbi_cut.
  destruct (getCachedAbi_start a reload w) as [p w1]. reflexivity.
Qed.

Lemma getCachedAbi_resume_asked (a : string) (answer : result GetRawAbiResult)
    (w0 : World) :
  getCachedAbi_resume a (RawAbiAnswer answer) w0
  = match fetchedAbi answer with
    | Ok c => (Ok c, set_cachedAbi a c w0)
    | Throw e => (Throw (fetchingAbiFor a e), w0)
    end.
Proof.
  unfold getCachedAbi_resume, fetchedAbi. run. destruct answer as [r|e]; simpl;
    [|reflexivity].
  destruct (rawAbiToJson (gra_abi r)); reflexivity.
Qed.

Lemma getContract_resume_abi (a : string) (p : AbiPending) (w0 : World) :
  getContract_resume a (AwaitsAbi p) w0
  = match getCachedAbi_resume a p w0 with
    | (Ok ca, w1) =>
        match contractOf (abi ca) with
        | Ok c => (Ok c, set_contract a c w1)
        | Throw e => (Throw e, w1)
        end
    | (Throw e, w1) => (Throw e, w1)
    end.
Proof.
  unfold getContract_resume, getAbi_resume, contractOf. run.
  destruct (getCachedAbi_resume a p w0) as [[ca|e] w1]; simpl; [|reflexivity].
  destruct (getTypesFromAbi (abi ca)) as [types|e]; simpl; [|reflexivity].
  destruct (actionTypes types (abi_actions (body (abi ca))) ∅); reflexivity.
Qed.

Lemma fetchedAbi_coherent (answer : result GetRawAbiResult) (c : CachedAbi) :
  fetchedAbi answer = Ok c → rawAbiToJson (rawAbi c) = Ok (abi c).
Proof.
  unfold fetchedAbi. destruct answer as [r|e]; [|discriminate].
  destruct (rawAbiToJson (gra_abi r)) as [j|e] eqn:Hj; [|discriminate].
  intros [= <-]. exact Hj.
Qed.

Lemma moves_set_cachedAbi (P : Call → Prop) (a : string) (c : CachedAbi) (w w0 : World) :
  cachedAbis w !! a = None → rawAbiToJson (rawAbi c) = Ok (abi c) →
  moves P w w0 → moves P w (set_cachedAbi a c w0).
Proof.
  intros Hn Hc (Hl & HA & HC & HI & Hco).
  split; [exact Hl|]. simpl.
  split; [apply insert_subseteq_r; assumption|].
  split; [exact HC|]. split; [exact HI|].
  intros Hw b d. simpl. rewrite lookup_insert. case_decide.
  - intros [= <-]. exact Hc.
  - apply (Hco Hw).
Qed.

Lemma moves_add_contract (P : Call → Prop) (a : string) (c : Contract) (w w0 : World) :
  contracts w !! a = None → moves P w w0 → moves P w (set_contract a c w0).
Proof.
  intros Hn (Hl & HA & HC & HI & Hco).
  split; [exact Hl|]. simpl.
  split; [exact HA|]. split; [apply insert_subseteq_r; assumption|].
  split; [exact HI | exact Hco].
Qed.

Lemma getCachedAbi_resume_moves (P : Call → Prop) (a : string) (p : AbiPending)
    (w w0 : World) :
  abiMiss w a p → moves P w w0 → moves P w (getCachedAbi_resume a p w0).2.
Proof.
  intros Hq Hm. destruct p as [c|answer]; [exact Hm|].
  rewrite getCachedAbi_resume_asked.
  destruct (fetchedAbi answer) as [c|e] eqn:Hf; simpl; [|exact Hm].
  apply moves_set_cachedAbi;
    [apply (Hq answer eq_refl) | eapply fetchedAbi_coherent; exact Hf | exact Hm].
Qed.

(** ** The ABIs of a transaction *)

Lemma uniqueFrom_elem (seen l : list string) (x : string) :
  x ∈ uniqueFrom seen l ↔ x ∈ l ∧ x ∉ seen.
Proof.
  revert seen. induction l as [|y l IH]; intros seen; simpl.
  - split; [intros H | intros [H _]]; inversion H.
  - case_bool_decide as Hy.
    + rewrite IH, elem_of_cons. split; [tauto|].
      intros [[-> | H] Hn]; [contradiction | auto].
    + rewrite elem_of_cons, IH, !elem_of_cons. split.
      * intros [-> | [H Hn]]; [auto | split; [auto | tauto]].
      * intros [[-> | H] Hn]; [auto|].
        destruct (decide (x = y)) as [-> | Hne]; [auto | right; split; [auto | tauto]].
Qed.

Lemma uniqueFrom_NoDup (seen l : list string) : NoDup (uniqueFrom seen l).
Proof.
  revert seen. induction l as [|y l IH]; intros seen; simpl; [constructor|].
  case_bool_decide; [apply IH|]. constructor; [|apply IH].
  rewrite uniqueFrom_elem, elem_of_cons. tauto.
Qed.

(** The accounts that [getTransactionAbis] asks [getCachedAbi] for. *)
Lemma abiAccounts_spec (transaction : Transaction) :
  NoDup (abiAccounts transaction)
  ∧ ∀ a, a ∈ abiAccounts transaction ↔ a ∈ txAccounts transaction ∧ wasmAbiOf a = None.
Proof.
  unfold abiAccounts. split.
  - apply NoDup_ListNoDup, List.NoDup_filter, NoDup_ListNoDup, uniqueFrom_NoDup.
  - intros a. rewrite list_elem_of_In, List.filter_In, <- list_elem_of_In, uniqueFrom_elem.
    unfold is_None'. destruct (wasmAbiOf a); split; intros H.
    + destruct H as [_ H]. discriminate.
    + destruct H as [_ H]. discriminate.
    + split; [tauto | reflexivity].
    + split; [|reflexivity]. split; [tauto|]. intros Hn. inversion Hn.
Qed.

Lemma uncached_elem (w : World) (xs : list string) (a : string) :
  a ∈ uncached w xs ↔ a ∈ xs ∧ cachedAbis w !! a = None.
Proof.
  unfold uncached. rewrite list_elem_of_In, List.filter_In, <- list_elem_of_In.
  destruct (cachedAbis w !! a); simpl; split; intros [H1 H2]; try discriminate; auto.
Qed.

Lemma uncached_NoDup (w : World) (xs : list string) : NoDup xs → NoDup (uncached w xs).
Proof.
  intros H. apply NoDup_ListNoDup, List.NoDup_filter, NoDup_ListNoDup. exact H.
Qed.

Lemma getCachedAbi_stored (a : string) (reload : bool) (w w1 : World) (c : CachedAbi) :
  getCachedAbi a reload w = (Ok c, w1) → cachedAbis w1 !! a = Some c.
Proof.
  destruct (if reload then None else cachedAbis w !! a) as [c0|] eqn:Hm.
  - destruct reload; [discriminate|]. rewrite (getCachedAbi_hit _ _ _ Hm).
    intros [= <- <-]. exact Hm.
  - rewrite getCachedAbi_fetch
      by (destruct reload; [left; reflexivity | right; exact Hm]).
    simpl. destruct (getRawAbi (calls w) a) as [r|e]; [|discriminate].
    destruct (rawAbiToJson (gra_abi r)); [|discriminate].
    intros [= <- <-]. simpl. apply lookup_insert_eq.
Qed.

(** The two parts of the task that [getTransactionAbis] runs for an
    account. *)
#[local] Abbreviation abiStart := (λ account : string, getCachedAbi_start account false).
#[local] Abbreviation abiResume :=
  (λ (account : string) (p : AbiPending),
     c ← getCachedAbi_resume account p; mret (mkBinaryAbi account (rawAbi c))).

Lemma getTransactionAbis_tasks (transaction : Transaction) :
  getTransactionAbis transaction false
  = Promise_all abiStart abiResume (abiAccounts transaction).
Proof. reflexivity. Qed.

Lemma abiResume_spec (a : string) (p : AbiPending) (w0 : World) :
  abiResume a p w0
  = match p with
    | CachedEntry c => (Ok (mkBinaryAbi a (rawAbi c)), w0)
    | RawAbiAnswer answer =>
        match fetchedAbi answer with
        | Ok c => (Ok (mkBinaryAbi a (rawAbi c)), set_cachedAbi a c w0)
        | Throw e => (Throw (fetchingAbiFor a e), w0)
        end
    end.
Proof.
  unfold mbind, M_bind. destruct p as [c|answer]; [reflexivity|].
  rewrite getCachedAbi_resume_asked. destruct (fetchedAbi answer); reflexivity.
Qed.

(** The start of the tasks: the cache is read as it was at the call, and
    each miss is a fetch, asked after the fetches of the tasks before. *)
Lemma abiStart_all (w : World) (xs : list string) (w0 : World) :
  cachedAbis w0 = cachedAbis w →
  calls (startAll abiStart xs w0).2 = calls w0 ++ map Call_getRawAbi (uncached w xs)
  ∧ cachedAbis (startAll abiStart xs w0).2 = cachedAbis w
  ∧ contracts (startAll abiStart xs w0).2 = contracts w0
  ∧ chainId (startAll abiStart xs w0).2 = chainId w0
  ∧ Forall2 (λ a p,
       match cachedAbis w !! a with
       | Some c => p = CachedEntry c
       | None =>
           ∃ l1 l2, map Call_getRawAbi (uncached w xs) = l1 ++ Call_getRawAbi a :: l2
                    ∧ p = RawAbiAnswer (getRawAbi (calls w0 ++ l1) a)
       end) xs (startAll abiStart xs w0).1.
Proof.
  revert w0. induction xs as [|x xs IH]; intros w0 Hc.
  - simpl. rewrite app_nil_r. repeat split; auto.
  - rewrite startAll_cons. cbv beta.
    assert (Hs : getCachedAbi_start x false w0
                 = match cachedAbis w !! x with
                   | Some c => (CachedEntry c, w0)
                   | None => (RawAbiAnswer (getRawAbi (calls w0) x),
                              logCall (Call_getRawAbi x) w0)
                   end)
      by (unfold getCachedAbi_start; rewrite Hc; reflexivity).
    rewrite Hs. clear Hs.
    assert (Hu : uncached w (x :: xs)
                 = if is_None' (cachedAbis w !! x) then x :: uncached w xs
                   else uncached w xs) by reflexivity.
    rewrite Hu. clear Hu.
    destruct (cachedAbis w !! x) as [c|] eqn:Hx; simpl.
    + destruct (IH w0 Hc) as (H1 & H2 & H3 & H4 & H5).
      split; [exact H1|]. split; [exact H2|]. split; [exact H3|]. split; [exact H4|].
      constructor; [rewrite Hx; reflexivity | exact H5].
    + destruct (IH (logCall (Call_getRawAbi x) w0) Hc) as (H1 & H2 & H3 & H4 & H5).
      simpl in *. rewrite <- app_assoc in H1.
      split; [exact H1|]. split; [exact H2|]. split; [exact H3|]. split; [exact H4|].
      constructor.
      * rewrite Hx. exists [], (map Call_getRawAbi (uncached w xs)).
        rewrite app_nil_r. auto.
      * eapply Forall2_impl; [exact H5|]. intros a p Hp. simpl in Hp.
        destruct (cachedAbis w !! a); [exact Hp|].
        destruct Hp as (l1 & l2 & E & ->).
        exists (Call_getRawAbi x :: l1), l2. simpl. rewrite E, <- app_assoc. auto.
Qed.

(** The settling of the tasks: each answered fetch stores its entry. *)
Lemma abiResume_all (xs : list string) :
  NoDup xs → ∀ (ps : list AbiPending) (w0 : World), length ps = length xs →
    calls (settleAll abiResume xs ps w0).2 = calls w0
    ∧ contracts (settleAll abiResume xs ps w0).2 = contracts w0
    ∧ chainId (settleAll abiResume xs ps w0).2 = chainId w0
    ∧ (∀ a, a ∉ xs → cachedAbis (settleAll abiResume xs ps w0).2 !! a
                      = cachedAbis w0 !! a)
    ∧ Forall2 (λ a p,
         cachedAbis (settleAll abiResume xs ps w0).2 !! a
         = match p with
           | CachedEntry _ => cachedAbis w0 !! a
           | RawAbiAnswer answer =>
               match fetchedAbi answer with
               | Ok c => Some c
               | Throw _ => cachedAbis w0 !! a
               end
           end) xs ps.
Proof.
  induction 1 as [|x xs Hx Hnd IH]; intros ps w0 Hl.
  - destruct ps; [|discriminate]. simpl. repeat split; auto.
  - destruct ps as [|p ps]; [discriminate|]. rewrite settleAll_cons.
    injection Hl as Hl. rewrite abiResume_spec.
    set (w1 := match p with
               | CachedEntry _ => w0
               | RawAbiAnswer answer =>
                   match fetchedAbi answer with
                   | Ok c => set_cachedAbi x c w0
                   | Throw _ => w0
                   end
               end).
    assert (Hw1 : (match p with
                   | CachedEntry c => (Ok (mkBinaryAbi x (rawAbi c)), w0)
                   | RawAbiAnswer answer =>
                       match fetchedAbi answer with
                       | Ok c => (Ok (mkBinaryAbi x (rawAbi c)), set_cachedAbi x c w0)
                       | Throw e => (Throw (fetchingAbiFor x e), w0)
                       end
                   end).2 = w1).
    { unfold w1. destruct p as [c|answer]; [reflexivity|].
      destruct (fetchedAbi answer); reflexivity. }
    simpl. rewrite Hw1.
    assert (Hsame : calls w1 = calls w0 ∧ contracts w1 = contracts w0
                    ∧ chainId w1 = chainId w0
                    ∧ ∀ a, a ≠ x → cachedAbis w1 !! a = cachedAbis w0 !! a).
    { unfold w1. destruct p as [c|answer]; [auto|].
      destruct (fetchedAbi answer); simpl; [|auto].
      repeat split; auto. intros b Hb. apply lookup_insert_ne. congruence. }
    destruct Hsame as (S1 & S2 & S3 & S4).
    destruct (IH ps w1 Hl) as (H1 & H2 & H3 & H4 & H5).
    split; [congruence|]. split; [congruence|]. split; [congruence|].
    split; [|constructor].
    + intros a Ha. rewrite not_elem_of_cons in Ha. destruct Ha as [Ha1 Ha2].
      rewrite (H4 a Ha2). apply S4. exact Ha1.
    + rewrite (H4 x Hx). unfold w1. destruct p as [c|answer]; [reflexivity|].
      destruct (fetchedAbi answer); simpl; [apply lookup_insert_eq | reflexivity].
    + apply Forall2_same_length_lookup_2; [apply Forall2_length in H5; exact H5|].
      intros i a q Ha Hq.
      rewrite (Forall2_lookup_lr _ _ _ _ _ _ H5 Ha Hq).
      assert (Hne : a ≠ x).
      { intros ->. apply Hx. apply list_elem_of_lookup. eauto. }
      rewrite (S4 a Hne). reflexivity.
Qed.

(** The values of the tasks, when all are fulfilled. *)
Lemma abiResume_values (xs : list string) (ps : list AbiPending) (w0 : World)
    (abis : list BinaryAbi) :
  length ps = length xs →
  fulfilled (settleAll abiResume xs ps w0).1 = Ok abis →
  map accountName abis = xs
  ∧ Forall2 (λ p b, ∃ c, ba_abi b = rawAbi c
                         ∧ (p = CachedEntry c
                            ∨ ∃ answer, p = RawAbiAnswer answer
                                        ∧ fetchedAbi answer = Ok c)) ps abis.
Proof.
  revert ps w0 abis. induction xs as [|x xs IH]; intros [|p ps] w0 abis Hl;
    try discriminate.
  - simpl. intros [= <-]. split; [reflexivity | constructor].
  - rewrite settleAll_cons. simpl. injection Hl as Hl.
    rewrite abiResume_spec.
    destruct p as [c|answer].
    + simpl. destruct (fulfilled _) as [l|e] eqn:Hf; [|discriminate].
      intros [= <-]. destruct (IH _ _ _ Hl Hf) as [H1 H2]. simpl.
      split; [congruence|]. constructor; [|exact H2]. exists c. auto.
    + destruct (fetchedAbi answer) as [c|e] eqn:Ha; simpl; [|discriminate].
      destruct (fulfilled _) as [l|e] eqn:Hf; [|discriminate].
      intros [= <-]. destruct (IH _ _ _ Hl Hf) as [H1 H2]. simpl.
      split; [congruence|]. constructor; [|exact H2]. exists c. eauto.
Qed.

(** All of [getTransactionAbis] without reload, whatever its outcome: the
    fetches it logs, the entries it stores, and the values it returns. *)
Lemma getTransactionAbis_run (transaction : Transaction) (w : World) :
  let xs := abiAccounts transaction in
  let w' := (getTransactionAbis transaction false w).2 in
  calls w' = calls w ++ map Call_getRawAbi (uncached w xs)
  ∧ contracts w' = contracts w
  ∧ chainId w' = chainId w
  ∧ (∀ a, a ∉ uncached w xs → cachedAbis w' !! a = cachedAbis w !! a)
  ∧ (∀ a, a ∈ uncached w xs →
       ∃ l1 l2, map Call_getRawAbi (uncached w xs) = l1 ++ Call_getRawAbi a :: l2
                ∧ cachedAbis w' !! a
                  = match fetchedAbi (getRawAbi (calls w ++ l1) a) with
                    | Ok c => Some c
                    | Throw _ => None
                    end)
  ∧ (∀ abis, (getTransactionAbis transaction false w).1 = Ok abis →
       map accountName abis = xs
       ∧ Forall (λ b, ∃ c, cachedAbis w' !! accountName b = Some c
                           ∧ ba_abi b = rawAbi c) abis).
Proof.
  intros xs w'. unfold w'. rewrite getTransactionAbis_tasks, Promise_all_eq. simpl.
  fold xs. destruct (abiAccounts_spec transaction) as [Hnd _]. fold xs in Hnd.
  destruct (abiStart_all w xs w eq_refl) as (S1 & S2 & S3 & S4 & S5).
  pose proof (startAll_length abiStart xs w) as Hl.
  destruct (abiResume_all xs Hnd _ (startAll abiStart xs w).2 Hl)
    as (R1 & R2 & R3 & R4 & R5).
  set (ps := (startAll abiStart xs w).1) in *.
  set (w1 := (startAll abiStart xs w).2) in *.
  set (w2 := (settleAll abiResume xs ps w1).2) in *.
  assert (Hat : ∀ i a, xs !! i = Some a →
            ∃ p, ps !! i = Some p
                 ∧ match cachedAbis w !! a with
                   | Some c => p = CachedEntry c
                   | None =>
                       ∃ l1 l2,
                         map Call_getRawAbi (uncached w xs) = l1 ++ Call_getRawAbi a :: l2
                         ∧ p = RawAbiAnswer (getRawAbi (calls w ++ l1) a)
                   end
                 ∧ cachedAbis w2 !! a
                   = match p with
                     | CachedEntry _ => cachedAbis w !! a
                     | RawAbiAnswer answer =>
                         match fetchedAbi answer with
                         | Ok c => Some c
                         | Throw _ => cachedAbis w !! a
                         end
                     end).
  { intros i a Hi.
    destruct (Forall2_lookup_l _ _ _ _ _ S5 Hi) as (p & Hp & Hs).
    exists p. split; [exact Hp|]. split; [exact Hs|].
    rewrite <- S2. apply (Forall2_lookup_lr _ _ _ _ _ _ R5 Hi Hp). }
  split; [congruence|]. split; [congruence|]. split; [congruence|].
  split; [|split].
  - intros a Ha. rewrite uncached_elem in Ha.
    destruct (decide (a ∈ xs)) as [Hin | Hout].
    + apply list_elem_of_lookup in Hin as [i Hi].
      destruct (Hat i a Hi) as (p & _ & Hs & Hc).
      destruct (cachedAbis w !! a) as [c|] eqn:Hca.
      * subst p. exact Hc.
      * exfalso. apply Ha. split; [|reflexivity].
        apply list_elem_of_lookup. eauto.
    + rewrite (R4 a Hout), S2. reflexivity.
  - intros a Ha. rewrite uncached_elem in Ha. destruct Ha as [Hin Hca].
    apply list_elem_of_lookup in Hin as [i Hi].
    destruct (Hat i a Hi) as (p & _ & Hs & Hc). rewrite Hca in Hs, Hc.
    destruct Hs as (l1 & l2 & E & ->). exists l1, l2. split; [exact E|].
    rewrite Hc. destruct (fetchedAbi _); reflexivity.
  - intros abis Habis.
    destruct (abiResume_values xs ps w1 abis Hl Habis) as [Hn Hv].
    split; [exact Hn|]. apply Forall_lookup. intros i b Hb.
    assert (Hi : xs !! i = Some (accountName b))
      by (rewrite <- Hn, list_lookup_fmap, Hb; reflexivity).
    destruct (Hat i _ Hi) as (p & Hp & Hs & Hc).
    destruct (Forall2_lookup_lr _ _ _ _ _ _ Hv Hp Hb) as (c & Hraw & Hpc).
    exists c. split; [|exact Hraw]. rewrite Hc.
    destruct Hpc as [-> | (answer & -> & Hf)].
    + destruct (cachedAbis w !! accountName b) as [c'|]; [congruence|].
      destruct Hs as (? & ? & _ & [=]).
    + rewrite Hf. reflexivity.
Qed.

(** After a success, every account that [getTransactionAbis] ran a task
    for has its ABI cached. *)
Lemma getTransactionAbis_cached (transaction : Transaction) (w w1 w2 : World)
    (abis : list BinaryAbi) (a : string) :
  getTransactionAbis transaction false w = (Ok abis, w1) →
  cachedAbis w1 ⊆ cachedAbis w2 →
  a ∈ txAccounts transaction → wasmAbiOf a = None →
  is_Some (cachedAbis w2 !! a).
Proof.
  intros H Hsub Ha Hw.
  destruct (getTransactionAbis_run transaction w) as (_ & _ & _ & _ & _ & Hv).
  rewrite H in Hv. destruct (Hv abis eq_refl) as [Hn Hf]. simpl in Hf.
  destruct (abiAccounts_spec transaction) as [_ Hiff].
  assert (Hin : a ∈ map accountName abis) by (rewrite Hn; apply Hiff; auto).
  apply list_elem_of_In, in_map_iff in Hin as (b & Hb & Hbin).
  apply list_elem_of_In in Hbin.
  rewrite Forall_forall in Hf. destruct (Hf b Hbin) as (c & Hc & _).
  exists c. rewrite <- Hb. eapply lookup_weaken; eassumption.
Qed.

(** X1. When [getTransactionAbis] succeeds, it returns one ABI for each
    account of the transaction's actions that is not a WASM account, once
    per account however often the account appears; and each ABI returned is
    the raw ABI that the cache then holds for its account. *)
Theorem getTransactionAbis_accounts (transaction : Transaction) (w w' : World)
    (abis : list BinaryAbi) :
  getTransactionAbis transaction false w = (Ok abis, w') →
  NoDup (map accountName abis)
  ∧ (∀ a, a ∈ map accountName abis ↔ a ∈ txAccounts transaction ∧ wasmAbiOf a = None)
  ∧ Forall (λ b, ∃ c, cachedAbis w' !! accountName b = Some c ∧ ba_abi b = rawAbi c) abis.
Proof.
  intros H.
  destruct (getTransactionAbis_run transaction w) as (_ & _ & _ & _ & _ & Hv).
  rewrite H in Hv. destruct (Hv abis eq_refl) as [-> Hf].
  destruct (abiAccounts_spec transaction) as [Hnd Hiff]. auto.
Qed.

(** X2. Whatever its outcome, [getTransactionAbis] (without reload) asks
    the ABI provider exactly for the accounts of the transaction that are
    no WASM accounts and have no entry in the ABI cache when it is called:
    once each, in the order of their first appearance, every one of them
    also when the fetch for another one fails.  When it ends, the answer to
    each of these fetches that decodes is in the cache, and nothing else of
    the state has changed. *)
Theorem getTransactionAbis_fetches (transaction : Transaction) (w : World) :
  let asks := uncached w (abiAccounts transaction) in
  let w' := (getTransactionAbis transaction false w).2 in
  calls w' = calls w ++ map Call_getRawAbi asks
  ∧ NoDup asks
  ∧ (∀ a, a ∈ asks ↔ a ∈ txAccounts transaction ∧ wasmAbiOf a = None
                      ∧ cachedAbis w !! a = None)
  ∧ (∀ a, a ∈ asks →
       ∃ l1 l2, map Call_getRawAbi asks = l1 ++ Call_getRawAbi a :: l2
                ∧ cachedAbis w' !! a
                  = match fetchedAbi (getRawAbi (calls w ++ l1) a) with
                    | Ok c => Some c
                    | Throw _ => None
                    end)
  ∧ (∀ a, a ∉ asks → cachedAbis w' !! a = cachedAbis w !! a)
  ∧ contracts w' = contracts w
  ∧ chainId w' = chainId w.
Proof.
  intros asks w'.
  destruct (getTransactionAbis_run transaction w) as (H1 & H2 & H3 & H4 & H5 & _).
  destruct (abiAccounts_spec transaction) as [Hnd Hiff].
  split; [exact H1|]. split; [apply uncached_NoDup; exact Hnd|].
  split; [|auto]. intros a. unfold asks. rewrite uncached_elem, Hiff. tauto.
Qed.

Lemma getTransactionAbis_moves (transaction : Transaction) (w : World) :
  moves (fetchesAmong (txAccounts transaction)) w
    (getTransactionAbis transaction false w).2.
Proof.
  destruct (getTransactionAbis_run transaction w) as (H1 & H2 & H3 & H4 & H5 & _).
  destruct (abiAccounts_spec transaction) as [Hnd Hiff].
  simpl in *. split; [|split; [|split; [|split]]].
  - eexists. split; [exact H1|]. apply Forall_forall. intros c Hc.
    apply list_elem_of_In, in_map_iff in Hc as (a & <- & Ha).
    apply list_elem_of_In, uncached_elem in Ha as [Ha _].
    apply Hiff in Ha as [Ha Hw]. exists a. auto.
  - apply map_subseteq_spec. intros a c Hc. rewrite H4; [exact Hc|].
    rewrite uncached_elem. intros [_ Hn]. congruence.
  - rewrite H2. reflexivity.
  - exact H3.
  - intros Hw a c Hc.
    destruct (decide (a ∈ uncached w (abiAccounts transaction))) as [Hin | Hout].
    + destruct (H5 a Hin) as (l1 & l2 & _ & E). rewrite E in Hc.
      destruct (fetchedAbi _) as [c'|] eqn:Hf; [|discriminate].
      injection Hc as <-. eapply fetchedAbi_coherent. exact Hf.
    + rewrite (H4 a Hout) in Hc. apply (Hw a c Hc).
Qed.

Lemma world_eq (w w' : World) :
  chainId w = chainId w' → cachedAbis w = cachedAbis w' →
  contracts w = contracts w' → calls w = calls w' → w = w'.
Proof. destruct w, w'. simpl. intros. subst. reflexivity. Qed.

Lemma abiResume_fulfilled (xs : list string) (ps : list AbiPending) (w0 : World) :
  length ps = length xs →
  (∃ abis, fulfilled (settleAll abiResume xs ps w0).1 = Ok abis)
  ↔ Forall (λ p, ∀ answer, p = RawAbiAnswer answer → ∃ c, fetchedAbi answer = Ok c) ps.
Proof.
  revert ps w0. induction xs as [|x xs IH]; intros [|p ps] w0 Hl; try discriminate.
  - simpl. split; [constructor | eauto].
  - rewrite settleAll_cons. simpl. injection Hl as Hl. rewrite abiResume_spec.
    rewrite Forall_cons.
    destruct p as [c|answer]; [|destruct (fetchedAbi answer) as [c|e] eqn:Hf]; simpl.
    + rewrite <- (IH ps w0 Hl). split.
      * intros [abis H]. destruct (fulfilled _) as [l|]; [|discriminate].
        split; [intros ? [=] | eauto].
      * intros [_ [l ->]]. eauto.
    + rewrite <- (IH ps (set_cachedAbi x c w0) Hl). split.
      * intros [abis H]. destruct (fulfilled _) as [l|]; [|discriminate].
        split; [intros ? [= <-]; eauto | eauto].
      * intros [_ [l ->]]. eauto.
    + split; [intros [? [=]]|]. intros [H _].
      destruct (H answer eq_refl) as [c Hc]. congruence.
Qed.

(** X20. The state in which [getTransactionAbis] ends does not depend on
    the order in which the answers to its fetches arrive: whichever order
    the tasks resume in, the state once all have settled is the same, and
    so is whether all of them are fulfilled. *)
Theorem getTransactionAbis_arrival_order (transaction : Transaction) (w : World)
    (order : list (string * AbiPending)) :
  let xs := abiAccounts transaction in
  let started := startAll (λ account, getCachedAbi_start account false) xs w in
  let settled :=
    settleAll (λ account p,
                 c ← getCachedAbi_resume account p;
                 mret (mkBinaryAbi account (rawAbi c)))
      order.*1 order.*2 started.2 in
  order ≡ₚ zip xs started.1 →
  settled.2 = (getTransactionAbis transaction false w).2
  ∧ ((∃ abis, fulfilled settled.1 = Ok abis)
     ↔ (∃ abis, (getTransactionAbis transaction false w).1 = Ok abis)).
Proof.
  intros xs started settled Hperm. unfold settled. clear settled.
  destruct (abiAccounts_spec transaction) as [Hnd _]. fold xs in Hnd.
  pose proof (startAll_length abiStart xs w) as Hl. fold started in Hl.
  assert (H1 : order.*1 ≡ₚ xs) by (rewrite Hperm, fst_zip; [reflexivity | lia]).
  assert (H2 : order.*2 ≡ₚ started.1) by (rewrite Hperm, snd_zip; [reflexivity | lia]).
  assert (Hnd' : NoDup order.*1) by (rewrite H1; exact Hnd).
  assert (Hl' : length order.*2 = length order.*1) by (rewrite !length_fmap; reflexivity).
  destruct (abiResume_all order.*1 Hnd' order.*2 started.2 Hl') as (A1 & A2 & A3 & A4 & A5).
  destruct (abiResume_all xs Hnd started.1 started.2 Hl) as (B1 & B2 & B3 & B4 & B5).
  rewrite getTransactionAbis_tasks, Promise_all_eq. simpl. fold xs started.
  split.
  - apply world_eq; [congruence | | congruence | congruence].
    apply map_eq. intros a.
    destruct (decide (a ∈ xs)) as [Hin | Hout].
    + apply list_elem_of_lookup in Hin as [i Hi].
      destruct (lookup_lt_is_Some_2 started.1 i) as [p Hp].
      { rewrite Hl. eapply lookup_lt_Some. exact Hi. }
      rewrite (Forall2_lookup_lr _ _ _ _ _ _ B5 Hi Hp).
      assert (Hz : (a, p) ∈ order).
      { rewrite Hperm. apply list_elem_of_lookup. exists i. apply lookup_zip_Some. auto. }
      apply list_elem_of_lookup in Hz as [j Hj].
      assert (Hj1 : order.*1 !! j = Some a) by (rewrite list_lookup_fmap, Hj; reflexivity).
      assert (Hj2 : order.*2 !! j = Some p) by (rewrite list_lookup_fmap, Hj; reflexivity).
      rewrite (Forall2_lookup_lr _ _ _ _ _ _ A5 Hj1 Hj2). reflexivity.
    + rewrite (B4 a Hout). apply A4. rewrite H1. exact Hout.
  - rewrite (abiResume_fulfilled _ _ _ Hl'), (abiResume_fulfilled _ _ _ Hl), H2.
    reflexivity.
Qed.

(** ** Converting actions *)

Lemma logged_nil (w : World) : logged [] w = w.
Proof. destruct w. unfold logged. simpl. rewrite app_nil_r. reflexivity. Qed.

Lemma getCachedAbi_resume_value (a : string) (p : AbiPending) (w1 w2 : World) :
  (getCachedAbi_resume a p w1).1 = (getCachedAbi_resume a p w2).1.
Proof.
  destruct p as [c|answer]; [reflexivity|]. rewrite !getCachedAbi_resume_asked.
  destruct (fetchedAbi answer); reflexivity.
Qed.

Lemma getCachedAbi_resume_calls (a : string) (p : AbiPending) (w0 : World) :
  calls (getCachedAbi_resume a p w0).2 = calls w0.
Proof.
  destruct p as [c|answer]; [reflexivity|]. rewrite getCachedAbi_resume_asked.
  destruct (fetchedAbi answer); reflexivity.
Qed.

Lemma getContract_resume_value (a : string) (p : ContractPending) (w1 w2 : World) :
  (getContract_resume a p w1).1 = (getContract_resume a p w2).1.
Proof.
  destruct p as [c|q]; [reflexivity|]. rewrite !getContract_resume_abi.
  pose proof (getCachedAbi_resume_value a q w1 w2) as H.
  destruct (getCachedAbi_resume a q w1) as [[ca|e] w1'],
           (getCachedAbi_resume a q w2) as [[ca'|e'] w2']; simpl in *;
    try congruence.
  injection H as ->. destruct (contractOf (abi ca')); reflexivity.
Qed.

Lemma getContract_resume_calls (a : string) (p : ContractPending) (w0 : World) :
  calls (getContract_resume a p w0).2 = calls w0.
Proof.
  destruct p as [c|q]; [reflexivity|]. rewrite getContract_resume_abi.
  pose proof (getCachedAbi_resume_calls a q w0) as H.
  destruct (getCachedAbi_resume a q w0) as [[ca|e] w1]; simpl in *; [|exact H].
  destruct (contractOf (abi ca)); exact H.
Qed.

Lemma getContract_resume_moves (P : Call → Prop) (a : string) (p : ContractPending)
    (w w0 : World) :
  (∀ q, p = AwaitsAbi q → contracts w !! a = None ∧ abiMiss w a q) →
  moves P w w0 → moves P w (getContract_resume a p w0).2.
Proof.
  intros Hq Hm. destruct p as [c|q]; [exact Hm|].
  destruct (Hq q eq_refl) as [Hn Hmiss].
  rewrite getContract_resume_abi.
  pose proof (getCachedAbi_resume_moves P a q w w0 Hmiss Hm) as H1.
  destruct (getCachedAbi_resume a q w0) as [[ca|e] w1]; simpl in *; [|exact H1].
  destruct (contractOf (abi ca)); simpl; [|exact H1].
  apply moves_add_contract; assumption.
Qed.

Section Convert.

Context (f : Contract → string → string → list Authorization → @Payload Json →
             result Action).

Lemma convert_resume_world (action : Action) (p : option ContractPending) (w0 : World) :
  (convert_resume f action p w0).2
  = match p with
    | None => w0
    | Some q => (getContract_resume (account action) q w0).2
    end.
Proof.
  destruct p as [q|]; [|reflexivity]. unfold convert_resume. run.
  destruct (getContract_resume (account action) q w0) as [[c|e] w1]; reflexivity.
Qed.

Lemma convert_resume_value (action : Action) (p : option ContractPending)
    (w1 w2 : World) :
  (convert_resume f action p w1).1 = (convert_resume f action p w2).1.
Proof.
  destruct p as [q|]; [|reflexivity]. unfold convert_resume. run.
  pose proof (getContract_resume_value (account action) q w1 w2) as H.
  destruct (getContract_resume (account action) q w1) as [[c|e] w1'],
           (getContract_resume (account action) q w2) as [[c'|e'] w2']; simpl in *;
    congruence.
Qed.

(** What the start of a task reads is the two caches, and these are as
    they were when [Promise.all] was called. *)
Lemma convert_start_spec (w : World) (action : Action) (w0 : World) :
  cachedAbis w0 = cachedAbis w → contracts w0 = contracts w →
  convert_start action w0
  = match wasmAbiOf (account action) with
    | Some _ => (None, w0)
    | None =>
        match contracts w !! account action with
        | Some c => (Some (CachedContract c), w0)
        | None =>
            match cachedAbis w !! account action with
            | Some ca => (Some (AwaitsAbi (CachedEntry ca)), w0)
            | None =>
                (Some (AwaitsAbi (RawAbiAnswer (getRawAbi (calls w0) (account action)))),
                 logCall (Call_getRawAbi (account action)) w0)
            end
        end
    end.
Proof.
  intros Ha Hc. unfold convert_start, getContract_start, getCachedAbi_start.
  rewrite Ha, Hc. destruct (wasmAbiOf (account action)); [reflexivity|].
  destruct (contracts w !! account action); [reflexivity|].
  destruct (cachedAbis w !! account action); reflexivity.
Qed.

(** Awaited at once, the task of an action is [getContract] and then the
    codec. *)
Lemma convert_cut (action : Action) (w : World) :
  wasmAbiOf (account action) = None →
  (convert_resume f action (convert_start action w).1 (convert_start action w).2).1
  = match (getContract (account action) false w).1 with
    | Ok c => f c (account action) (name action) (authorization action) (data action)
    | Throw e => Throw e
    end.
Proof.
  intros Hw. unfold convert_start. rewrite Hw, getContract_cut.
  destruct (getContract_start (account action) false w) as [p w1]. simpl.
  unfold convert_resume. run.
  destruct (getContract_resume (account action) p w1) as [[c|e] w2]; reflexivity.
Qed.

Lemma convertActions_moves (actions : list Action) (w : World) :
  moves (fetchesAmong (map account actions)) w
    (Promise_all convert_start (convert_resume f) actions w).2.
Proof.
  apply (Promise_all_inv convert_start (convert_resume f)
           (λ w0, moves (fetchesAmong (map account actions)) w w0
                  ∧ cachedAbis w0 = cachedAbis w ∧ contracts w0 = contracts w)
           (moves (fetchesAmong (map account actions)) w)
           (convertMiss w)).
  - intros x w0 Hx (Hm & Ha & Hc). rewrite (convert_start_spec w x w0 Ha Hc).
    destruct (wasmAbiOf (account x)) eqn:Hw; simpl.
    { split; [auto|]. intros q [=]. }
    destruct (contracts w !! account x) eqn:Hcx; simpl.
    { split; [auto|]. intros q [=]. }
    destruct (cachedAbis w !! account x) eqn:Hax; simpl.
    { split; [auto|]. intros q [= <-]. split; [exact Hcx|]. intros answer [=]. }
    split.
    + split; [|auto]. eapply moves_trans; [exact Hm|]. apply moves_call.
      exists (account x). split; [reflexivity|]. split; [|exact Hw].
      apply list_elem_of_In, in_map, list_elem_of_In. exact Hx.
    + intros q [= <-]. split; [exact Hcx|]. intros answer _. exact Hax.
  - intros x p w0 Hq Hm. rewrite convert_resume_world. destruct p as [q|]; [|exact Hm].
    apply getContract_resume_moves; [|exact Hm]. intros q' ->. apply (Hq q' eq_refl).
  - intros w0 (Hm & _). exact Hm.
  - split; [apply moves_refl | auto].
Qed.

Lemma convertActions_cached (actions : list Action) (w : World) :
  (∀ x, x ∈ actions → wasmAbiOf (account x) = None →
        is_Some (cachedAbis w !! account x)) →
  calls (Promise_all convert_start (convert_resume f) actions w).2 = calls w
  ∧ cachedAbis (Promise_all convert_start (convert_resume f) actions w).2 = cachedAbis w.
Proof.
  intros Hc.
  apply (Promise_all_inv convert_start (convert_resume f)
           (λ w0, w0 = w)
           (λ w0, calls w0 = calls w ∧ cachedAbis w0 = cachedAbis w)
           (λ _ p, ∀ q, p = Some (AwaitsAbi q) → ∃ ca, q = CachedEntry ca)).
  - intros x w0 Hx ->. rewrite (convert_start_spec w x w eq_refl eq_refl).
    destruct (wasmAbiOf (account x)) eqn:Hw; simpl.
    { split; [reflexivity|]. intros q [=]. }
    destruct (contracts w !! account x); simpl.
    { split; [reflexivity|]. intros q [=]. }
    destruct (Hc x Hx Hw) as [ca Hca]. rewrite Hca. simpl.
    split; [reflexivity|]. intros q [= <-]. eauto.
  - intros x p w0 Hq [H1 H2]. rewrite convert_resume_world.
    destruct p as [[c|q]|]; [simpl; auto | | simpl; auto].
    destruct (Hq q eq_refl) as [ca ->]. rewrite getContract_resume_abi. simpl.
    destruct (contractOf (abi ca)); simpl; auto.
  - intros w0 ->. auto.
  - reflexivity.
Qed.

(** The state once every task has started. *)
Lemma convert_started (w : World) (actions : list Action) (w0 : World) :
  cachedAbis w0 = cachedAbis w → contracts w0 = contracts w →
  (startAll convert_start actions w0).2 = logged (asked w actions) w0.
Proof.
  revert w0. induction actions as [|x actions IH]; intros w0 Ha Hc.
  - symmetry. apply logged_nil.
  - rewrite startAll_cons. simpl.
    assert (Hs : (convert_start x w0).2
                 = if asksAbi w x then logCall (Call_getRawAbi (account x)) w0 else w0).
    { rewrite (convert_start_spec w x w0 Ha Hc). unfold asksAbi.
      destruct (wasmAbiOf (account x)); [reflexivity|].
      destruct (contracts w !! account x); [reflexivity|].
      destruct (cachedAbis w !! account x); reflexivity. }
    rewrite Hs. unfold asked. simpl. destruct (asksAbi w x); simpl.
    + rewrite IH by assumption. unfold logged. simpl. rewrite <- app_assoc. reflexivity.
    + apply IH; assumption.
Qed.

(** All of [serializeActions] and [deserializeActions]: the fetches logged
    whatever the outcome, and the converted actions when all tasks are
    fulfilled. *)
Lemma convertActions_run (actions : list Action) (w : World) :
  calls (Promise_all convert_start (convert_resume f) actions w).2
    = calls w ++ asked w actions
  ∧ ∀ outs, (Promise_all convert_start (convert_resume f) actions w).1 = Ok outs →
      length outs = length actions
      ∧ ∀ i action out, actions !! i = Some action → outs !! i = Some out →
          convertedAt f w (take i actions) action out
          ∧ ∀ c, wasmAbiOf (account action) = None →
                 contracts w !! account action = Some c →
                 f c (account action) (name action) (authorization action)
                   (data action) = Ok out.
Proof.
  rewrite Promise_all_eq. simpl.
  pose proof (startAll_length convert_start actions w) as Hl.
  split.
  - apply (settleAll_inv (convert_resume f)
             (λ w0, calls w0 = calls w ++ asked w actions) (λ _ _, True) actions
             (startAll convert_start actions w).1).
    + intros x p w0 _ H. rewrite convert_resume_world.
      destruct p as [q|]; [|exact H]. rewrite getContract_resume_calls. exact H.
    + apply Forall2_true; [auto | symmetry; exact Hl].
    + rewrite (convert_started w actions w eq_refl eq_refl). reflexivity.
  - intros outs Hf. apply fulfilled_Ok in Hf.
    assert (Hlen : length outs = length actions).
    { rewrite <- (length_map Ok outs), <- Hf. apply settleAll_length. exact Hl. }
    split; [exact Hlen|]. intros i action out Hi Ho.
    pose proof (startAll_each convert_start actions w i action Hi) as Hp.
    rewrite (convert_started w (take i actions) w eq_refl eq_refl) in Hp.
    set (wi := logged (asked w (take i actions)) w) in *.
    pose proof (settleAll_each (convert_resume f) actions _
                  (startAll convert_start actions w).2 (convert_start action wi).2
                  i action _ (convert_resume_value) Hi Hp) as Hr.
    rewrite Hf, list_lookup_fmap, Ho in Hr. simpl in Hr. injection Hr as Hr.
    assert (Hconv : convertedAt f w (take i actions) action out).
    { unfold convertedAt. fold wi. destruct (wasmAbiOf (account action)) eqn:Hw.
      - unfold convert_start in Hr. rewrite Hw in Hr. simpl in Hr.
        injection Hr as ->. reflexivity.
      - rewrite (convert_cut action wi Hw) in Hr.
        destruct (getContract (account action) false wi).1 as [c|e]; [|discriminate].
        exists c. auto. }
    split; [exact Hconv|]. intros c Hw Hc. unfold convertedAt in Hconv.
    rewrite Hw in Hconv. destruct Hconv as (c' & Hg & Hout).
    rewrite (getContract_hit (account action) (logged (asked w (take i actions)) w) c Hc)
      in Hg.
    injection Hg as <-. exact Hout.
Qed.

End Convert.

Lemma serializeActions_loop (actions : list Action) :
  serializeActions actions = Promise_all convert_start (convert_resume serializeAction) actions.
Proof. reflexivity. Qed.

Lemma deserializeActions_loop
    (deserializeAction : Contract → string → string → list Authorization →
                         @Payload Json → result Action)
    (actions : list Action) :
  deserializeActions deserializeAction actions
  = Promise_all convert_start (convert_resume deserializeAction) actions.
Proof. reflexivity. Qed.

(** X3. [serializeActions] and [deserializeActions] start the task of every
    action before any of them resumes.  Whatever the outcome, the fetches
    logged are those of the actions, in their order, whose account is no
    WASM account and has neither a contract nor an ABI cached at the call:
    one for each such action, also when two of them have the same account.
    When all tasks are fulfilled, the output has the actions of the input in
    the same number and order: an action of a WASM account is the input
    action itself, and every other one is what the codec makes of the
    account, name, authorization and data of the input action with the
    contract that [getContract] resolves to in the state in which the task
    was started; that is the cached contract when there is one. *)
Theorem convertActions_shape
    (deserializeAction : Contract → string → string → list Authorization →
                         @Payload Json → result Action)
    (actions : list Action) (w : World) :
  (calls (serializeActions actions w).2 = calls w ++ asked w actions
   ∧ ∀ outs, (serializeActions actions w).1 = Ok outs →
       length outs = length actions
       ∧ ∀ i action out, actions !! i = Some action → outs !! i = Some out →
           convertedAt serializeAction w (take i actions) action out
           ∧ ∀ c, wasmAbiOf (account action) = None →
                  contracts w !! account action = Some c →
                  serializeAction c (account action) (name action)
                    (authorization action) (data action) = Ok out)
  ∧ (calls (deserializeActions deserializeAction actions w).2
     = calls w ++ asked w actions
     ∧ ∀ outs, (deserializeActions deserializeAction actions w).1 = Ok outs →
         length outs = length actions
         ∧ ∀ i action out, actions !! i = Some action → outs !! i = Some out →
             convertedAt deserializeAction w (take i actions) action out
             ∧ ∀ c, wasmAbiOf (account action) = None →
                    contracts w !! account action = Some c →
                    deserializeAction c (account action) (name action)
                      (authorization action) (data action) = Ok out).
Proof.
  split.
  - rewrite serializeActions_loop. apply convertActions_run.
  - rewrite deserializeActions_loop. apply convertActions_run.
Qed.

(** X4. After [getTransactionAbis] has succeeded for a transaction, then, as
    long as no ABI entry is lost, converting actions of accounts of that
    transaction asks the ABI provider for nothing: the log stays as it is,
    and so does the ABI cache.  In [transact] the ABIs are therefore fetched
    by [getTransactionAbis] alone. *)
Theorem convertActions_after_abis
    (deserializeAction : Contract → string → string → list Authorization →
                         @Payload Json → result Action)
    (transaction : Transaction) (w w1 w2 : World) (abis : list BinaryAbi)
    (actions : list Action) :
  getTransactionAbis transaction false w = (Ok abis, w1) →
  cachedAbis w1 ⊆ cachedAbis w2 →
  (∀ x, x ∈ actions → account x ∈ txAccounts transaction) →
  (calls (serializeActions actions w2).2 = calls w2
   ∧ cachedAbis (serializeActions actions w2).2 = cachedAbis w2)
  ∧ (calls (deserializeActions deserializeAction actions w2).2 = calls w2
     ∧ cachedAbis (deserializeActions deserializeAction actions w2).2 = cachedAbis w2).
Proof.
  intros Habis Hsub Hin.
  assert (Hc : ∀ x, x ∈ actions → wasmAbiOf (account x) = None →
                    is_Some (cachedAbis w2 !! account x)).
  { intros x Hx Hw. eapply getTransactionAbis_cached; eauto. }
  split.
  - rewrite serializeActions_loop. apply convertActions_cached. exact Hc.
  - rewrite deserializeActions_loop. apply convertActions_cached. exact Hc.
Qed.

(** ** Contracts *)

Lemma getContract_stored (a : string) (reload : bool) (w w1 : World) (c : Contract) :
  getContract a reload w = (Ok c, w1) → contracts w1 !! a = Some c.
Proof.
  destruct (if reload then None else contracts w !! a) as [c0|] eqn:Hm.
  - destruct reload; [discriminate|]. rewrite (getContract_hit _ _ _ Hm).
    intros [= <- <-]. exact Hm.
  - rewrite getContract_build
      by (destruct reload; [left; reflexivity | right; exact Hm]).
    destruct (getCachedAbi a reload w) as [[ca|e] w0]; [|discriminate].
    destruct (getTypesFromAbi (abi ca)) as [types|e]; [|discriminate].
    destruct (actionTypes types (abi_actions (body (abi ca))) ∅); [|discriminate].
    intros [= <- <-]. simpl. apply lookup_insert_eq.
Qed.

(** X5. A contract that [getContract] has returned is returned again, with
    no fetch, by every later call without reload; reloading the ABI through
    [getAbi] does ask the provider but leaves the contract cache alone, so
    the next [getContract] still returns the contract built from the ABI
    that has been replaced. *)
Theorem getContract_survives_abi_reload (a : string) (reload : bool) (w w1 : World)
    (c : Contract) :
  getContract a reload w = (Ok c, w1) →
  getContract a false w1 = (Ok c, w1)
  ∧ (let w2 := (getAbi a true w1).2 in
     calls w2 = calls w1 ++ [Call_getRawAbi a]
     ∧ contracts w2 = contracts w1
     ∧ getContract a false w2 = (Ok c, w2)).
Proof.
  intros H. pose proof (getContract_stored _ _ _ _ _ H) as Hs.
  split; [apply getContract_hit; exact Hs|]. simpl.
  assert (Hw : (getAbi a true w1).2 = (getCachedAbi a true w1).2).
  { unfold getAbi. run. destruct (getCachedAbi a true w1) as [[ca|e] w2]; reflexivity. }
  rewrite Hw. destruct (getCachedAbi_contracts a true w1) as [Hc _].
  split; [|split; [exact Hc | apply getContract_hit; congruence]].
  rewrite getCachedAbi_fetch by auto. simpl.
  destruct (getRawAbi (calls w1) a) as [r|e]; simpl; [|reflexivity].
  destruct (rawAbiToJson (gra_abi r)); reflexivity.
Qed.

(** X6. When [getContract] has fetched or found the ABI but the contract
    cannot be built from it (the types of the ABI, or the type of one of
    its actions, are rejected by the serializer), the serializer's error is
    thrown as it is, without the prefix that [getCachedAbi] gives to its own
    errors; the ABI stays in the cache and no contract is stored. *)
Theorem getContract_unbuildable (a : string) (reload : bool) (w w1 : World)
    (ca : CachedAbi) (e : JsError) :
  reload = true ∨ contracts w !! a = None →
  getCachedAbi a reload w = (Ok ca, w1) →
  getTypesFromAbi (abi ca) = Throw e
  ∨ (∃ types, getTypesFromAbi (abi ca) = Ok types
              ∧ actionTypes types (abi_actions (body (abi ca))) ∅ = Throw e) →
  getContract a reload w = (Throw e, w1)
  ∧ cachedAbis w1 !! a = Some ca
  ∧ contracts w1 = contracts w.
Proof.
  intros Hm Hca Hfail. rewrite getContract_build by exact Hm. rewrite Hca.
  destruct (getCachedAbi_contracts a reload w) as [Hc _]. rewrite Hca in Hc.
  split; [|split; [eapply getCachedAbi_stored; exact Hca | exact Hc]].
  destruct Hfail as [-> | (types & -> & ->)]; reflexivity.
Qed.

Lemma actionTypes_lookup (types : Types) (l : list (string * string))
    (acc m : gmap string SerType) (name : string) :
  actionTypes types l acc = Ok m →
  match lastType name l with
  | Some type => ∃ t, getType types type = Ok t ∧ m !! name = Some t
  | None => m !! name = acc !! name
  end.
Proof.
  revert acc. induction l as [|[n type] l IH]; intros acc; simpl.
  - intros [= <-]. reflexivity.
  - unfold mbind, result_bind. destruct (getType types type) as [t|e] eqn:Ht;
      [|discriminate].
    intros H. specialize (IH _ H).
    destruct (lastType name l) as [type'|]; [exact IH|].
    rewrite IH. destruct (String.eqb n name) eqn:Hn.
    + apply String.eqb_eq in Hn as ->. exists t. split; [exact Ht|].
      apply lookup_insert_eq.
    + apply String.eqb_neq in Hn. apply lookup_insert_ne. exact Hn.
Qed.

(** X7. The action table of a contract that [getContract] builds: an action
    name that the ABI declares is bound to the codec of the type that its
    last declaration names, and a name that the ABI does not declare is not
    in the table. *)
Theorem getContract_actions (a : string) (reload : bool) (w w1 : World)
    (c : Contract) (name : string) :
  reload = true ∨ contracts w !! a = None →
  getContract a reload w = (Ok c, w1) →
  ∃ ca, cachedAbis w1 !! a = Some ca
        ∧ getTypesFromAbi (abi ca) = Ok (types c)
        ∧ match lastType name (abi_actions (body (abi ca))) with
          | Some type => ∃ t, getType (types c) type = Ok t ∧ actions c !! name = Some t
          | None => actions c !! name = None
          end.
Proof.
  intros Hm. rewrite getContract_build by exact Hm.
  destruct (getCachedAbi a reload w) as [[ca|e] w0] eqn:Hca; [|discriminate].
  destruct (getTypesFromAbi (abi ca)) as [ts|e] eqn:Hts; [|discriminate].
  destruct (actionTypes ts (abi_actions (body (abi ca))) ∅) as [m|e] eqn:Hat;
    [|discriminate].
  intros [= <- <-]. exists ca. simpl.
  split; [eapply getCachedAbi_stored; exact Hca|]. split; [exact Hts|].
  pose proof (actionTypes_lookup _ _ _ _ name Hat) as H.
  destruct (lastType name (abi_actions (body (abi ca)))); [exact H|].
  rewrite H. apply lookup_empty.
Qed.

(** ** The calls of [transact], stage by stage *)

Lemma fetchesAmong_mono (l l' : list string) (c : Call) :
  (∀ a, a ∈ l → a ∈ l') → fetchesAmong l c → fetchesAmong l' c.
Proof. intros H (a & -> & Ha & Hw). exists a. auto. Qed.

(** What [resolveTapos] logs and touches. *)
Lemma resolveTapos_trace (transaction : Transaction) (config : TransactConfig)
    (w : World) :
  let generation :=
    (is_Some' (blocksBehind config) || flag (useLastIrreversible config))
    && number_truthy (expireSeconds config) in
  ∃ l, calls (resolveTapos transaction config w).2 = calls w ++ l
       ∧ Forall (λ c, isTaposCall c = true) l
       ∧ (length (List.filter isInfoCall l) ≤ 1)%nat
       ∧ (generation = false → Forall (λ c, isInfoCall c = true) l)
       ∧ (chainId_truthy (chainId w) = true → generation = false → l = [])
       ∧ cachedAbis (resolveTapos transaction config w).2 = cachedAbis w
       ∧ contracts (resolveTapos transaction config w).2 = contracts w
       ∧ (chainId_truthy (chainId w) = true →
          chainId (resolveTapos transaction config w).2 = chainId w)
       ∧ (∀ tx', (resolveTapos transaction config w).1 = Ok tx' →
                 txAccounts tx' = txAccounts transaction
                 ∧ context_free_actions tx' = context_free_actions transaction
                 ∧ tx_actions tx' = tx_actions transaction
                 ∧ context_free_data tx' = context_free_data transaction).
Proof.
  simpl. unfold resolveTapos, generateTapos, tryGetBlockHeaderState.
  destruct (is_Some' (blocksBehind config) && flag (useLastIrreversible config)).
  { exists []. rewrite app_nil_r. simpl. repeat split; auto; discriminate. }
  run.
  destruct (chainId_truthy (chainId w)) eqn:Hc; simpl;
    destruct ((is_Some' (blocksBehind config) || flag (useLastIrreversible config))
              && number_truthy (expireSeconds config)); simpl;
    repeat match goal with
           | |- context [match ?x with Ok _ => _ | Throw _ => _ end] =>
               destruct x; simpl
           | |- context [if ?c then _ else _] => destruct c; simpl
           end;
    rewrite <- ?app_assoc; simpl;
    (eexists; split; [try reflexivity; symmetry; apply app_nil_r|]);
    simpl; repeat split; auto; try lia; try discriminate;
    try reflexivity;
    try (match goal with H : Ok _ = Ok _ |- _ => injection H as <- end; reflexivity);
    intros; discriminate.
Qed.

(** What [assemble] logs and touches. *)
Lemma assemble_trace (transaction : Transaction) (config : TransactConfig) (w : World) :
  ∃ abis keys signs,
    calls (assemble transaction config w).2 = calls w ++ abis ++ keys ++ signs
    ∧ Forall (fetchesAmong (txAccounts transaction)) abis
    ∧ abis = (if hasRequiredTaposFields transaction
              then map Call_getRawAbi (uncached w (abiAccounts transaction))
              else [])
    ∧ Forall (λ c, isKeyCall c = true) keys ∧ (length keys ≤ 2)%nat
    ∧ Forall (λ c, isSignCall c = true) signs ∧ (length signs ≤ 1)%nat
    ∧ (default true (sign config) = false → keys = [] ∧ signs = [])
    ∧ (is_Some (requiredKeys config) → keys = [])
    ∧ cachedAbis w ⊆ cachedAbis (assemble transaction config w).2
    ∧ cachedAbis (assemble transaction config w).2
      = (if hasRequiredTaposFields transaction
         then cachedAbis (getTransactionAbis transaction false w).2
         else cachedAbis w)
    ∧ contracts w ⊆ contracts (assemble transaction config w).2
    ∧ chainId (assemble transaction config w).2 = chainId w
    ∧ (coherent w → coherent (assemble transaction config w).2).
Proof.
  assert (Hstop : ∀ w3 : World, moves (fetchesAmong (txAccounts transaction)) w w3 →
            ∀ (fetched keys signs : list Call) (w' : World) (S R : Prop)
              (abiCache : gmap string CachedAbi),
              calls w3 = calls w ++ fetched →
              cachedAbis w3 = abiCache →
              calls w' = calls w3 ++ keys ++ signs →
              cachedAbis w' = cachedAbis w3 → contracts w' = contracts w3 →
              chainId w' = chainId w3 →
              Forall (λ c, isKeyCall c = true) keys → (length keys ≤ 2)%nat →
              Forall (λ c, isSignCall c = true) signs → (length signs ≤ 1)%nat →
              (S → keys = [] ∧ signs = []) →
              (R → keys = []) →
              ∃ abis keys signs,
                calls w' = calls w ++ abis ++ keys ++ signs
                ∧ Forall (fetchesAmong (txAccounts transaction)) abis
                ∧ abis = fetched
                ∧ Forall (λ c, isKeyCall c = true) keys ∧ (length keys ≤ 2)%nat
                ∧ Forall (λ c, isSignCall c = true) signs ∧ (length signs ≤ 1)%nat
                ∧ (S → keys = [] ∧ signs = [])
                ∧ (R → keys = [])
                ∧ cachedAbis w ⊆ cachedAbis w'
                ∧ cachedAbis w' = abiCache
                ∧ contracts w ⊆ contracts w'
                ∧ chainId w' = chainId w
                ∧ (coherent w → coherent w')).
  { intros w3 ((l & E & F) & HA & HC & HI & Hco) fetched keys signs w' S R abiCache Ef
      Eca E' HA' HC' HI' Fk Lk Fs Ls Hs Hr.
    assert (l = fetched) as -> by (rewrite E in Ef; apply app_inv_head in Ef; exact Ef).
    exists fetched, keys, signs.
    split; [rewrite E', E, <- app_assoc; reflexivity|].
    rewrite HA', HC', HI'.
    split; [exact F|]. split; [reflexivity|]. split; [exact Fk|]. split; [exact Lk|].
    split; [exact Fs|]. split; [exact Ls|]. split; [exact Hs|]. split; [exact Hr|].
    split; [exact HA|]. split; [exact Eca|]. split; [exact HC|]. split; [exact HI|].
    intros Hw. unfold coherent. rewrite HA'. apply (Hco Hw). }
  assert (Hquiet : ∀ (w3 : World) (fetched : list Call) (S R : Prop)
              (abiCache : gmap string CachedAbi),
            moves (fetchesAmong (txAccounts transaction)) w w3 →
            calls w3 = calls w ++ fetched →
            cachedAbis w3 = abiCache →
            ∃ abis keys signs,
              calls w3 = calls w ++ abis ++ keys ++ signs
              ∧ Forall (fetchesAmong (txAccounts transaction)) abis
              ∧ abis = fetched
              ∧ Forall (λ c, isKeyCall c = true) keys ∧ (length keys ≤ 2)%nat
              ∧ Forall (λ c, isSignCall c = true) signs ∧ (length signs ≤ 1)%nat
              ∧ (S → keys = [] ∧ signs = [])
              ∧ (R → keys = [])
              ∧ cachedAbis w ⊆ cachedAbis w3
              ∧ cachedAbis w3 = abiCache
              ∧ contracts w ⊆ contracts w3
              ∧ chainId w3 = chainId w
              ∧ (coherent w → coherent w3)).
  { intros w3 fetched S R abiCache Hw3 Ef Eca.
    apply (Hstop w3 Hw3 fetched [] [] w3 S R abiCache); auto; try (simpl; lia).
    simpl. rewrite app_nil_r. reflexivity. }
  unfold assemble.
  destruct (hasRequiredTaposFields transaction); simpl.
  2: { apply Hquiet; [apply moves_refl | rewrite app_nil_r; reflexivity | reflexivity]. }
  run.
  pose proof (getTransactionAbis_moves transaction w) as HA.
  destruct (getTransactionAbis_run transaction w) as (HL & _).
  destruct (getTransactionAbis transaction false w) as [[abis|e] w1] eqn:Habis;
    simpl in *; [|apply Hquiet; [exact HA | exact HL | reflexivity]].
  assert (Hcached : ∀ (actions : list Action) (w2 : World),
            cachedAbis w2 = cachedAbis w1 →
            (∀ x, x ∈ actions → account x ∈ txAccounts transaction) →
            calls (serializeActions actions w2).2 = calls w2
            ∧ cachedAbis (serializeActions actions w2).2 = cachedAbis w2).
  { intros actions w2 Hw2 Hin. rewrite serializeActions_loop.
    apply convertActions_cached. intros x Hx Hw.
    eapply getTransactionAbis_cached;
      [exact Habis | rewrite Hw2; reflexivity | apply Hin; exact Hx | exact Hw]. }
  assert (Hcfa : ∀ x, x ∈ default [] (context_free_actions transaction) →
                      account x ∈ txAccounts transaction).
  { intros x Hx. unfold txAccounts. rewrite map_app. apply elem_of_app. left.
    apply list_elem_of_In, in_map, list_elem_of_In. exact Hx. }
  assert (Hacts : ∀ x, x ∈ tx_actions transaction → account x ∈ txAccounts transaction).
  { intros x Hx. unfold txAccounts. rewrite map_app. apply elem_of_app. right.
    apply list_elem_of_In, in_map, list_elem_of_In. exact Hx. }
  assert (HB : moves (fetchesAmong (txAccounts transaction)) w1
                 (serializeActions (default [] (context_free_actions transaction)) w1).2).
  { rewrite serializeActions_loop. eapply moves_weaken; [|apply convertActions_moves].
    intros c. apply fetchesAmong_mono. intros a Ha. unfold txAccounts.
    rewrite map_app. apply elem_of_app. left. exact Ha. }
  destruct (Hcached _ w1 eq_refl Hcfa) as [L2 C2].
  destruct (serializeActions (default [] (context_free_actions transaction)) w1)
    as [[cfa|e] w2]; simpl in *;
    [|apply Hquiet; [eapply moves_trans; eassumption | congruence | exact C2]].
  assert (HC : moves (fetchesAmong (txAccounts transaction)) w2
                 (serializeActions (tx_actions transaction) w2).2).
  { rewrite serializeActions_loop. eapply moves_weaken; [|apply convertActions_moves].
    intros c. apply fetchesAmong_mono. intros a Ha. unfold txAccounts.
    rewrite map_app. apply elem_of_app. right. exact Ha. }
  destruct (Hcached _ w2 C2 Hacts) as [L3 C3].
  destruct (serializeActions (tx_actions transaction) w2) as [[acts|e] w3]; simpl in *;
    [|apply Hquiet; [eapply moves_trans; [eapply moves_trans|]; eassumption
                    | congruence | congruence]].
  assert (H3 : moves (fetchesAmong (txAccounts transaction)) w w3)
    by (eapply moves_trans; [eapply moves_trans|]; eassumption).
  assert (E3 : calls w3 = calls w ++ map Call_getRawAbi (uncached w (abiAccounts transaction)))
    by congruence.
  assert (Eca : cachedAbis w3 = cachedAbis w1) by congruence.
  destruct (serializeTransaction _) as [st|e]; simpl; [|apply Hquiet; assumption].
  destruct (default true (sign config)) eqn:Hsign; simpl; [|apply Hquiet; assumption].
  destruct (requiredKeys config) as [given|] eqn:Hreq; simpl.
  - match goal with
    | |- context [logCall ?c w3] =>
        apply (Hstop w3 H3 _ [] [c] (logCall c w3) _ _ _ E3 Eca);
          [reflexivity | reflexivity | reflexivity | reflexivity
          |constructor | simpl; lia | repeat constructor | simpl; lia
          |discriminate | reflexivity]
    end.
  - destruct (getAvailableKeys (calls w3)) as [available|e]; simpl.
    + match goal with
      | |- context [getRequiredKeys ?l ?t ?k] =>
          destruct (getRequiredKeys l t k) as [keys|e] eqn:Hk; simpl
      end.
      * match goal with
        | |- context [logCall ?c (logCall ?c2 (logCall ?c1 w3))] =>
            apply (Hstop w3 H3 _ [c1; c2] [c] (logCall c (logCall c2 (logCall c1 w3)))
                     _ _ _ E3 Eca);
              [simpl; rewrite <- !app_assoc; reflexivity
              |reflexivity | reflexivity | reflexivity
              |repeat constructor | simpl; lia | repeat constructor | simpl; lia
              |discriminate | intros [? [=]]]
        end.
      * match goal with
        | |- context [logCall ?c2 (logCall ?c1 w3)] =>
            apply (Hstop w3 H3 _ [c1; c2] [] (logCall c2 (logCall c1 w3)) _ _ _ E3 Eca);
              [simpl; rewrite <- !app_assoc; reflexivity
              |reflexivity | reflexivity | reflexivity
              |repeat constructor | simpl; lia | constructor | simpl; lia
              |discriminate | intros [? [=]]]
        end.
    + apply (Hstop w3 H3 _ [Call_getAvailableKeys] [] (logCall Call_getAvailableKeys w3)
               _ _ _ E3 Eca);
        [reflexivity | reflexivity | reflexivity | reflexivity
        |repeat constructor | simpl; lia | constructor | simpl; lia
        |discriminate | intros [? [=]]].
Qed.

Lemma fetchesAmong_eq (l l' : list string) (c : Call) :
  l = l' → fetchesAmong l c → fetchesAmong l' c.
Proof. intros ->. auto. Qed.

(** Everything that [transact] logs and touches. *)
Lemma transact_trace (transaction : Transaction) (config : TransactConfig) (w : World) :
  let generation :=
    (is_Some' (blocksBehind config) || flag (useLastIrreversible config))
    && number_truthy (expireSeconds config) in
  let w' := (transact transaction config w).2 in
  ∃ tapos abis keys signs sends,
    calls w' = calls w ++ tapos ++ abis ++ keys ++ signs ++ sends
    ∧ (Forall (λ c, isTaposCall c = true) tapos
       ∧ (length (List.filter isInfoCall tapos) ≤ 1)%nat
       ∧ (generation = false → Forall (λ c, isInfoCall c = true) tapos)
       ∧ (chainId_truthy (chainId w) = true → generation = false → tapos = []))
    ∧ (Forall (fetchesAmong (txAccounts transaction)) abis
       ∧ abis = match (resolveTapos transaction config w).1 with
                | Ok tx' =>
                    if hasRequiredTaposFields tx'
                    then map Call_getRawAbi (uncached w (abiAccounts transaction))
                    else []
                | Throw _ => []
                end)
    ∧ (Forall (λ c, isKeyCall c = true) keys ∧ (length keys ≤ 2)%nat)
    ∧ (Forall (λ c, isSignCall c = true) signs ∧ (length signs ≤ 1)%nat)
    ∧ (Forall (λ c, isSendCall c = true) sends ∧ (length sends ≤ 1)%nat)
    ∧ (default true (sign config) = false → keys = [] ∧ signs = [])
    ∧ (is_Some (requiredKeys config) → keys = [])
    ∧ (default true (broadcast config) = false → sends = [])
    ∧ cachedAbis w ⊆ cachedAbis w'
    ∧ contracts w ⊆ contracts w'
    ∧ (chainId_truthy (chainId w) = true → chainId w' = chainId w)
    ∧ (coherent w → coherent w')
    ∧ cachedAbis w'
      = match resolveTapos transaction config w with
        | (Ok tx', w1) =>
            if hasRequiredTaposFields tx'
            then cachedAbis (getTransactionAbis tx' false w1).2
            else cachedAbis w
        | (Throw _, _) => cachedAbis w
        end.
Proof.
  simpl. unfold transact. run.
  destruct (resolveTapos_trace transaction config w)
    as (tapos & Et & Ft & Lt & Gt & Ct & HA & HC & HI & Htx).
  simpl in *.
  destruct (resolveTapos transaction config w) as [[tx'|e] w1]; simpl in *.
  - destruct (Htx tx' eq_refl) as (Hacc & _).
    destruct (assemble_trace tx' config w1)
      as (abis & keys & signs & Ea & Fa & Xa & Fk & Lk & Fs & Ls & Hs & Hr
          & HA' & Eca & HC' & HI' & Hco).
    assert (Fa' : Forall (fetchesAmong (txAccounts transaction)) abis)
      by (eapply Forall_impl; [exact Fa|]; intros c; apply fetchesAmong_eq; exact Hacc).
    assert (Xa' : abis = (if hasRequiredTaposFields tx'
                          then map Call_getRawAbi (uncached w (abiAccounts transaction))
                          else [])).
    { rewrite Xa. unfold abiAccounts, uncached. rewrite Hacc, HA. reflexivity. }
    assert (Hcoh : coherent w → coherent (assemble tx' config w1).2)
      by (intros Hw; apply Hco; unfold coherent; rewrite HA; exact Hw).
    clear Xa.
    destruct (assemble tx' config w1) as [[a|e] w2]; simpl in *.
    + destruct (default true (broadcast config)) eqn:Hb; simpl.
      * exists tapos, abis, keys, signs, [Call_send_transaction a].
        assert (Hw2 : ∀ r : result TransactResult,
                  calls (match r with
                         | Ok a0 => (Ok (Response (decodeTraces a0)),
                                     logCall (Call_send_transaction a) w2)
                         | Throw e => (Throw e, logCall (Call_send_transaction a) w2)
                         end).2 = calls w2 ++ [Call_send_transaction a]
                  ∧ (match r with
                     | Ok a0 => (Ok (Response (decodeTraces a0)),
                                 logCall (Call_send_transaction a) w2)
                     | Throw e => (Throw e, logCall (Call_send_transaction a) w2)
                     end).2 = logCall (Call_send_transaction a) w2)
          by (intros [?|?]; auto).
        destruct (Hw2 (send_transaction (calls w2) a)) as [Hw2a ->]. simpl.
        split; [rewrite Ea, Et, <- !app_assoc; reflexivity|].
        rewrite <- HA, <- HC.
        repeat (split; [solve [auto | repeat constructor | simpl; lia | discriminate]|]).
        split; [intros Hc; rewrite HI', HI; auto|]. split; [exact Hcoh | exact Eca].
      * exists tapos, abis, keys, signs, [].
        split; [rewrite Ea, Et, <- !app_assoc, app_nil_r; reflexivity|].
        rewrite <- HA, <- HC.
        repeat (split; [solve [auto | repeat constructor | simpl; lia]|]).
        split; [intros Hc; rewrite HI', HI; auto|]. split; [exact Hcoh | exact Eca].
    + exists tapos, abis, keys, signs, [].
      split; [rewrite Ea, Et, <- !app_assoc, app_nil_r; reflexivity|].
      rewrite <- HA, <- HC.
      repeat (split; [solve [auto | repeat constructor | simpl; lia]|]).
      split; [intros Hc; rewrite HI', HI; auto|]. split; [exact Hcoh | exact Eca].
  - exists tapos, [], [], [], []. simpl. rewrite app_nil_r.
    split; [exact Et|]. rewrite HA, HC.
    repeat (split; [solve [auto | repeat constructor | simpl; lia]|]).
    split; [|reflexivity]. unfold coherent. rewrite HA. auto.
Qed.

(** X8. The remote calls of one [transact], whatever its outcome, come in
    the order of the pipeline: first the calls for the chain id and the
    TAPOS block (node info at most once, and only node info when no TAPOS
    generation is asked for; none at all when moreover the chain id is
    cached); then the ABI fetches; then at most the two key lookups, then at
    most one [sign], then at most one [send_transaction].  The ABI fetches
    are none when the TAPOS stage throws or leaves the TAPOS fields
    incomplete; else they are one for each account of the transaction that
    is no WASM account and has no ABI cached, in the order of first
    appearance, all of them also when one of them fails.  With
    [sign: false] there is no key lookup and no [sign]; with [requiredKeys]
    given there is no key lookup; with [broadcast: false] nothing is
    sent. *)
Theorem transact_calls (transaction : Transaction) (config : TransactConfig) (w : World) :
  let generation :=
    (is_Some' (blocksBehind config) || flag (useLastIrreversible config))
    && number_truthy (expireSeconds config) in
  ∃ tapos abis keys signs sends,
    calls (transact transaction config w).2
      = calls w ++ tapos ++ abis ++ keys ++ signs ++ sends
    ∧ (Forall (λ c, isTaposCall c = true) tapos
       ∧ (length (List.filter isInfoCall tapos) ≤ 1)%nat
       ∧ (generation = false → Forall (λ c, isInfoCall c = true) tapos)
       ∧ (chainId_truthy (chainId w) = true → generation = false → tapos = []))
    ∧ (Forall (fetchesAmong (txAccounts transaction)) abis
       ∧ abis = match (resolveTapos transaction config w).1 with
                | Ok tx' =>
                    if hasRequiredTaposFields tx'
                    then map Call_getRawAbi (uncached w (abiAccounts transaction))
                    else []
                | Throw _ => []
                end)
    ∧ (Forall (λ c, isKeyCall c = true) keys ∧ (length keys ≤ 2)%nat)
    ∧ (Forall (λ c, isSignCall c = true) signs ∧ (length signs ≤ 1)%nat)
    ∧ (Forall (λ c, isSendCall c = true) sends ∧ (length sends ≤ 1)%nat)
    ∧ (default true (sign config) = false → keys = [] ∧ signs = [])
    ∧ (is_Some (requiredKeys config) → keys = [])
    ∧ (default true (broadcast config) = false → sends = []).
Proof.
  destruct (transact_trace transaction config w)
    as (tapos & abis & keys & signs & sends & H1 & H2 & H3 & H4 & H5 & H6 & H7 & H8
        & H9 & _).
  exists tapos, abis, keys, signs, sends. auto 10.
Qed.


(** X10. When [transact] is told neither to sign nor to broadcast and
    succeeds, it returns push arguments without signatures, with the
    compression flag set to 1 exactly when compression was asked for, and
    with the context-free data of the caller's transaction serialized by
    [serializeContextFreeData]. *)
Theorem transact_unsigned (transaction : Transaction) (config : TransactConfig)
    (w w' : World) (out : TransactOutcome) :
  default true (sign config) = false →
  default true (broadcast config) = false →
  transact transaction config w = (Ok out, w') →
  ∃ a, out = Unsent a
       ∧ signatures a = []
       ∧ compression a = (if flag (cfg_compression config) then Some 1 else None)
       ∧ serializedContextFreeData a
         = serializeContextFreeData (context_free_data transaction).
Proof.
  intros Hs Hb. unfold transact. rewrite Hb. run.
  destruct (resolveTapos_trace transaction config w) as (_ & _ & _ & _ & _ & _ & _ & _ & _ & Htx).
  simpl in Htx.
  destruct (resolveTapos transaction config w) as [[tx'|e] w1]; simpl; [|discriminate].
  destruct (Htx tx' eq_refl) as (_ & _ & _ & Hcfd).
  unfold assemble. rewrite Hs.
  destruct (negb (hasRequiredTaposFields tx')); [discriminate|]. run.
  destruct (getTransactionAbis tx' false w1) as [[abis|?] w2]; simpl; [|discriminate].
  destruct (serializeActions _ w2) as [[cfa|?] w3]; simpl; [|discriminate].
  destruct (serializeActions _ w3) as [[acts|?] w4]; simpl; [|discriminate].
  destruct (serializeTransaction _) as [st|?]; simpl; [|discriminate].
  intros [= <- <-]. eexists. split; [reflexivity|]. simpl. rewrite Hcfd. auto.
Qed.

(** ** The reference block *)

(** X11. Which block [generateTapos] asks for, once it has the node info
    [i]: with [useLastIrreversible] it makes the single call [get_block] for
    the last irreversible block; with [blocksBehind = n] it asks for block
    [head_block_num - n], by [get_block] alone when that number is not above
    the last irreversible one, and by [get_block_header_state] first when it
    is.  Nothing but the log is touched. *)
Theorem generateTapos_block (info : option GetInfoResult) (transaction : Transaction)
    (blocksBehind : option Z) (useLastIrreversible : option bool) (expireSeconds : Z)
    (w w0 : World) (i : GetInfoResult) :
  (info = Some i ∧ w0 = w)
  ∨ (info = None ∧ get_info (calls w) = Ok i ∧ w0 = logCall Call_get_info w) →
  let w' := (generateTapos info transaction blocksBehind useLastIrreversible
               expireSeconds w).2 in
  let lib := last_irreversible_block_num i in
  (flag useLastIrreversible = true →
   calls w' = calls w0 ++ [Call_get_block (NumInt lib)])
  ∧ (∀ n, flag useLastIrreversible = false → blocksBehind = Some n →
          (head_block_num i - n <= lib →
           calls w' = calls w0 ++ [Call_get_block (NumInt (head_block_num i - n))])
          ∧ (lib < head_block_num i - n →
             ∃ l, calls w' = calls w0
                    ++ Call_get_block_header_state (NumInt (head_block_num i - n)) :: l
                  ∧ (l = [] ∨ l = [Call_get_block (NumInt (head_block_num i - n))])))
  ∧ cachedAbis w' = cachedAbis w ∧ contracts w' = contracts w ∧ chainId w' = chainId w.
Proof.
  intros Hinfo. simpl.
  assert (Hstart : ∀ k : GetInfoResult → M Transaction,
            (match info with
             | Some i => mret i
             | None => call Call_get_info get_info
             end ≫= k) w = k i w0).
  { intros k. destruct Hinfo as [[-> ->] | (-> & Hi & ->)]; run; [|rewrite Hi]; reflexivity. }
  assert (Hw0 : cachedAbis w0 = cachedAbis w ∧ contracts w0 = contracts w
                ∧ chainId w0 = chainId w)
    by (destruct Hinfo as [[_ ->] | (_ & _ & ->)]; auto).
  unfold generateTapos. rewrite Hstart. unfold taposBlockNumber, tryGetBlockHeaderState.
  split; [|split].
  - intros ->. simpl. rewrite Z.leb_refl. run.
    destruct (get_block (calls w0) _); reflexivity.
  - intros n -> ->. simpl. split; intros Hn.
    + rewrite (proj2 (Z.leb_le _ _) Hn). run.
      destruct (get_block (calls w0) _); reflexivity.
    + rewrite (proj2 (Z.leb_gt _ _) Hn). run.
      destruct (get_block_header_state (calls w0) _); simpl; [exists []; auto|].
      eexists. split; [|right; reflexivity].
      destruct (get_block _ _); simpl; rewrite <- app_assoc; reflexivity.
  - destruct Hw0 as (<- & <- & <-).
    destruct (num_le _ _); run;
      repeat match goal with
             | |- context [match ?x with Ok _ => _ | Throw _ => _ end] =>
                 destruct x; simpl
             end; auto.
Qed.

(** X12. What [generateTapos] returns is the caller's transaction with the
    fields of the header of the fetched block added where the caller gave
    none: a property that the caller supplied keeps its value, and the
    actions and the context-free data are the caller's. *)
Theorem generateTapos_merge (info : option GetInfoResult) (transaction tx' : Transaction)
    (blocksBehind : option Z) (useLastIrreversible : option bool) (expireSeconds : Z)
    (w w' : World) :
  generateTapos info transaction blocksBehind useLastIrreversible expireSeconds w
    = (Ok tx', w') →
  ∃ refBlock,
    (∀ k, props tx' !! k =
          match props transaction !! k with
          | Some v => Some v
          | None => transactionHeader refBlock expireSeconds !! k
          end)
    ∧ context_free_actions tx' = context_free_actions transaction
    ∧ tx_actions tx' = tx_actions transaction
    ∧ context_free_data tx' = context_free_data transaction.
Proof.
  unfold generateTapos, tryGetBlockHeaderState. run. intros H.
  assert (Hs : ∃ refBlock,
            tx' = spreadOver (transactionHeader refBlock expireSeconds) transaction).
  { repeat match type of H with
           | context [match ?x with _ => _ end] => destruct x; simpl in H
           | context [if ?c then _ else _] => destruct c; simpl in H
           end;
      try discriminate; injection H as <- _; eexists; reflexivity. }
  destruct Hs as [refBlock ->]. exists refBlock. simpl.
  split; [|auto]. intros k. rewrite lookup_union.
  destruct (props transaction !! k), (transactionHeader refBlock expireSeconds !! k);
    reflexivity.
Qed.

(** ** The ABI cache, once more *)

(** X13. A call of [getCachedAbi] for one account, with or without reload,
    leaves the entries of all other accounts, the contract cache and the
    chain id as they are, logs at most the one fetch for its account, and
    keeps the ABI cache coherent. *)
Theorem getCachedAbi_frame (a : string) (reload : bool) (w : World) :
  let w' := (getCachedAbi a reload w).2 in
  (∀ b, b ≠ a → cachedAbis w' !! b = cachedAbis w !! b)
  ∧ contracts w' = contracts w
  ∧ chainId w' = chainId w
  ∧ (calls w' = calls w ∨ calls w' = calls w ++ [Call_getRawAbi a])
  ∧ (coherent w → coherent w').
Proof.
  simpl. destruct (getCachedAbi_contracts a reload w) as [Hc Hi].
  split; [|split; [exact Hc|split; [exact Hi|split; [|apply getCachedAbi_coherent]]]].
  - intros b Hb.
    destruct (if reload then None else cachedAbis w !! a) as [c|] eqn:Hm.
    + destruct reload; [discriminate|]. rewrite (getCachedAbi_hit _ _ _ Hm). reflexivity.
    + rewrite getCachedAbi_fetch
        by (destruct reload; [left; reflexivity | right; exact Hm]).
      simpl. destruct (getRawAbi (calls w) a) as [r|e]; simpl; [|reflexivity].
      destruct (rawAbiToJson (gra_abi r)); simpl; [|reflexivity].
      apply lookup_insert_ne. congruence.
  - destruct (if reload then None else cachedAbis w !! a) as [c|] eqn:Hm.
    + destruct reload; [discriminate|]. rewrite (getCachedAbi_hit _ _ _ Hm). auto.
    + rewrite getCachedAbi_fetch
        by (destruct reload; [left; reflexivity | right; exact Hm]).
      simpl. right. destruct (getRawAbi (calls w) a) as [r|e]; simpl; [|reflexivity].
      destruct (rawAbiToJson (gra_abi r)); reflexivity.
Qed.

(** ** After the broadcast, once more *)

(** X14. The decoding after a broadcast leaves the node's response exactly
    as it is when none of its traces belongs to an account registered with
    the WASM ABI provider; in particular when there is no such provider. *)
Theorem decodeTraces_unregistered (r : TransactResult) :
  (wasmAbiProvider = None
   ∨ ∀ p traces trace a,
       processed r = Some p → action_traces p = Some traces → trace ∈ traces →
       act trace = Some a → wasmAbiOf (ta_account a) = None) →
  decodeTraces r = r.
Proof.
  intros H. rewrite decodeTraces_map. destruct r as [id [[[traces|] bn]|]]; simpl;
    [|reflexivity|reflexivity].
  do 4 f_equal. rewrite <- (map_id traces) at 2. apply map_ext_in.
  intros trace Hin. apply decodeTrace_unregistered. intros a Ha.
  destruct H as [Hn | H].
  - unfold wasmAbiOf. rewrite Hn. reflexivity.
  - apply (H _ traces trace a eq_refl eq_refl); [apply list_elem_of_In; exact Hin | exact Ha].
Qed.

(** ** The envelope *)

(** X18. [serializeTransaction] hands to the serializer the caller's
    transaction over the defaults: a property that the caller gave keeps
    its value, one that the caller left out has its default (0 for the
    usage limits and the delay), and missing context-free actions are the
    empty list.  Serializing the transaction with the defaults written out
    gives the same bytes. *)
Theorem serializeTransaction_defaults (transaction : Transaction) :
  ∃ full,
    serializeTransaction transaction = transaction_serialize full
    ∧ (∀ k, props full !! k =
            match props transaction !! k with
            | Some v => Some v
            | None => defaultProps !! k
            end)
    ∧ context_free_actions full = Some (default [] (context_free_actions transaction))
    ∧ tx_actions full = tx_actions transaction
    ∧ context_free_data full = context_free_data transaction
    ∧ defaultProps !! "max_net_usage_words" = Some (VNum (NumInt 0))
    ∧ defaultProps !! "max_cpu_usage_ms" = Some (VNum (NumInt 0))
    ∧ defaultProps !! "delay_sec" = Some (VNum (NumInt 0))
    ∧ serializeTransaction full = serializeTransaction transaction.
Proof.
  eexists. split; [reflexivity|]. simpl.
  split.
  { intros k. rewrite lookup_union.
    destruct (props transaction !! k), (defaultProps !! k); reflexivity. }
  do 6 (split; [reflexivity|]).
  unfold serializeTransaction. simpl. f_equal. f_equal.
  apply map_eq. intros k. rewrite !lookup_union.
  destruct (props transaction !! k), (defaultProps !! k); reflexivity.
Qed.

(** ** The chain id *)

(** The request of every [sign] that [assemble] makes. *)
Lemma assemble_sign_request (transaction : Transaction) (config : TransactConfig)
    (w : World) (l : list Call) :
  calls (assemble transaction config w).2 = calls w ++ l →
  Forall (λ c, ∀ a, c = Call_sign a →
               spa_chainId a = chainId w
               ∧ spa_serializedContextFreeData a
                 = serializeContextFreeData (context_free_data transaction)) l.
Proof.
  set (Q := λ c : Call, ∀ a, c = Call_sign a →
               spa_chainId a = chainId w
               ∧ spa_serializedContextFreeData a
                 = serializeContextFreeData (context_free_data transaction)).
  assert (HQ : ∀ c, fetchesAmong (txAccounts transaction) c → Q c)
    by (intros c (b & -> & _) a [=]).
  assert (Hstop : ∀ (w3 w' : World) (post : list Call),
            moves (fetchesAmong (txAccounts transaction)) w w3 →
            calls w' = calls w3 ++ post → Forall Q post →
            calls w' = calls w ++ l → Forall Q l).
  { intros w3 w' post ((l0 & E & F) & _) E' Fp El.
    rewrite E', E, <- app_assoc in El. apply app_inv_head in El. subst l.
    apply Forall_app. split; [eapply Forall_impl; eauto | exact Fp]. }
  assert (Hquiet : ∀ w3 : World,
            moves (fetchesAmong (txAccounts transaction)) w w3 →
            calls w3 = calls w ++ l → Forall Q l).
  { intros w3 Hm. apply (Hstop w3 w3 [] Hm); [rewrite app_nil_r; reflexivity | constructor]. }
  unfold assemble.
  destruct (negb (hasRequiredTaposFields transaction)).
  { apply Hquiet, moves_refl. }
  run.
  pose proof (getTransactionAbis_moves transaction w) as HA.
  destruct (getTransactionAbis transaction false w) as [[abis|e] w1]; simpl in *;
    [|apply Hquiet; exact HA].
  assert (HB : moves (fetchesAmong (txAccounts transaction)) w1
                 (serializeActions (default [] (context_free_actions transaction)) w1).2).
  { rewrite serializeActions_loop. eapply moves_weaken; [|apply convertActions_moves].
    intros c. apply fetchesAmong_mono. intros a Ha. unfold txAccounts.
    rewrite map_app. apply elem_of_app. left. exact Ha. }
  destruct (serializeActions (default [] (context_free_actions transaction)) w1)
    as [[cfa|e] w2]; simpl in *;
    [|apply Hquiet; eapply moves_trans; eassumption].
  assert (HC : moves (fetchesAmong (txAccounts transaction)) w2
                 (serializeActions (tx_actions transaction) w2).2).
  { rewrite serializeActions_loop. eapply moves_weaken; [|apply convertActions_moves].
    intros c. apply fetchesAmong_mono. intros a Ha. unfold txAccounts.
    rewrite map_app. apply elem_of_app. right. exact Ha. }
  destruct (serializeActions (tx_actions transaction) w2) as [[acts|e] w3]; simpl in *;
    [|apply Hquiet; eapply moves_trans; [eapply moves_trans|]; eassumption].
  assert (H3 : moves (fetchesAmong (txAccounts transaction)) w w3)
    by (eapply moves_trans; [eapply moves_trans|]; eassumption).
  assert (Hchain : chainId w3 = chainId w) by (destruct H3 as (_ & _ & _ & -> & _); reflexivity).
  destruct (serializeTransaction _) as [st|e]; simpl; [|apply Hquiet; exact H3].
  destruct (default true (sign config)); simpl; [|apply Hquiet; exact H3].
  assert (Hsign : ∀ keys st0 abis0,
            Q (Call_sign (mkSignArgs (chainId w3) keys st0
                            (serializeContextFreeData (context_free_data transaction))
                            abis0)))
    by (intros keys st0 abis0 a0 [= <-]; simpl; auto).
  assert (Hkeys : ∀ c : Call, isKeyCall c = true → Q c)
    by (intros [] Hc a0 Ha; try discriminate Ha; discriminate Hc).
  destruct (requiredKeys config) as [given|]; simpl.
  - match goal with
    | |- calls w3 ++ [?c] = _ → _ =>
        apply (Hstop w3 (logCall c w3) [c] H3);
          [reflexivity | constructor; [apply Hsign | constructor]]
    end.
  - destruct (getAvailableKeys (calls w3)) as [available|e]; simpl.
    + match goal with
      | |- context [getRequiredKeys ?l0 ?t ?k] =>
          destruct (getRequiredKeys l0 t k) as [keys|e]; simpl
      end.
      * match goal with
        | |- ((calls w3 ++ [?c1]) ++ [?c2]) ++ [?c] = _ → _ =>
            apply (Hstop w3 (logCall c (logCall c2 (logCall c1 w3))) [c1; c2; c] H3);
              [simpl; rewrite <- !app_assoc; reflexivity
              |constructor; [apply Hkeys; reflexivity|];
               constructor; [apply Hkeys; reflexivity|];
               constructor; [apply Hsign | constructor]]
        end.
      * match goal with
        | |- (calls w3 ++ [?c1]) ++ [?c2] = _ → _ =>
            apply (Hstop w3 (logCall c2 (logCall c1 w3)) [c1; c2] H3);
              [simpl; rewrite <- !app_assoc; reflexivity
              |constructor; [apply Hkeys; reflexivity|];
               constructor; [apply Hkeys; reflexivity | constructor]]
        end.
    + apply (Hstop w3 (logCall Call_getAvailableKeys w3) [Call_getAvailableKeys] H3);
        [reflexivity | constructor; [apply Hkeys; reflexivity | constructor]].
Qed.

(** X19. The chain id of [transact]: a chain id that is cached is kept; with
    none cached, the chain id of the node info that [transact] fetches is
    cached, whatever happens afterwards; and every [sign] request of the
    call carries the chain id that the [Api] holds when the call ends, and
    the context-free data of the caller's transaction as
    [serializeContextFreeData] gives it. *)
Theorem transact_chain_id (transaction : Transaction) (config : TransactConfig)
    (w : World) (l : list Call) :
  is_Some' (blocksBehind config) && flag (useLastIrreversible config) = false →
  calls (transact transaction config w).2 = calls w ++ l →
  (chainId_truthy (chainId w) = true → chainId (transact transaction config w).2 = chainId w)
  ∧ (chainId_truthy (chainId w) = false →
     ∀ info, get_info (calls w) = Ok info →
             chainId (transact transaction config w).2 = Some (chain_id info))
  ∧ Forall (λ c, ∀ a, c = Call_sign a →
                 spa_chainId a = chainId (transact transaction config w).2
                 ∧ spa_serializedContextFreeData a
                   = serializeContextFreeData (context_free_data transaction)) l.
Proof.
  intros Hguard El.
  destruct (resolveTapos_trace transaction config w)
    as (tapos & Et & Ft & _ & _ & _ & _ & _ & HI & Htx).
  assert (Hfresh : chainId_truthy (chainId w) = false →
                   ∀ info, get_info (calls w) = Ok info →
                           chainId (resolveTapos transaction config w).2
                           = Some (chain_id info)).
  { intros Hc info Hi. unfold resolveTapos, generateTapos, tryGetBlockHeaderState.
    rewrite Hguard. run. rewrite Hc. simpl. rewrite Hi. simpl.
    repeat match goal with
           | |- context [match ?x with Ok _ => _ | Throw _ => _ end] =>
               destruct x; simpl
           | |- context [if ?c then _ else _] => destruct c; simpl
           end; reflexivity. }
  assert (Htail : ∀ w1 : World,
            (resolveTapos transaction config w).2 = w1 →
            ∀ (w' : World) (rest : list Call) (cfd : option (list (list Z))),
              calls w' = calls w1 ++ rest → chainId w' = chainId w1 →
              Forall (λ c, ∀ a, c = Call_sign a →
                           spa_chainId a = chainId w1
                           ∧ spa_serializedContextFreeData a
                             = serializeContextFreeData cfd) rest →
              calls w' = calls w ++ l →
              Forall (λ c, ∀ a, c = Call_sign a →
                           spa_chainId a = chainId w'
                           ∧ spa_serializedContextFreeData a
                             = serializeContextFreeData cfd) l).
  { intros w1 Hw1 w' rest cfd E' HI' Fr El'. rewrite Hw1 in Et.
    rewrite E', Et, <- app_assoc in El'. apply app_inv_head in El'. subst l.
    rewrite HI'. apply Forall_app. split; [|exact Fr].
    eapply Forall_impl; [exact Ft|]. intros c Hc a ->. discriminate Hc. }
  revert El Hfresh HI Htail. unfold transact. run.
  destruct (resolveTapos transaction config w) as [[tx'|e] w1]; simpl.
  - intros El Hfresh HI Htail.
    destruct (Htx tx' eq_refl) as (_ & _ & _ & Hcfd).
    destruct (assemble_trace tx' config w1)
      as (abis & keys & signs & Ea & _ & _ & _ & _ & _ & _ & _ & _ & _ & _ & _ & HI' & _).
    pose proof (assemble_sign_request tx' config w1 _ Ea) as Fs. rewrite Hcfd in Fs.
    assert (Hres : ∀ w' : World, chainId w' = chainId (assemble tx' config w1).2 →
              (chainId_truthy (chainId w) = true → chainId w' = chainId w)
              ∧ (chainId_truthy (chainId w) = false →
                 ∀ info, get_info (calls w) = Ok info → chainId w' = Some (chain_id info)))
      by (intros w' ->; rewrite HI'; auto).
    destruct (assemble tx' config w1) as [[a|e] w2]; simpl in *.
    + destruct (default true (broadcast config)); simpl in *.
      * assert (Hw : ∀ r : result TransactResult,
                  (match r with
                   | Ok a0 => (Ok (Response (decodeTraces a0)),
                               logCall (Call_send_transaction a) w2)
                   | Throw e => (Throw e, logCall (Call_send_transaction a) w2)
                   end).2 = logCall (Call_send_transaction a) w2)
          by (intros [?|?]; reflexivity).
        rewrite Hw in *. simpl in *.
        destruct (Hres (logCall (Call_send_transaction a) w2) eq_refl) as [R1 R2].
        split; [exact R1|]. split; [exact R2|].
        apply (Htail w1 eq_refl (logCall (Call_send_transaction a) w2)
                 ((abis ++ keys ++ signs) ++ [Call_send_transaction a])
                 (context_free_data transaction));
          [simpl; rewrite Ea, <- !app_assoc; reflexivity | exact HI' | | exact El].
        apply Forall_app. split; [exact Fs|].
        constructor; [intros s0 Hs0; discriminate Hs0 | constructor].
      * destruct (Hres w2 eq_refl) as [R1 R2].
        split; [exact R1|]. split; [exact R2|].
        apply (Htail w1 eq_refl w2 (abis ++ keys ++ signs)
                 (context_free_data transaction) Ea HI' Fs El).
    + destruct (Hres w2 eq_refl) as [R1 R2].
      split; [exact R1|]. split; [exact R2|].
      apply (Htail w1 eq_refl w2 (abis ++ keys ++ signs)
               (context_free_data transaction) Ea HI' Fs El).
  - intros El Hfresh HI Htail. split; [exact HI|]. split; [exact Hfresh|].
    apply (Htail w1 eq_refl w1 [] (context_free_data transaction));
      [rewrite app_nil_r; reflexivity | reflexivity | constructor | exact El].
Qed.

(** ** Pushing *)

(** X15. [pushSignedTransaction] hands to the node the signatures and the
    two serialized parts of its argument and no compression flag, whatever
    flag the argument carries.  [pushCompressedSignedTransaction] hands over
    the same signatures with the compression flag 1 and both parts deflated;
    context-free data that is absent is sent as the deflation of the empty
    byte array, so that after inflation "absent" and "empty" are the same. *)
Theorem push_requests {PushResult : Type} (deflate inflate : list Z → list Z)
    (a : PushTransactionArgs) :
  (∀ bs, inflate (deflate bs) = bs) →
  ∃ plain compressed packed,
    (∀ push : PushTransactionArgs → result PushResult,
       pushSignedTransaction push a = push plain
       ∧ pushCompressedSignedTransaction deflate push a = push compressed)
    ∧ signatures plain = signatures a
    ∧ compression plain = None
    ∧ serializedTransaction plain = serializedTransaction a
    ∧ serializedContextFreeData plain = serializedContextFreeData a
    ∧ signatures compressed = signatures a
    ∧ compression compressed = Some 1
    ∧ inflate (serializedTransaction compressed) = serializedTransaction a
    ∧ serializedContextFreeData compressed = Some packed
    ∧ inflate packed = default [] (serializedContextFreeData a).
Proof.
  intros Hinf. eexists _, _, _. split; [intros push; split; reflexivity|].
  simpl. unfold deflateSerializedArray. rewrite !Hinf. auto 10.
Qed.

(** ** [query] *)

Section Query.

Context {Query : Type}.
Context (serializeQuery : Query → result (list Z)).
Context (arrayToHex : list Z → string).

Lemma queryTransaction_accounts (refBlock : GetBlockResult) (account : string)
    (authorization : list Authorization) (bytes : list Z) (c : Call) (chain : option string) :
  fetchesAmong (txAccounts (queryTransaction arrayToHex refBlock account authorization bytes)) c →
  queryCall account chain c.
Proof.
  intros (a & -> & Ha & _). simpl. unfold txAccounts in Ha. simpl in Ha.
  apply list_elem_of_singleton in Ha. exact Ha.
Qed.

(** X16. [query] always starts by asking the node for its info, a cached
    chain id notwithstanding, and, once it has the info, for the block at
    the last irreversible block number, by [get_block].  After that it
    fetches at most the ABI of the queried account, looks up keys and signs
    only if [sign] is set (it is not by default), and never asks for a
    header state.  It never stores the chain id of the info it fetched: the
    sign request carries the chain id that was cached before the call
    (none on a fresh [Api]) and no context-free data. *)
Theorem queryRequest_calls (account : string) (query : Query) (config : QueryConfig)
    (w : World) :
  let w' := (queryRequest serializeQuery arrayToHex account query config w).2 in
  match get_info (calls w) with
  | Throw _ => calls w' = calls w ++ [Call_get_info]
  | Ok info =>
      ∃ l, calls w' = calls w
             ++ [Call_get_info; Call_get_block (NumInt (last_irreversible_block_num info))]
             ++ l
           ∧ Forall (queryCall account (chainId w)) l
           ∧ (flag (q_sign config) = false →
              Forall (λ c, isKeyCall c = false ∧ isSignCall c = false) l)
  end
  ∧ chainId w' = chainId w.
Proof.
  simpl. unfold queryRequest. run.
  destruct (get_info (calls w)) as [info|e]; simpl; [|auto].
  set (n := NumInt (last_irreversible_block_num info)).
  set (w2 := logCall (Call_get_block n) (logCall Call_get_info w)).
  assert (Hend : ∀ (P : Call → Prop) (w3 w4 : World) (post : list Call),
            (∀ c, P c → queryCall account (chainId w) c) →
            (∀ c, P c → isKeyCall c = false ∧ isSignCall c = false) →
            moves P w2 w3 →
            calls w4 = calls w3 ++ post → chainId w4 = chainId w3 →
            Forall (queryCall account (chainId w)) post →
            (flag (q_sign config) = false → post = []) →
            (∃ l, calls w4 = calls w ++ [Call_get_info; Call_get_block n] ++ l
                  ∧ Forall (queryCall account (chainId w)) l
                  ∧ (flag (q_sign config) = false →
                     Forall (λ c, isKeyCall c = false ∧ isSignCall c = false) l))
            ∧ chainId w4 = chainId w).
  { intros P w3 w4 post HP HP' ((l & E & F) & _ & _ & HI & _) E4 HI4 Fp Hu.
    split; [|rewrite HI4, HI; reflexivity].
    exists (l ++ post). split; [|split].
    - rewrite E4, E. unfold w2. simpl. rewrite <- !app_assoc. reflexivity.
    - apply Forall_app. split; [eapply Forall_impl; eauto | exact Fp].
    - intros Hs. rewrite (Hu Hs), app_nil_r. eapply Forall_impl; eauto. }
  assert (Hnone : ∀ c : Call, False → queryCall account (chainId w) c) by tauto.
  assert (Hnone' : ∀ c : Call, False → isKeyCall c = false ∧ isSignCall c = false) by tauto.
  assert (Hquiet : ∀ (P : Call → Prop) (w3 : World),
            (∀ c, P c → queryCall account (chainId w) c) →
            (∀ c, P c → isKeyCall c = false ∧ isSignCall c = false) →
            moves P w2 w3 →
            (∃ l, calls w3 = calls w ++ [Call_get_info; Call_get_block n] ++ l
                  ∧ Forall (queryCall account (chainId w)) l
                  ∧ (flag (q_sign config) = false →
                     Forall (λ c, isKeyCall c = false ∧ isSignCall c = false) l))
            ∧ chainId w3 = chainId w).
  { intros P w3 HP HP' Hm. apply (Hend P w3 w3 [] HP HP' Hm); auto.
    rewrite app_nil_r. reflexivity. }
  fold n. fold w2.
  destruct (get_block (calls w ++ [Call_get_info]) n) as [refBlock|e]; simpl;
    [|apply (Hquiet (λ _, False) w2 Hnone Hnone'), moves_refl].
  destruct (serializeQuery query) as [bytes|e]; simpl;
    [|apply (Hquiet (λ _, False) w2 Hnone Hnone'), moves_refl].
  set (tx := queryTransaction arrayToHex refBlock account
               (default [] (q_authorization config)) bytes).
  pose proof (getTransactionAbis_moves tx w2) as HA.
  assert (HP : ∀ c, fetchesAmong (txAccounts tx) c → queryCall account (chainId w) c)
    by (intros c; apply queryTransaction_accounts).
  assert (HP' : ∀ c, fetchesAmong (txAccounts tx) c →
                     isKeyCall c = false ∧ isSignCall c = false)
    by (intros c (a & -> & _); auto).
  destruct (getTransactionAbis tx false w2) as [[abis|e] w3]; simpl in *;
    [|apply (Hquiet _ w3 HP HP' HA)].
  assert (Hchain : chainId w3 = chainId w) by (destruct HA as (_ & _ & _ & -> & _); reflexivity).
  destruct (serializeTransaction tx) as [st|e]; simpl; [|apply (Hquiet _ w3 HP HP' HA)].
  destruct (flag (q_sign config)) eqn:Hsign; simpl; [|apply (Hquiet _ w3 HP HP' HA)].
  destruct (q_requiredKeys config) as [given|]; simpl.
  - match goal with
    | |- context [signatureProvider_sign ?l ?a] =>
        destruct (signatureProvider_sign l a); simpl
    end;
    match goal with
    | |- context [calls w3 ++ [?c]] =>
        apply (Hend _ w3 (logCall c w3) [c] HP HP' HA);
          [reflexivity | reflexivity
          |constructor; [simpl; rewrite Hchain; auto | constructor]
          |discriminate]
    end.
  - destruct (getAvailableKeys (calls w3)) as [available|e]; simpl.
    + match goal with
      | |- context [getRequiredKeys ?l ?t ?k] =>
          destruct (getRequiredKeys l t k) as [keys|e]; simpl
      end.
      * match goal with
        | |- context [signatureProvider_sign ?l ?a] =>
            destruct (signatureProvider_sign l a); simpl
        end;
        match goal with
        | |- context [((calls w3 ++ [?c1]) ++ [?c2]) ++ [?c]] =>
            apply (Hend _ w3 (logCall c (logCall c2 (logCall c1 w3))) [c1; c2; c]
                     HP HP' HA);
              [simpl; rewrite <- !app_assoc; reflexivity | reflexivity
              |repeat constructor; simpl; rewrite Hchain; reflexivity
              |discriminate]
        end.
      * match goal with
        | |- context [(calls w3 ++ [?c1]) ++ [?c2]] =>
            apply (Hend _ w3 (logCall c2 (logCall c1 w3)) [c1; c2] HP HP' HA);
              [simpl; rewrite <- !app_assoc; reflexivity | reflexivity
              |repeat constructor | discriminate]
        end.
    + apply (Hend _ w3 (logCall Call_getAvailableKeys w3) [Call_getAvailableKeys]
               HP HP' HA);
        [reflexivity | reflexivity | repeat constructor | discriminate].
Qed.

(** X17. When [query] gets as far as its post, the body it posts has the
    compression flag 0, an empty [packed_context_free_data], and in
    [packed_trx] the hex of the transaction that [query] serialized itself:
    one action [queryit] on the queried account, with the serialized query
    as its data, over the header of the last irreversible block with an
    expiry of 1800 seconds.  The signatures are empty without [sign];
    with [sign] they are the signature provider's, and nothing else of the
    provider's answer is used. *)
Theorem queryRequest_body (account : string) (query : Query) (config : QueryConfig)
    (w w' : World) (posted : QueryBody) :
  queryRequest serializeQuery arrayToHex account query config w = (Ok posted, w') →
  qb_compression posted = 0
  ∧ packed_context_free_data posted = ""
  ∧ ∃ info refBlock bytes st,
      get_info (calls w) = Ok info
      ∧ get_block (calls w ++ [Call_get_info])
          (NumInt (last_irreversible_block_num info)) = Ok refBlock
      ∧ serializeQuery query = Ok bytes
      ∧ serializeTransaction
          (mkTransaction (transactionHeader (FullBlock refBlock) 1800) (Some [])
             [mkAction account "queryit" (default [] (q_authorization config))
                (Hex (arrayToHex bytes))] None) = Ok st
      ∧ packed_trx posted = arrayToHex st
      ∧ (flag (q_sign config) = false → qb_signatures posted = [])
      ∧ (flag (q_sign config) = true →
         ∃ l request answer,
           signatureProvider_sign l request = Ok answer
           ∧ spa_serializedTransaction request = st
           ∧ qb_signatures posted = signatures answer).
Proof.
  unfold queryRequest. run.
  destruct (get_info (calls w)) as [info|e] eqn:Hi; simpl; [|discriminate].
  destruct (get_block (calls w ++ [Call_get_info]) _) as [refBlock|e] eqn:Hb; simpl;
    [|discriminate].
  destruct (serializeQuery query) as [bytes|e] eqn:Hq; simpl; [|discriminate].
  destruct (getTransactionAbis _ false _) as [[abis|e] w3]; simpl; [|discriminate].
  destruct (serializeTransaction _) as [st|e] eqn:Hst; simpl; [|discriminate].
  assert (Hdone : ∀ sigs : list string,
            posted = mkQueryBody sigs 0 "" (arrayToHex st) →
            (flag (q_sign config) = false → sigs = []) →
            (flag (q_sign config) = true →
             ∃ l request answer,
               signatureProvider_sign l request = Ok answer
               ∧ spa_serializedTransaction request = st
               ∧ sigs = signatures answer) →
            qb_compression posted = 0
            ∧ packed_context_free_data posted = ""
            ∧ ∃ info0 refBlock0 bytes0 st0,
                Ok info = Ok info0
                ∧ get_block (calls w ++ [Call_get_info])
                    (NumInt (last_irreversible_block_num info0)) = Ok refBlock0
                ∧ Ok bytes = Ok bytes0
                ∧ serializeTransaction
                    (mkTransaction (transactionHeader (FullBlock refBlock0) 1800) (Some [])
                       [mkAction account "queryit" (default [] (q_authorization config))
                          (Hex (arrayToHex bytes0))] None) = Ok st0
                ∧ packed_trx posted = arrayToHex st0
                ∧ (flag (q_sign config) = false → qb_signatures posted = [])
                ∧ (flag (q_sign config) = true →
                   ∃ l request answer,
                     signatureProvider_sign l request = Ok answer
                     ∧ spa_serializedTransaction request = st0
                     ∧ qb_signatures posted = signatures answer)).
  { intros sigs -> H1 H2. simpl. split; [reflexivity|]. split; [reflexivity|].
    exists info, refBlock, bytes, st. auto 8. }
  destruct (flag (q_sign config)) eqn:Hsign; simpl.
  - destruct (q_requiredKeys config) as [given|]; simpl.
    + match goal with
      | |- context [signatureProvider_sign ?l ?a] =>
          destruct (signatureProvider_sign l a) as [answer|e] eqn:Hs; simpl;
            [|discriminate];
          intros [= <- _]; apply (Hdone (signatures answer));
            [reflexivity | discriminate | intros _; exists l, a, answer; auto]
      end.
    + destruct (getAvailableKeys _) as [available|e]; simpl; [|discriminate].
      match goal with
      | |- context [getRequiredKeys ?l ?t ?k] =>
          destruct (getRequiredKeys l t k) as [keys|e]; simpl; [|discriminate]
      end.
      match goal with
      | |- context [signatureProvider_sign ?l ?a] =>
          destruct (signatureProvider_sign l a) as [answer|e] eqn:Hs; simpl;
            [|discriminate];
          intros [= <- _]; apply (Hdone (signatures answer));
            [reflexivity | discriminate | intros _; exists l, a, answer; auto]
      end.
  - intros [= <- _]. apply (Hdone []); [reflexivity | reflexivity | discriminate].
Qed.

End Query.

End MoreProperties.

(** * The theorems at concrete inputs *)

Import Demo.

Lemma decode_encode (s : string) : decode (encode s) = s.
Proof.
  induction s as [|a s IH]; [reflexivity|].
  unfold decode, encode in *. simpl. rewrite IH, N2Z.id, Ascii.ascii_N_embedding.
  reflexivity.
Qed.

(** C1, at a failing input.  [transact] is asked to sign and to compress and
    not to broadcast.  The push arguments it returns are the ones that the
    signature provider answered: they carry no compression flag.  Without
    signing, the same call does return the flag; and with broadcast, what is
    sent to the node is again the provider's answer, without the flag. *)
Theorem transact_signed_loses_compression :
  (transact complete signedCompressed known).1
    = Ok (Unsent (mkPushArgs ["SIG_K1_demo"] None [1; 2; 3] None))
  ∧ (transact complete unsignedCompressed known).1
    = Ok (Unsent (mkPushArgs [] (Some 1) [1; 2; 3] None))
  ∧ last (calls (transact complete broadcastCompressed known).2)
    = Some (Call_send_transaction (mkPushArgs ["SIG_K1_demo"] None [1; 2; 3] None)).
Proof. split; [|split]; vm_compute; reflexivity. Qed.

Lemma transact_rejects_both_knobs_witness :
  blocksBehind bothKnobs = Some 3
  ∧ useLastIrreversible bothKnobs = Some true
  ∧ transact bare bothKnobs fresh = (Throw useEither, fresh).
Proof.
  split; [reflexivity|]. split; [reflexivity|].
  apply (transact_rejects_both_knobs bare bothKnobs fresh 3); reflexivity.
Defined.




Lemma generateTapos_fetches_witness :
  (∃ tx' w1,
     generateTapos (Some info0) bare (Some 1) None 30 known = (Ok tx', w1)
     ∧ calls w1 = [Call_get_block_header_state (NumInt 99); Call_get_block (NumInt 99)]
     ∧ prop tx' "ref_block_num" = VNum (NumInt 97))
  ∧ (∃ tx' w1,
       generateTapos (Some info0) bare (Some 3) None 30 known = (Ok tx', w1)
       ∧ calls w1 = [Call_get_block (NumInt 97)]
       ∧ prop tx' "ref_block_num" = VNum (NumInt 97))
  ∧ (∃ tx' w1,
       generateTapos None bare None (Some true) 30 known = (Ok tx', w1)
       ∧ calls w1 = [Call_get_info; Call_get_block (NumInt 97)]).
Proof.
  split; [|split].
  - destruct (generateTapos_fetches (Some info0) bare (Some 1) None 30 known known info0
                (or_introl (conj eq_refl eq_refl))) as (_ & Hn & _ & _ & H).
    pose proof (Hn eq_refl 1 eq_refl) as En.
    eexists _, _. rewrite H.
    + split; [vm_compute; reflexivity|]. split; reflexivity.
    + intros z Hz. rewrite En in Hz. injection Hz as <-. vm_compute. reflexivity.
  - destruct (generateTapos_fetches (Some info0) bare (Some 3) None 30 known known info0
                (or_introl (conj eq_refl eq_refl))) as (_ & Hn & _ & H & _).
    pose proof (Hn eq_refl 3 eq_refl) as En.
    eexists _, _. rewrite (H 97 En).
    + split; [vm_compute; reflexivity|]. split; reflexivity.
    + vm_compute. discriminate.
  - assert (Hinfo : (@None GetInfoResult = Some info0
                     ∧ logCall Call_get_info known = known)
                    ∨ (@None GetInfoResult = None
                       ∧ get_info (calls known) = Ok info0
                       ∧ logCall Call_get_info known = logCall Call_get_info known))
      by (right; repeat split; reflexivity).
    destruct (generateTapos_fetches None bare None (Some true) 30 known
                (logCall Call_get_info known) info0 Hinfo)
      as (Hn & _ & _ & H & _).
    eexists _, _. rewrite (H 97 (Hn eq_refl)).
    + split; [vm_compute; reflexivity|]. reflexivity.
    + vm_compute. discriminate.
Defined.

(** C5 as stated fails for an account that the provider does not know: both
    of two successive calls ask the provider, and neither returns an entry.
    It also fails for an account whose entry is stored already: two
    successive calls then ask the provider not once but never. *)
Lemma getCachedAbi_unknown_account_fetched_twice :
  let first := getCachedAbi "nobody" false fresh in
  let second := getCachedAbi "nobody" false first.2 in
  let stored := (getCachedAbi "eosio.token" false fresh).2 in
  let third := getCachedAbi "eosio.token" false stored in
  let fourth := getCachedAbi "eosio.token" false third.2 in
  calls fresh = []
  ∧ calls second.2 = [Call_getRawAbi "nobody"; Call_getRawAbi "nobody"]
  ∧ fetches "nobody" (calls second.2) = 2%nat
  ∧ second.1 = Throw (Error "fetching abi for nobody: unknown key")
  ∧ calls fourth.2 = calls stored.
Proof. vm_compute. auto 6. Qed.

Lemma getCachedAbi_cache_witness :
  ∃ c w1,
    cachedAbis fresh !! "eosio.token" = None
    ∧ getCachedAbi "eosio.token" false fresh = (Ok c, w1)
    ∧ getCachedAbi "eosio.token" false w1 = (Ok c, w1)
    ∧ fetches "eosio.token" (calls w1) = 1%nat.
Proof.
  pose (c := mkCachedAbi tokenAbi (mkAbi "eosio::abi/1.1" [0; 0])).
  pose (w1 := (getCachedAbi "eosio.token" false fresh).2).
  assert (E : getCachedAbi "eosio.token" false fresh = (Ok c, w1))
    by (vm_compute; reflexivity).
  destruct (getCachedAbi_cache "eosio.token" fresh w1 c eq_refl E) as ((_ & H2 & H3) & _).
  exists c, w1. split; [reflexivity|]. split; [exact E|]. split; [exact H2|].
  rewrite H3. reflexivity.
Defined.

Lemma getCachedAbi_failure_witness :
  ∃ e' w1,
    getCachedAbi "legacy" true fresh = (Throw e', w1)
    ∧ message e' = "fetching abi for legacy: Unsupported abi version"
    ∧ cachedAbis w1 = cachedAbis fresh.
Proof.
  assert (Hdecode : ∃ r, getRawAbi (calls fresh) "legacy" = Ok r
                         ∧ rawAbiToJson (gra_abi r) = Throw unsupportedAbiVersion).
  { exists (mkRawAbiResult "legacy" oldAbi). split; reflexivity. }
  destruct (getCachedAbi_failure "legacy" true fresh unsupportedAbiVersion
              (or_introl eq_refl) (or_intror Hdecode))
    as (e' & w1 & H1 & H2 & H3 & _).
  exists e', w1. auto.
Defined.

Lemma abi_round_trip_witness :
  ∃ rawAbi',
    rawAbiToJson tokenAbi = Ok (mkAbi "eosio::abi/1.1" [0; 0])
    ∧ jsonToRawAbi (mkAbi "eosio::abi/1.1" [0; 0]) = Ok rawAbi'
    ∧ rawAbiToJson rawAbi' = Ok (mkAbi "eosio::abi/1.1" [0; 0]).
Proof.
  destruct (abi_round_trip (ser := serializer) tokenAbi (mkAbi "eosio::abi/1.1" [0; 0])
              (λ bs, decode_encode (decode bs))
              (λ bs rest H, ex_intro _ rest (conj eq_refl eq_refl))
              eq_refl)
    as ((rawAbi' & H1 & H2 & _) & _).
  - vm_compute. reflexivity.
  - exists rawAbi'. split; [reflexivity|]. split; assumption.
Defined.

Lemma transact_swallows_decode_errors_witness :
  transact complete config0 fresh
    = (Ok (Response nodeResponse), (transact complete config0 fresh).2)
  ∧ decodeTraces nodeResponse = nodeResponse.
Proof.
  pose (w0 := (resolveTapos complete config0 fresh).2).
  pose (w1 := (assemble complete config0 w0).2).
  pose (a := mkPushArgs ["SIG_K1_demo"] None [1; 2; 3] None).
  assert (E0 : resolveTapos complete config0 fresh = (Ok complete, w0))
    by (vm_compute; reflexivity).
  assert (E1 : assemble complete config0 w0 = (Ok a, w1))
    by (vm_compute; reflexivity).
  destruct (transact_swallows_decode_errors complete complete config0 fresh w0 w1 a
              nodeResponse eq_refl E0 E1 eq_refl) as (H & _).
  rewrite H. split; reflexivity.
Defined.

Lemma tapos_completeness_check_witness :
  hasRequiredTaposFields complete = true
  ∧ hasRequiredTaposFields stringly = false
  ∧ hasRequiredTaposFields unexpiring = false
  ∧ transact unexpiring config0 known = (Throw taposMissing, known).
Proof.
  split; [|split; [|split]].
  - apply (proj1 (proj2 (tapos_completeness_check complete config0 known))
             (VStr "2026-01-01T00:00:10.000")); reflexivity.
  - apply (proj1 (proj2 (proj2 (tapos_completeness_check stringly config0 known))) "7").
    left. reflexivity.
  - apply (proj2 (proj2 (proj2 (tapos_completeness_check unexpiring config0 known)))).
    reflexivity.
  - destruct (proj2 (proj2 (proj2 (tapos_completeness_check unexpiring config0 known)))
                eq_refl) as (_ & e & w1 & Ht & Hw).
    destruct (Hw unexpiring known eq_refl) as [-> ->]. exact Ht.
Defined.

(** * The further properties at concrete inputs *)

Import Demo2.

Lemma getTransactionAbis_accounts_witness :
  ∃ abis w',
    getTransactionAbis mixed false fresh = (Ok abis, w')
    ∧ txAccounts mixed = ["eosio.token"; "wasmacct"; "eosio.token"]
    ∧ NoDup (map accountName abis)
    ∧ ("eosio.token" ∈ map accountName abis ↔
       "eosio.token" ∈ txAccounts mixed ∧ wasmAbiOf "eosio.token" = None).
Proof.
  pose (abis := [mkBinaryAbi "eosio.token" tokenAbi]).
  pose (w' := (getTransactionAbis mixed false fresh).2).
  assert (E : getTransactionAbis mixed false fresh = (Ok abis, w'))
    by (vm_compute; reflexivity).
  destruct (getTransactionAbis_accounts mixed fresh w' abis E) as (H1 & H2 & _).
  exists abis, w'. split; [exact E|]. split; [reflexivity|]. split; [exact H1|].
  apply H2.
Defined.

Lemma getTransactionAbis_fetches_witness :
  (∃ e, (getTransactionAbis partlyUnknown false fresh).1 = Throw e)
  ∧ calls (getTransactionAbis partlyUnknown false fresh).2
    = [Call_getRawAbi "nobody"; Call_getRawAbi "eosio.token"]
  ∧ is_Some (cachedAbis (getTransactionAbis partlyUnknown false fresh).2 !! "eosio.token").
Proof.
  destruct (getTransactionAbis_fetches partlyUnknown fresh) as (H1 & _ & _ & H4 & _).
  split; [eexists; vm_compute; reflexivity|].
  split; [rewrite H1; reflexivity|].
  destruct (H4 "eosio.token") as (l1 & l2 & _ & ->).
  - apply list_elem_of_In. vm_compute. auto.
  - eexists. vm_compute. reflexivity.
Defined.

Lemma convertActions_shape_witness :
  calls (serializeActions [transfer; wasmAction; transferBack] fresh).2
    = [Call_getRawAbi "eosio.token"; Call_getRawAbi "eosio.token"]
  ∧ ∃ outs, (serializeActions [transfer; wasmAction; transferBack] fresh).1 = Ok outs
            ∧ outs !! 1%nat = Some wasmAction.
Proof.
  destruct (convertActions_shape serializeAction [transfer; wasmAction; transferBack]
              fresh) as [[H1 H2] _].
  split; [rewrite H1; reflexivity|].
  pose (outs := [mkAction "eosio.token" "transfer" [mkAuthorization "bob" "active"]
                   (Hex "00");
                 wasmAction;
                 mkAction "eosio.token" "transfer" [mkAuthorization "alice" "active"]
                   (Hex "00")]).
  assert (E : (serializeActions [transfer; wasmAction; transferBack] fresh).1 = Ok outs)
    by (vm_compute; reflexivity).
  exists outs. split; [exact E|].
  destruct (H2 outs E) as [_ H3].
  destruct (H3 1%nat wasmAction wasmAction eq_refl eq_refl) as [H4 _].
  reflexivity.
Defined.

Lemma convertActions_after_abis_witness :
  let w1 := (getTransactionAbis mixed false fresh).2 in
  calls (serializeActions (tx_actions mixed) w1).2 = calls w1
  ∧ calls w1 = [Call_getRawAbi "eosio.token"].
Proof.
  pose (abis := [mkBinaryAbi "eosio.token" tokenAbi]).
  pose (w1 := (getTransactionAbis mixed false fresh).2).
  assert (E : getTransactionAbis mixed false fresh = (Ok abis, w1))
    by (vm_compute; reflexivity).
  assert (Hin : ∀ x, x ∈ tx_actions mixed → account x ∈ txAccounts mixed).
  { intros x Hx. apply list_elem_of_In in Hx. apply list_elem_of_In.
    simpl in Hx. destruct Hx as [<- | [<- | []]]; simpl; auto. }
  destruct (convertActions_after_abis serializeAction mixed fresh w1 w1 abis
              (tx_actions mixed) E (reflexivity _) Hin) as [[H _] _].
  split; [exact H | reflexivity].
Defined.

Lemma getContract_survives_abi_reload_witness :
  ∃ c w1,
    getContract "eosio.token" false fresh = (Ok c, w1)
    ∧ getContract "eosio.token" false w1 = (Ok c, w1)
    ∧ getContract "eosio.token" false (getAbi "eosio.token" true w1).2
      = (Ok c, (getAbi "eosio.token" true w1).2).
Proof.
  pose (c := mkContract tt (<["transfer" := "transfer"]> (∅ : gmap string string))).
  pose (w1 := (getContract "eosio.token" false fresh).2).
  assert (E : getContract "eosio.token" false fresh = (Ok c, w1))
    by (vm_compute; reflexivity).
  destruct (getContract_survives_abi_reload "eosio.token" false fresh w1 c E)
    as (H1 & _ & _ & H2).
  exists c, w1. auto.
Defined.

Lemma getContract_unbuildable_witness :
  ∃ w1 ca,
    getContract (ser := picky) "eosio.token" false fresh
      = (Throw (Error "Unknown type: transfer"), w1)
    ∧ cachedAbis w1 !! "eosio.token" = Some ca
    ∧ contracts w1 = contracts fresh.
Proof.
  pose (ca := @mkCachedAbi (list Z) tokenAbi (mkAbi "eosio::abi/1.1" [0; 0])).
  pose (w1 := (getCachedAbi (ser := picky) "eosio.token" false fresh).2).
  assert (E : getCachedAbi (ser := picky) "eosio.token" false fresh = (Ok ca, w1))
    by (vm_compute; reflexivity).
  assert (Hfail : getTypesFromAbi (Serializer := picky) (abi ca)
                    = Throw (Error "Unknown type: transfer")
                  ∨ ∃ types, getTypesFromAbi (Serializer := picky) (abi ca) = Ok types
                             ∧ actionTypes (ser := picky) types
                                 (abi_actions (Serializer := picky) (body (abi ca))) ∅
                               = Throw (Error "Unknown type: transfer")).
  { right. exists tt. split; reflexivity. }
  destruct (getContract_unbuildable (ser := picky) "eosio.token" false fresh w1 ca
              (Error "Unknown type: transfer") (or_intror eq_refl) E Hfail)
    as (H1 & H2 & H3).
  exists w1, ca. auto.
Defined.

Lemma getContract_actions_witness :
  ∃ c w1,
    getContract "eosio.token" false fresh = (Ok c, w1)
    ∧ actions c !! "transfer" = Some "transfer"
    ∧ actions c !! "issue" = None.
Proof.
  pose (c := mkContract tt (<["transfer" := "transfer"]> (∅ : gmap string string))).
  pose (w1 := (getContract "eosio.token" false fresh).2).
  assert (E : getContract "eosio.token" false fresh = (Ok c, w1))
    by (vm_compute; reflexivity).
  destruct (getContract_actions "eosio.token" false fresh w1 c "issue"
              (or_intror eq_refl) E) as (ca & Hca & _ & Hissue).
  assert (Hca' : ca = mkCachedAbi tokenAbi (mkAbi "eosio::abi/1.1" [0; 0]))
    by (assert (Hl : cachedAbis w1 !! "eosio.token"
                     = Some (mkCachedAbi tokenAbi (mkAbi "eosio::abi/1.1" [0; 0])))
          by (vm_compute; reflexivity);
        congruence).
  subst ca. simpl in Hissue.
  exists c, w1. split; [exact E|]. split; [reflexivity | exact Hissue].
Defined.

Lemma transact_unsigned_witness :
  ∃ a w',
    transact complete unsignedUnsent known = (Ok (Unsent a), w')
    ∧ signatures a = []
    ∧ compression a = Some 1.
Proof.
  pose (a := mkPushArgs [] (Some 1) [1; 2; 3] None).
  pose (w' := (transact complete unsignedUnsent known).2).
  assert (E : transact complete unsignedUnsent known = (Ok (Unsent a), w'))
    by (vm_compute; reflexivity).
  destruct (transact_unsigned complete unsignedUnsent known w' (Unsent a)
              eq_refl eq_refl E) as (a' & [= <-] & H1 & H2 & _).
  exists a, w'. auto.
Defined.

Lemma generateTapos_block_witness :
  calls (generateTapos (Some info0) bare None (Some true) 30 known).2
    = [Call_get_block (NumInt 97)]
  ∧ calls (generateTapos None bare (Some 3) None 30 known).2
    = [Call_get_info; Call_get_block (NumInt 97)].
Proof.
  split.
  - exact (proj1 (generateTapos_block (Some info0) bare None (Some true) 30 known known
                    info0 (or_introl (conj eq_refl eq_refl))) eq_refl).
  - assert (Hinfo : (None = Some info0 ∧ logCall Call_get_info known = known)
                    ∨ (@None GetInfoResult = None ∧ get_info (calls known) = Ok info0
                       ∧ logCall Call_get_info known = logCall Call_get_info known))
      by (right; repeat split).
    destruct (generateTapos_block None bare (Some 3) None 30 known
                (logCall Call_get_info known) info0 Hinfo) as (_ & H & _).
    destruct (H 3 eq_refl eq_refl) as [H1 _]. apply H1. vm_compute. discriminate.
Defined.

Lemma generateTapos_merge_witness :
  ∃ tx' w',
    generateTapos (Some info0) complete None (Some true) 30 known = (Ok tx', w')
    ∧ props tx' !! "expiration" = Some (VStr "2026-01-01T00:00:10.000")
    ∧ tx_actions tx' = [transfer].
Proof.
  pose (tx' := (generateTapos (Some info0) complete None (Some true) 30 known).1).
  pose (w' := (generateTapos (Some info0) complete None (Some true) 30 known).2).
  assert (E : generateTapos (Some info0) complete None (Some true) 30 known
              = (Ok (spreadOver (transactionHeader (FullBlock 97) 30) complete), w'))
    by (vm_compute; reflexivity).
  destruct (generateTapos_merge _ _ _ _ _ _ _ _ E) as (refBlock & Hp & _ & Ha & _).
  eexists _, w'. split; [exact E|]. split; [|exact Ha].
  rewrite Hp. reflexivity.
Defined.

Lemma decodeTraces_unregistered_witness :
  decodeTraces plainResponse = plainResponse.
Proof.
  apply decodeTraces_unregistered. right.
  intros p traces trace a [= <-] [= <-] Hin Ha.
  apply list_elem_of_singleton in Hin. subst trace.
  injection Ha as <-. reflexivity.
Defined.

Lemma push_requests_witness :
  pushSignedTransaction (λ x, Ok x) signedArgs
    = Ok (mkPushArgs ["SIG_K1_demo"] None [1; 2; 3] None)
  ∧ pushCompressedSignedTransaction id (λ x, Ok x) signedArgs
    = Ok (mkPushArgs ["SIG_K1_demo"] (Some 1) [1; 2; 3] (Some [])).
Proof.
  destruct (push_requests (PushResult := PushTransactionArgs) id id signedArgs
              (λ bs, eq_refl))
    as (plain & compressed & packed & H & Hs & Hc & Ht & Hd & Hs' & Hc' & Ht' & Hd' & Hp).
  destruct (H (λ x, Ok x)) as [-> ->].
  destruct plain, compressed; simpl in *. subst. split; reflexivity.
Defined.

Lemma queryRequest_body_witness :
  ∃ posted w',
    queryRequest queryBytes toHex "eosio.token" "select 1" queryConfigSigned fresh
      = (Ok posted, w')
    ∧ qb_compression posted = 0
    ∧ packed_context_free_data posted = ""
    ∧ qb_signatures posted = ["SIG_K1_demo"].
Proof.
  pose (posted := mkQueryBody ["SIG_K1_demo"] 0 "" (toHex [1; 2; 3])).
  pose (w' := (queryRequest queryBytes toHex "eosio.token" "select 1"
                 queryConfigSigned fresh).2).
  assert (E : queryRequest queryBytes toHex "eosio.token" "select 1"
                queryConfigSigned fresh = (Ok posted, w'))
    by (vm_compute; reflexivity).
  destruct (queryRequest_body queryBytes toHex "eosio.token" "select 1"
              queryConfigSigned fresh w' posted E) as (H1 & H2 & _).
  exists posted, w'. auto.
Defined.

Lemma transact_chain_id_witness :
  chainId (transact complete config0 fresh).2 = Some "cf057bbf"
  ∧ Forall (λ c, ∀ a, c = Call_sign a → spa_chainId a = Some "cf057bbf")
      (calls (transact complete config0 fresh).2).
Proof.
  destruct (transact_chain_id complete config0 fresh
              (calls (transact complete config0 fresh).2) eq_refl eq_refl)
    as (_ & H & F).
  pose proof (H eq_refl info0 eq_refl) as E.
  split; [exact E|].
  eapply Forall_impl; [exact F|].
  intros c Hc a Ha. destruct (Hc a Ha) as [Hid _]. rewrite Hid. exact E.
Defined.

Lemma transact_calls_witness :
  (∃ e, (transact partlyUnknown config0 known).1 = Throw e)
  ∧ ∃ tapos abis keys signs sends,
      calls (transact partlyUnknown config0 known).2
        = calls known ++ tapos ++ abis ++ keys ++ signs ++ sends
      ∧ tapos = []
      ∧ abis = [Call_getRawAbi "nobody"; Call_getRawAbi "eosio.token"].
Proof.
  split; [eexists; vm_compute; reflexivity|].
  destruct (transact_calls partlyUnknown config0 known)
    as (tapos & abis & keys & signs & sends & H1 & (_ & _ & _ & H2) & (_ & H3) & _).
  exists tapos, abis, keys, signs, sends.
  split; [exact H1|]. split; [apply H2; reflexivity|]. rewrite H3. reflexivity.
Defined.


#[local] Existing Instances M_ret M_bind.

Lemma getTransactionAbis_arrival_order_witness :
  let started :=
    startAll (λ account, getCachedAbi_start account false) ["nobody"; "eosio.token"]
      fresh in
  (settleAll (λ account p,
                c ← getCachedAbi_resume account p;
                mret (mkBinaryAbi account (rawAbi c)))
     ["eosio.token"; "nobody"] (reverse started.1) started.2).2
  = (getTransactionAbis partlyUnknown false fresh).2.
Proof.
  pose (started :=
          startAll (λ account, getCachedAbi_start account false)
            (abiAccounts partlyUnknown) fresh).
  destruct (getTransactionAbis_arrival_order partlyUnknown fresh
              (reverse (zip (abiAccounts partlyUnknown) started.1))
              (reverse_Permutation _)) as [H _].
  exact H.
Defined.
